(** * KlayGE scene graph: a shallow embedding of [SceneNode]

    The development follows [KlayGE/Core/Src/Scene/SceneNode.cpp].  Scene
    nodes and renderables live in a store indexed by addresses, because the
    C++ code shares them through [shared_ptr] and raw back pointers; every
    member function becomes a function on the store that takes the address
    of [this].  Undefined behaviour of the C++ code (subscript out of range,
    null dereference) is a [Fault]. *)

From Stdlib Require Import ZArith.
From stdpp Require Import base option list gmap.

Open Scope Z_scope.

Module KlayGE.

(** ** Faults and the result monad *)

Inductive fault :=
| SubscriptOutOfRange   (* [v[i]] with [i >= v.size()] *)
| NullDereference       (* [p->f()] with [p == nullptr] *)
| DanglingPointer       (* address with no object in the store *)
| FuelExhausted.        (* the recursion bound of the model was reached *)

Inductive result (A : Type) :=
| Ok (a : A)
| Fault (f : fault).
Arguments Ok {A} a.
Arguments Fault {A} f.

Definition bind {A B} (m : result A) (k : A -> result B) : result B :=
  match m with
  | Ok a => k a
  | Fault f => Fault f
  end.

Notation "'let*' x ':=' m 'in' k" := (bind m (fun x => k))
  (at level 10, x pattern, m at level 100, k at level 200).

(** [for (auto x : xs) s = f(s, x)] with faults. *)
Fixpoint foldM {S X} (f : S -> X -> result S) (xs : list X) (s : S) : result S :=
  match xs with
  | [] => Ok s
  | x :: xs' => let* s' := f s x in foldM f xs' s'
  end.

(** [v[i]] on a [std::vector]. *)
Definition subscript {A} (v : list A) (i : nat) : result A :=
  match v !! i with
  | Some a => Ok a
  | None => Fault SubscriptOutOfRange
  end.

(** [*p] on a possibly null pointer. *)
Definition nonnull {A} (p : option A) : result A :=
  match p with
  | Some a => Ok a
  | None => Fault NullDereference
  end.

(** ** External capabilities

    Matrices, boxes and pass types come from KFL and from other headers of
    the engine; the scene node only moves them around. *)

Class MathLib := {
  float : Type;
  float4x4 : Type;
  AABBox : Type;
  PassType : Type;
  (* [float4x4::Identity()] *)
  Identity : float4x4;
  (* [operator*] on [float4x4] *)
  mat_mul : float4x4 -> float4x4 -> float4x4;
  (* a default constructed [AABBox] *)
  AABBox_default : AABBox;
  (* [operator|=] on [AABBox] *)
  aabb_union : AABBox -> AABBox -> AABBox;
  (* [MathLib::transform_aabb] *)
  transform_aabb : AABBox -> float4x4 -> AABBox;
  (* [PC_ShadowMap != GetPassCategory(type)] *)
  not_shadow_map_pass : PassType -> bool;
}.

(** ** Data model *)

Definition addr := positive.

(** A [std::wstring]: its [wchar_t] code units. *)
Definition wstring := list N.

(** [SceneNodePtr] and [RenderablePtr]: [None] is [nullptr]. *)
Definition SceneNodePtr := option addr.
Definition RenderablePtr := option addr.

(** [uint32_t]. *)
Definition u32 (z : Z) : Z := z mod 2 ^ 32.

(** [enum SOAttrib]. *)
Definition SOA_Cullable : Z := Z.shiftl 1 0.
Definition SOA_Overlay : Z := Z.shiftl 1 1.
Definition SOA_Moveable : Z := Z.shiftl 1 2.
Definition SOA_Invisible : Z := Z.shiftl 1 3.
Definition SOA_NotCastShadow : Z := Z.shiftl 1 4.
Definition SOA_SSS : Z := Z.shiftl 1 5.

Inductive BoundOverlap := BO_No | BO_Partial | BO_Yes.

(** A bound [std::function<void(SceneNode&, float, float)>]: a handle whose
    meaning is given by [Callbacks] below. *)
Definition callback := positive.

Section Model.
Context {ML : MathLib}.

Record SceneNode := mkSceneNode {
  name_ : wstring;
  attrib_ : Z;
  parent_ : option addr;
  children_ : list SceneNodePtr;
  renderables_ : list RenderablePtr;
  renderables_hw_res_ready_ : list bool;
  model_ : float4x4;
  abs_model_ : float4x4;
  pos_aabb_os_ : option AABBox;
  pos_aabb_ws_ : option AABBox;
  pos_aabb_dirty_ : bool;
  visible_mark_ : BoundOverlap;
  sub_thread_update_func_ : option callback;
  main_thread_update_func_ : option callback;
}.

(** Modelled from the spec: the drawable capability of section 6
    ([Renderable.hpp] is not part of the sources): a local-space bound, the
    sub-drawables, the hardware-readiness report, the per-pass flags, and
    the state written by the setters for world matrix, object id, select
    mode and pass. *)
Record Renderable := mkRenderable {
  r_PosBound : AABBox;
  r_HWResourceReady : bool;
  r_Subrenderables : list RenderablePtr;
  r_TransparencyBackFace : bool;
  r_TransparencyFrontFace : bool;
  r_SSS : bool;
  r_Reflection : bool;
  r_SimpleForward : bool;
  r_VDM : bool;
  r_ModelMatrix : float4x4;
  r_SelectMode : bool;
  r_ObjectID : Z;
  r_Pass : option PassType;
}.

(** The store.  [scene_nodes_] is the registry of the scene manager. *)
Record World := mkWorld {
  nodes : gmap addr SceneNode;
  drawables : gmap addr Renderable;
  scene_nodes_ : list SceneNodePtr;
}.

(** *** Field updates *)

Definition set_name (v : wstring) (n : SceneNode) : SceneNode :=
  mkSceneNode v (attrib_ n) (parent_ n) (children_ n) (renderables_ n)
    (renderables_hw_res_ready_ n) (model_ n) (abs_model_ n) (pos_aabb_os_ n)
    (pos_aabb_ws_ n) (pos_aabb_dirty_ n) (visible_mark_ n)
    (sub_thread_update_func_ n) (main_thread_update_func_ n).

Definition set_attrib (v : Z) (n : SceneNode) : SceneNode :=
  mkSceneNode (name_ n) v (parent_ n) (children_ n) (renderables_ n)
    (renderables_hw_res_ready_ n) (model_ n) (abs_model_ n) (pos_aabb_os_ n)
    (pos_aabb_ws_ n) (pos_aabb_dirty_ n) (visible_mark_ n)
    (sub_thread_update_func_ n) (main_thread_update_func_ n).

Definition set_parent (v : option addr) (n : SceneNode) : SceneNode :=
  mkSceneNode (name_ n) (attrib_ n) v (children_ n) (renderables_ n)
    (renderables_hw_res_ready_ n) (model_ n) (abs_model_ n) (pos_aabb_os_ n)
    (pos_aabb_ws_ n) (pos_aabb_dirty_ n) (visible_mark_ n)
    (sub_thread_update_func_ n) (main_thread_update_func_ n).

Definition set_children (v : list SceneNodePtr) (n : SceneNode) : SceneNode :=
  mkSceneNode (name_ n) (attrib_ n) (parent_ n) v (renderables_ n)
    (renderables_hw_res_ready_ n) (model_ n) (abs_model_ n) (pos_aabb_os_ n)
    (pos_aabb_ws_ n) (pos_aabb_dirty_ n) (visible_mark_ n)
    (sub_thread_update_func_ n) (main_thread_update_func_ n).

Definition set_renderables (v : list RenderablePtr) (n : SceneNode) : SceneNode :=
  mkSceneNode (name_ n) (attrib_ n) (parent_ n) (children_ n) v
    (renderables_hw_res_ready_ n) (model_ n) (abs_model_ n) (pos_aabb_os_ n)
    (pos_aabb_ws_ n) (pos_aabb_dirty_ n) (visible_mark_ n)
    (sub_thread_update_func_ n) (main_thread_update_func_ n).

Definition set_hw_res_ready (v : list bool) (n : SceneNode) : SceneNode :=
  mkSceneNode (name_ n) (attrib_ n) (parent_ n) (children_ n) (renderables_ n)
    v (model_ n) (abs_model_ n) (pos_aabb_os_ n)
    (pos_aabb_ws_ n) (pos_aabb_dirty_ n) (visible_mark_ n)
    (sub_thread_update_func_ n) (main_thread_update_func_ n).

Definition set_model (v : float4x4) (n : SceneNode) : SceneNode :=
  mkSceneNode (name_ n) (attrib_ n) (parent_ n) (children_ n) (renderables_ n)
    (renderables_hw_res_ready_ n) v (abs_model_ n) (pos_aabb_os_ n)
    (pos_aabb_ws_ n) (pos_aabb_dirty_ n) (visible_mark_ n)
    (sub_thread_update_func_ n) (main_thread_update_func_ n).

Definition set_abs_model (v : float4x4) (n : SceneNode) : SceneNode :=
  mkSceneNode (name_ n) (attrib_ n) (parent_ n) (children_ n) (renderables_ n)
    (renderables_hw_res_ready_ n) (model_ n) v (pos_aabb_os_ n)
    (pos_aabb_ws_ n) (pos_aabb_dirty_ n) (visible_mark_ n)
    (sub_thread_update_func_ n) (main_thread_update_func_ n).

Definition set_pos_aabb_os (v : option AABBox) (n : SceneNode) : SceneNode :=
  mkSceneNode (name_ n) (attrib_ n) (parent_ n) (children_ n) (renderables_ n)
    (renderables_hw_res_ready_ n) (model_ n) (abs_model_ n) v
    (pos_aabb_ws_ n) (pos_aabb_dirty_ n) (visible_mark_ n)
    (sub_thread_update_func_ n) (main_thread_update_func_ n).

Definition set_pos_aabb_ws (v : option AABBox) (n : SceneNode) : SceneNode :=
  mkSceneNode (name_ n) (attrib_ n) (parent_ n) (children_ n) (renderables_ n)
    (renderables_hw_res_ready_ n) (model_ n) (abs_model_ n) (pos_aabb_os_ n)
    v (pos_aabb_dirty_ n) (visible_mark_ n)
    (sub_thread_update_func_ n) (main_thread_update_func_ n).

Definition set_pos_aabb_dirty (v : bool) (n : SceneNode) : SceneNode :=
  mkSceneNode (name_ n) (attrib_ n) (parent_ n) (children_ n) (renderables_ n)
    (renderables_hw_res_ready_ n) (model_ n) (abs_model_ n) (pos_aabb_os_ n)
    (pos_aabb_ws_ n) v (visible_mark_ n)
    (sub_thread_update_func_ n) (main_thread_update_func_ n).

Definition set_visible_mark (v : BoundOverlap) (n : SceneNode) : SceneNode :=
  mkSceneNode (name_ n) (attrib_ n) (parent_ n) (children_ n) (renderables_ n)
    (renderables_hw_res_ready_ n) (model_ n) (abs_model_ n) (pos_aabb_os_ n)
    (pos_aabb_ws_ n) (pos_aabb_dirty_ n) v
    (sub_thread_update_func_ n) (main_thread_update_func_ n).

Definition set_sub_thread_update_func (v : option callback) (n : SceneNode) : SceneNode :=
  mkSceneNode (name_ n) (attrib_ n) (parent_ n) (children_ n) (renderables_ n)
    (renderables_hw_res_ready_ n) (model_ n) (abs_model_ n) (pos_aabb_os_ n)
    (pos_aabb_ws_ n) (pos_aabb_dirty_ n) (visible_mark_ n)
    v (main_thread_update_func_ n).

Definition set_main_thread_update_func (v : option callback) (n : SceneNode) : SceneNode :=
  mkSceneNode (name_ n) (attrib_ n) (parent_ n) (children_ n) (renderables_ n)
    (renderables_hw_res_ready_ n) (model_ n) (abs_model_ n) (pos_aabb_os_ n)
    (pos_aabb_ws_ n) (pos_aabb_dirty_ n) (visible_mark_ n)
    (sub_thread_update_func_ n) v.

Definition set_r_ModelMatrix (v : float4x4) (r : Renderable) : Renderable :=
  mkRenderable (r_PosBound r) (r_HWResourceReady r) (r_Subrenderables r)
    (r_TransparencyBackFace r) (r_TransparencyFrontFace r) (r_SSS r)
    (r_Reflection r) (r_SimpleForward r) (r_VDM r)
    v (r_SelectMode r) (r_ObjectID r) (r_Pass r).

Definition set_r_SelectMode (v : bool) (r : Renderable) : Renderable :=
  mkRenderable (r_PosBound r) (r_HWResourceReady r) (r_Subrenderables r)
    (r_TransparencyBackFace r) (r_TransparencyFrontFace r) (r_SSS r)
    (r_Reflection r) (r_SimpleForward r) (r_VDM r)
    (r_ModelMatrix r) v (r_ObjectID r) (r_Pass r).

Definition set_r_ObjectID (v : Z) (r : Renderable) : Renderable :=
  mkRenderable (r_PosBound r) (r_HWResourceReady r) (r_Subrenderables r)
    (r_TransparencyBackFace r) (r_TransparencyFrontFace r) (r_SSS r)
    (r_Reflection r) (r_SimpleForward r) (r_VDM r)
    (r_ModelMatrix r) (r_SelectMode r) v (r_Pass r).

Definition set_r_Pass (v : option PassType) (r : Renderable) : Renderable :=
  mkRenderable (r_PosBound r) (r_HWResourceReady r) (r_Subrenderables r)
    (r_TransparencyBackFace r) (r_TransparencyFrontFace r) (r_SSS r)
    (r_Reflection r) (r_SimpleForward r) (r_VDM r)
    (r_ModelMatrix r) (r_SelectMode r) (r_ObjectID r) v.

(** *** Reading and writing the store *)

Definition deref (w : World) (p : addr) : result SceneNode :=
  match nodes w !! p with
  | Some n => Ok n
  | None => Fault DanglingPointer
  end.

Definition deref_renderable (w : World) (r : addr) : result Renderable :=
  match drawables w !! r with
  | Some d => Ok d
  | None => Fault DanglingPointer
  end.

Definition store (w : World) (p : addr) (n : SceneNode) : World :=
  mkWorld (<[p := n]> (nodes w)) (drawables w) (scene_nodes_ w).

Definition store_renderable (w : World) (r : addr) (d : Renderable) : World :=
  mkWorld (nodes w) (<[r := d]> (drawables w)) (scene_nodes_ w).

Definition set_scene_nodes (w : World) (l : list SceneNodePtr) : World :=
  mkWorld (nodes w) (drawables w) l.

(** [this->field = ...]: a write through [this]. *)
Definition modify (w : World) (this : addr) (f : SceneNode -> SceneNode) : result World :=
  let* n := deref w this in Ok (store w this (f n)).

(** [renderable->setter(...)]: a write through a [RenderablePtr]. *)
Definition modify_renderable (w : World) (r : RenderablePtr)
    (f : Renderable -> Renderable) : result World :=
  let* a := nonnull r in
  let* d := deref_renderable w a in
  Ok (store_renderable w a (f d)).

(** [MakeSharedPtr<SceneNode>(...)]: a fresh address for a new object. *)
Definition alloc (w : World) (n : SceneNode) : addr * World :=
  let a := fresh (dom (nodes w)) in (a, store w a n).

(** [v[i] = x] on a [std::vector]. *)
Definition assign {A} (v : list A) (i : nat) (x : A) : result (list A) :=
  if (i <? length v)%nat then Ok (<[i := x]> v) else Fault SubscriptOutOfRange.

(** [std::find(v.begin(), v.end(), x) - v.begin()], [None] for [v.end()]. *)
Definition find_index {A} `{EqDecision A} (x : A) (v : list A) : option nat :=
  fst <$> list_find (fun y => y = x) v.

(** [v.erase(v.begin() + i)]; erasing at or past [v.end()] is undefined. *)
Definition erase {A} (v : list A) (i : nat) : result (list A) :=
  if (i <? length v)%nat then Ok (delete i v) else Fault SubscriptOutOfRange.

(** ** Construction *)

(** The test of the constructor: the node gets its two boxes. *)
Definition tracks_bound (attrib : Z) : bool :=
  (Z.land attrib SOA_Overlay =? 0)
  && negb (Z.land attrib (Z.lor SOA_Cullable SOA_Moveable) =? 0).

(** [SceneNode::SceneNode(uint32_t attrib)] *)
Definition SceneNode_init (attrib : Z) : SceneNode :=
  {| name_ := [];
     attrib_ := attrib;
     parent_ := None;
     children_ := [];
     renderables_ := [];
     renderables_hw_res_ready_ := [];
     model_ := Identity;
     abs_model_ := Identity;
     pos_aabb_os_ := if tracks_bound attrib then Some AABBox_default else None;
     pos_aabb_ws_ := if tracks_bound attrib then Some AABBox_default else None;
     pos_aabb_dirty_ := true;
     visible_mark_ := BO_No;
     sub_thread_update_func_ := None;
     main_thread_update_func_ := None |}.

(** ** Names and lookup by name *)

Definition Name (w : World) (this : addr) : result wstring :=
  let* n := deref w this in Ok (name_ n).

Definition Name_set (w : World) (this : addr) (name : wstring) : result World :=
  modify w this (set_name name).

(** The loop of [FindFirstNode]: the first child whose search succeeds. *)
Fixpoint first_found {X A} (f : X -> result (option A)) (xs : list X)
    : result (option A) :=
  match xs with
  | [] => Ok None
  | x :: xs' =>
    let* ret := f x in
    match ret with
    | Some a => Ok (Some a)
    | None => first_found f xs'
    end
  end.

Fixpoint FindFirstNode (fuel : nat) (w : World) (this : addr) (name : wstring)
    : result (option addr) :=
  match fuel with
  | O => Fault FuelExhausted
  | S fuel' =>
    let* n := deref w this in
    if bool_decide (name_ n = name) then Ok (Some this)
    else first_found
           (fun child : SceneNodePtr =>
              let* c := nonnull child in FindFirstNode fuel' w c name)
           (children_ n)
  end.

(** [void FindAllNode(std::vector<SceneNode*>& nodes, std::wstring_view name)] *)
Fixpoint FindAllNode_into (fuel : nat) (w : World) (this : addr)
    (found : list addr) (name : wstring) : result (list addr) :=
  match fuel with
  | O => Fault FuelExhausted
  | S fuel' =>
    let* n := deref w this in
    let found := if bool_decide (name_ n = name) then found ++ [this] else found in
    foldM (fun found (child : SceneNodePtr) =>
             let* c := nonnull child in FindAllNode_into fuel' w c found name)
          (children_ n) found
  end.

Definition FindAllNode (fuel : nat) (w : World) (this : addr) (name : wstring)
    : result (list addr) :=
  FindAllNode_into fuel w this [] name.

(** The loop of [IsNodeInSubTree]: [true] at the first child whose search
    says so. *)
Fixpoint any_found {X} (f : X -> result bool) (xs : list X) : result bool :=
  match xs with
  | [] => Ok false
  | x :: xs' =>
    let* b := f x in
    if b then Ok true else any_found f xs'
  end.

(** [node == this] is a comparison of pointers; [this] is read only for
    its children. *)
Fixpoint IsNodeInSubTree (fuel : nat) (w : World) (this : addr) (node : option addr)
    : result bool :=
  match fuel with
  | O => Fault FuelExhausted
  | S fuel' =>
    if bool_decide (node = Some this) then Ok true
    else
      let* n := deref w this in
      any_found (fun child : SceneNodePtr =>
                   let* c := nonnull child in IsNodeInSubTree fuel' w c node)
                (children_ n)
  end.

(** ** Hierarchy *)

Definition Parent (w : World) (this : addr) : result (option addr) :=
  let* n := deref w this in Ok (parent_ n).

Definition Parent_set (w : World) (this : addr) (so : option addr) : result World :=
  modify w this (set_parent so).

Definition Children (w : World) (this : addr) : result (list SceneNodePtr) :=
  let* n := deref w this in Ok (children_ n).

(** [BOOST_ASSERT(i < children_.size())] and then [children_[i]]. *)
Definition GetChildNode (w : World) (this : addr) (i : Z) : result SceneNodePtr :=
  let* n := deref w this in subscript (children_ n) (Z.to_nat i).

Definition AddChild (w : World) (this : addr) (node : SceneNodePtr) : result World :=
  let* n := deref w this in
  Ok (store w this (set_children (children_ n ++ [node]) (set_pos_aabb_dirty true n))).

Definition RemoveChild (w : World) (this : addr) (node : SceneNodePtr) : result World :=
  let* n := deref w this in
  match find_index node (children_ n) with
  | Some i =>
    Ok (store w this (set_children (delete i (children_ n)) (set_pos_aabb_dirty true n)))
  | None => Ok w
  end.

Definition ClearChildren (w : World) (this : addr) : result World :=
  let* n := deref w this in
  Ok (store w this (set_children [] (set_pos_aabb_dirty true n))).

(** ** Renderables *)

Definition NumRenderables (w : World) (this : addr) : result Z :=
  let* n := deref w this in Ok (u32 (Z.of_nat (length (renderables_ n)))).

(** [GetRenderable(uint32_t i)] *)
Definition GetRenderable_at (w : World) (this : addr) (i : Z) : result RenderablePtr :=
  let* n := deref w this in subscript (renderables_ n) (Z.to_nat i).

(** [GetRenderable()] *)
Definition GetRenderable (w : World) (this : addr) : result RenderablePtr :=
  GetRenderable_at w this 0.

Definition AddRenderable (w : World) (this : addr) (renderable : RenderablePtr)
    : result World :=
  let* n := deref w this in
  Ok (store w this
        (set_pos_aabb_dirty true
           (set_hw_res_ready (renderables_hw_res_ready_ n ++ [false])
              (set_renderables (renderables_ n ++ [renderable]) n)))).

(** The iterator of [std::find] is the position it stands at; the position
    is read again after [renderables_.erase(iter)]. *)
Definition DelRenderable (w : World) (this : addr) (renderable : RenderablePtr)
    : result World :=
  let* n := deref w this in
  match find_index renderable (renderables_ n) with
  | Some i =>
    let rs := delete i (renderables_ n) in
    let* ready := erase (renderables_hw_res_ready_ n) i in
    Ok (store w this
          (set_pos_aabb_dirty true (set_hw_res_ready ready (set_renderables rs n))))
  | None => Ok w
  end.

(** ** Transforms and bounds *)

Definition ModelMatrix_set (w : World) (this : addr) (mat : float4x4) : result World :=
  modify w this (set_model mat).

Definition ModelMatrix (w : World) (this : addr) : result float4x4 :=
  let* n := deref w this in Ok (model_ n).

Definition AbsModelMatrix (w : World) (this : addr) : result float4x4 :=
  let* n := deref w this in Ok (abs_model_ n).

Definition PosBoundWS (w : World) (this : addr) : result AABBox :=
  let* n := deref w this in nonnull (pos_aabb_ws_ n).

(** [renderable->PosBound()] *)
Definition PosBound (w : World) (renderable : RenderablePtr) : result AABBox :=
  let* a := nonnull renderable in
  let* d := deref_renderable w a in
  Ok (r_PosBound d).

(** [*pos_aabb_os_ |= b] *)
Definition pos_aabb_os_union (w : World) (this : addr) (b : AABBox) : result World :=
  let* n := deref w this in
  let* os := nonnull (pos_aabb_os_ n) in
  Ok (store w this (set_pos_aabb_os (Some (aabb_union os b)) n)).

(** The two loops run over [renderables_] and [children_] of [this]; no
    statement of the function writes either vector of any node, so the
    loops run over the vectors read on entry. *)
Fixpoint UpdatePosBound (fuel : nat) (w : World) (this : addr) : result World :=
  match fuel with
  | O => Fault FuelExhausted
  | S fuel' =>
    let* n := deref w this in
    if pos_aabb_dirty_ n then
      let* w :=
        match pos_aabb_os_ n with
        | Some _ =>
          let* r0 := subscript (renderables_ n) 0 in
          let* b0 := PosBound w r0 in
          let w := store w this (set_pos_aabb_os (Some b0) n) in
          let* w :=
            foldM (fun w r => let* b := PosBound w r in pos_aabb_os_union w this b)
                  (drop 1 (renderables_ n)) w in
          foldM (fun w (child : SceneNodePtr) =>
                   let* c := nonnull child in
                   let* cn := deref w c in
                   match pos_aabb_os_ cn with
                   | Some _ =>
                     let* w := UpdatePosBound fuel' w c in
                     let* cn := deref w c in
                     let* b := nonnull (pos_aabb_os_ cn) in
                     pos_aabb_os_union w this b
                   | None => Ok w
                   end)
                (children_ n) w
        | None => Ok w
        end in
      modify w this (set_pos_aabb_dirty false)
    else Ok w
  end.

Definition UpdateAbsModelMatrix (fuel : nat) (w : World) (this : addr) : result World :=
  let* n := deref w this in
  let* w :=
    match parent_ n with
    | Some p =>
      let* pn := deref w p in
      Ok (store w this (set_abs_model (mat_mul (model_ pn) (model_ n)) n))
    | None => Ok (store w this (set_abs_model (model_ n) n))
    end in
  match renderables_ n with
  | [] => Ok w
  | _ :: _ =>
    let* w :=
      match pos_aabb_ws_ n with
      | Some _ =>
        let* w := UpdatePosBound fuel w this in
        let* n := deref w this in
        let* os := nonnull (pos_aabb_os_ n) in
        Ok (store w this (set_pos_aabb_ws (Some (transform_aabb os (abs_model_ n))) n))
      | None => Ok w
      end in
    foldM (fun w renderable =>
             let* n := deref w this in
             modify_renderable w renderable (set_r_ModelMatrix (abs_model_ n)))
          (renderables_ n) w
  end.

Definition VisibleMark_set (w : World) (this : addr) (vm : BoundOverlap) : result World :=
  modify w this (set_visible_mark vm).

Definition VisibleMark (w : World) (this : addr) : result BoundOverlap :=
  let* n := deref w this in Ok (visible_mark_ n).

(** ** Scene manager registration *)

(** Modelled from the spec: [SceneManager::AddSceneNode] and
    [SceneManager::DelSceneNode] ([SceneManager.cpp] is not part of the
    sources) append to the registry of root nodes and erase from it by
    identity; the locked variants do the same under the mutex. *)
Definition AddSceneNode (w : World) (node : SceneNodePtr) : World :=
  set_scene_nodes w (scene_nodes_ w ++ [node]).

Definition DelSceneNode (w : World) (node : SceneNodePtr) : World :=
  match find_index node (scene_nodes_ w) with
  | Some i => set_scene_nodes w (delete i (scene_nodes_ w))
  | None => w
  end.

Fixpoint AddToSceneManager (fuel : nat) (w : World) (this : addr) : result World :=
  match fuel with
  | O => Fault FuelExhausted
  | S fuel' =>
    let* n := deref w this in
    let w := AddSceneNode w (Some this) in
    foldM (fun w (child : SceneNodePtr) =>
             let* c := nonnull child in AddToSceneManager fuel' w c)
          (children_ n) w
  end.

(** The locked variant differs by the registry function it calls, which the
    model does not tell apart. *)
Definition AddToSceneManagerLocked := AddToSceneManager.

Fixpoint DelFromSceneManager (fuel : nat) (w : World) (this : addr) : result World :=
  match fuel with
  | O => Fault FuelExhausted
  | S fuel' =>
    let* n := deref w this in
    let* w :=
      foldM (fun w (child : SceneNodePtr) =>
               let* c := nonnull child in DelFromSceneManager fuel' w c)
            (children_ n) w in
    Ok (DelSceneNode w (Some this))
  end.

Definition DelFromSceneManagerLocked := DelFromSceneManager.

(** ** Attributes and visibility *)

Definition Attrib (w : World) (this : addr) : result Z :=
  let* n := deref w this in Ok (attrib_ n).

(** [bool Visible() const] *)
Definition Visible (w : World) (this : addr) : result bool :=
  let* n := deref w this in Ok (0 =? Z.land (attrib_ n) SOA_Invisible).

(** [void Visible(bool vis)].  [~SOA_Invisible] is converted to [uint32_t]
    before the conjunction. *)
Fixpoint Visible_set (fuel : nat) (w : World) (this : addr) (vis : bool) : result World :=
  match fuel with
  | O => Fault FuelExhausted
  | S fuel' =>
    let* n := deref w this in
    let attrib :=
      if vis then Z.land (attrib_ n) (u32 (Z.lnot SOA_Invisible))
      else Z.lor (attrib_ n) SOA_Invisible in
    let w := store w this (set_attrib attrib n) in
    foldM (fun w (child : SceneNodePtr) =>
             let* c := nonnull child in Visible_set fuel' w c vis)
          (children_ n) w
  end.

(** ** Selection and passes *)

Definition SelectMode_set (w : World) (this : addr) (select_mode : bool) : result World :=
  let* n := deref w this in
  foldM (fun w renderable => modify_renderable w renderable (set_r_SelectMode select_mode))
        (renderables_ n) w.

Definition ObjectID (w : World) (this : addr) (id : Z) : result World :=
  let* n := deref w this in
  foldM (fun w renderable => modify_renderable w renderable (set_r_ObjectID id))
        (renderables_ n) w.

Definition Pass (fuel : nat) (w : World) (this : addr) (type : PassType) : result World :=
  let* n := deref w this in
  let* w :=
    foldM (fun w renderable => modify_renderable w renderable (set_r_Pass (Some type)))
          (renderables_ n) w in
  let* n := deref w this in
  if Z.land (attrib_ n) SOA_NotCastShadow =? 0 then Ok w
  else Visible_set fuel w this (not_shadow_map_pass type).

(** The common shape of the per-drawable queries:
    [if (renderables_[0]) return renderables_[0]->f(); else return false;] *)
Definition first_renderable_flag (f : Renderable -> bool) (w : World) (this : addr)
    : result bool :=
  let* n := deref w this in
  let* r0 := subscript (renderables_ n) 0 in
  match r0 with
  | Some a => let* d := deref_renderable w a in Ok (f d)
  | None => Ok false
  end.

Definition SelectMode := first_renderable_flag r_SelectMode.
Definition TransparencyBackFace := first_renderable_flag r_TransparencyBackFace.
Definition TransparencyFrontFace := first_renderable_flag r_TransparencyFrontFace.
Definition SSS := first_renderable_flag r_SSS.
Definition Reflection := first_renderable_flag r_Reflection.
Definition SimpleForward := first_renderable_flag r_SimpleForward.
Definition VDM := first_renderable_flag r_VDM.

(** ** Expansion of composite drawables *)

(** [OnAttachRenderable] and the constructor
    [SceneNode(RenderablePtr const &, uint32_t)] call each other; the
    constructor is the block marked below. *)
Fixpoint OnAttachRenderable (fuel : nat) (w : World) (this : addr) (add_to_scene : bool)
    : result World :=
  match fuel with
  | O => Fault FuelExhausted
  | S fuel' =>
    let* n := deref w this in
    foldM (fun w (renderable : RenderablePtr) =>
      match renderable with
      | None => Ok w
      | Some ra =>
        let* d := deref_renderable w ra in
        let num := length (r_Subrenderables d) in
        if (0 <? num)%nat then
          let* n := deref w this in
          let base := length (children_ n) in
          let w := store w this (set_children (children_ n ++ replicate num None) n) in
          foldM (fun w i =>
            let* d := deref_renderable w ra in
            let* sub := subscript (r_Subrenderables d) i in
            let* n := deref w this in
            (* MakeSharedPtr<SceneNode>(renderable->Subrenderable(i), attrib_) *)
            let '(child, w) := alloc w (SceneNode_init (attrib_ n)) in
            let* w := AddRenderable w child sub in
            let* w := OnAttachRenderable fuel' w child false in
            (* end of the constructor *)
            let* w := Parent_set w child (Some this) in
            let* n := deref w this in
            let* cs := assign (children_ n) (base + i) (Some child) in
            let w := store w this (set_children cs n) in
            if add_to_scene then AddToSceneManagerLocked fuel' w child else Ok w)
            (seq 0 num) w
        else Ok w
      end) (renderables_ n) w
  end.

(** [SceneNode(uint32_t attrib)] followed by [MakeSharedPtr]. *)
Definition SceneNode_new (w : World) (attrib : Z) : addr * World :=
  alloc w (SceneNode_init attrib).

(** [SceneNode(std::wstring_view name, uint32_t attrib)] *)
Definition SceneNode_new_named (w : World) (name : wstring) (attrib : Z) : addr * World :=
  alloc w (set_name name (SceneNode_init attrib)).

(** [SceneNode(RenderablePtr const & renderable, uint32_t attrib)] *)
Definition SceneNode_new_renderable (fuel : nat) (w : World) (renderable : RenderablePtr)
    (attrib : Z) : result (addr * World) :=
  let '(this, w) := alloc w (SceneNode_init attrib) in
  let* w := AddRenderable w this renderable in
  let* w := OnAttachRenderable fuel w this false in
  Ok (this, w).

(** [SceneNode(RenderablePtr const &, std::wstring_view name, uint32_t)] *)
Definition SceneNode_new_renderable_named (fuel : nat) (w : World)
    (renderable : RenderablePtr) (name : wstring) (attrib : Z) : result (addr * World) :=
  let* r := SceneNode_new_renderable fuel w renderable attrib in
  let* w := Name_set (snd r) (fst r) name in
  Ok (fst r, w).

(** ** Helper nodes ([SceneNodeHelper.cpp]) *)

(** [MakeSharedPtr<RenderableSkyBox>()]: a fresh address for a new
    drawable. *)
Definition alloc_renderable (w : World) (d : Renderable) : addr * World :=
  let a := fresh (dom (drawables w)) in (a, store_renderable w a d).

(** [SceneObjectSkyBox::SceneObjectSkyBox(uint32_t attrib)]; [skybox] is
    the drawable that [RenderableSkyBox()] constructs. *)
Definition SceneObjectSkyBox_new (fuel : nat) (w : World) (skybox : Renderable)
    (attrib : Z) : result (addr * World) :=
  let '(r, w) := alloc_renderable w skybox in
  SceneNode_new_renderable fuel w (Some r) (Z.lor attrib SOA_NotCastShadow).

(** [v.resize(n)]: cut to [n] elements, or filled up with [x]. *)
Definition resize {A} (v : list A) (n : nat) (x : A) : list A :=
  take n v ++ replicate (n - length v) x.

(** [SceneObjectLightSourceProxy(LightSourcePtr const &, RenderModelPtr const &)].
    [AttachLightSrc] stores the light in the mesh it is called on, which is
    none of the members of a drawable that the scene node reads; of that
    call the model keeps the dereference.  The members [light_] and
    [model_scaling_] of the proxy are left out. *)
Definition SceneObjectLightSourceProxy_new (fuel : nat) (w : World)
    (light_model : RenderablePtr) : result (addr * World) :=
  let* r := SceneNode_new_renderable fuel w light_model
              (Z.lor (Z.lor SOA_Cullable SOA_Moveable) SOA_NotCastShadow) in
  let '(this, w) := r in
  let* m := nonnull light_model in
  let* d := deref_renderable w m in
  let num := length (r_Subrenderables d) in
  let* n := deref w this in
  let w := store w this (set_children (resize (children_ n) num None) n) in
  let* w :=
    foldM (fun w i =>
      let* d := deref_renderable w m in
      let* sub := subscript (r_Subrenderables d) i in
      let* s := nonnull sub in
      let* _ := deref_renderable w s in
      let* n := deref w this in
      let* c := SceneNode_new_renderable fuel w sub (attrib_ n) in
      let '(child, w) := c in
      let* w := Parent_set w child (Some this) in
      let* n := deref w this in
      let* cs := assign (children_ n) i (Some child) in
      Ok (store w this (set_children cs n)))
      (seq 0 num) w in
  Ok (this, w).

(** [SceneObjectCameraProxy(CameraPtr const &, RenderModelPtr const &)] has
    the same body, with [AttachCamera] for [AttachLightSrc]. *)
Definition SceneObjectCameraProxy_new := SceneObjectLightSourceProxy_new.

(** ** Per-frame updates *)

(** The meaning of the bound update functions: what the callable behind a
    handle does to the store when invoked on a node. *)
Variable invoke : callback -> addr -> float -> float -> World -> result World.

Definition BindSubThreadUpdateFunc (w : World) (this : addr) (update_func : option callback)
    : result World :=
  modify w this (set_sub_thread_update_func update_func).

Definition BindMainThreadUpdateFunc (w : World) (this : addr) (update_func : option callback)
    : result World :=
  modify w this (set_main_thread_update_func update_func).

Definition SubThreadUpdate (w : World) (this : addr) (app_time elapsed_time : float)
    : result World :=
  let* n := deref w this in
  match sub_thread_update_func_ n with
  | Some f => invoke f this app_time elapsed_time w
  | None => Ok w
  end.

(** The first loop of [MainThreadUpdate]: one step for index [i]. *)
Definition mark_hw_res_ready (this : addr) (st : bool * World) (i : nat)
    : result (bool * World) :=
  let '(refreshed, w) := st in
  let* n := deref w this in
  let* r := subscript (renderables_ n) i in
  match r with
  | None => Ok (refreshed, w)
  | Some a =>
    let* ready := subscript (renderables_hw_res_ready_ n) i in
    if ready then Ok (refreshed, w)
    else
      let* d := deref_renderable w a in
      if r_HWResourceReady d then
        let* flags := assign (renderables_hw_res_ready_ n) i true in
        Ok (true, store w this (set_hw_res_ready flags n))
      else Ok (refreshed, w)
  end.

Definition MainThreadUpdate (fuel : nat) (w : World) (this : addr)
    (app_time elapsed_time : float) : result (bool * World) :=
  let* n := deref w this in
  let* st := foldM (mark_hw_res_ready this) (seq 0 (length (renderables_ n))) (false, w) in
  let refreshed := fst st in
  let* w :=
    if refreshed then
      let* w := OnAttachRenderable fuel (snd st) this false in
      UpdateAbsModelMatrix fuel w this
    else Ok (snd st) in
  let* n := deref w this in
  let* w :=
    match main_thread_update_func_ n with
    | Some f => invoke f this app_time elapsed_time w
    | None => Ok w
    end in
  Ok (refreshed, w).

End Model.

(** ** A concrete instance of the external capabilities

    Used for the examples: scalars are integers (every coordinate of the
    examples is an integer that [float] represents exactly). *)
Module ZMath.

Definition float3 : Type := Z * Z * Z.
Definition float4x4 : Type := list (list Z).
Record AABBox := mkAABBox { Min : float3; Max : float3 }.

Definition Identity : float4x4 :=
  [[1; 0; 0; 0]; [0; 1; 0; 0]; [0; 0; 1; 0]; [0; 0; 0; 1]].

(** [MathLib::translation(x, y, z)], row-vector convention. *)
Definition translation (x y z : Z) : float4x4 :=
  [[1; 0; 0; 0]; [0; 1; 0; 0]; [0; 0; 1; 0]; [x; y; z; 1]].

Definition dot (u v : list Z) : Z :=
  foldr Z.add 0 (zip_with Z.mul u v).

Definition column (j : nat) (m : float4x4) : list Z :=
  map (fun row => nth j row 0) m.

Definition mat_mul (a b : float4x4) : float4x4 :=
  map (fun row => map (fun j => dot row (column j b)) (seq 0 4)) a.

Definition minimize (u v : float3) : float3 :=
  let '(ux, uy, uz) := u in let '(vx, vy, vz) := v in
  (Z.min ux vx, Z.min uy vy, Z.min uz vz).

Definition maximize (u v : float3) : float3 :=
  let '(ux, uy, uz) := u in let '(vx, vy, vz) := v in
  (Z.max ux vx, Z.max uy vy, Z.max uz vz).

Definition aabb_union (a b : AABBox) : AABBox :=
  mkAABBox (minimize (Min a) (Min b)) (maximize (Max a) (Max b)).

(** The point [v] as a row vector, times the affine matrix [m]. *)
Definition transform_coord (v : float3) (m : float4x4) : float3 :=
  let '(x, y, z) := v in
  let r := [x; y; z; 1] in
  (dot r (column 0 m), dot r (column 1 m), dot r (column 2 m)).

Definition corners (b : AABBox) : list float3 :=
  let '(x0, y0, z0) := Min b in
  let '(x1, y1, z1) := Max b in
  [(x0, y0, z0); (x1, y0, z0); (x0, y1, z0); (x1, y1, z0);
   (x0, y0, z1); (x1, y0, z1); (x0, y1, z1); (x1, y1, z1)].

(** Modelled from the spec: [MathLib::transform_aabb] (KFL is not part of
    the sources) gives the box of the transformed corners; section 8 uses
    it with the identity matrix, which returns the box itself. *)
Definition transform_aabb (b : AABBox) (m : float4x4) : AABBox :=
  match map (fun c => transform_coord c m) (corners b) with
  | [] => b
  | c :: cs => mkAABBox (foldl minimize c cs) (foldl maximize c cs)
  end.

(** The cube [[lo, hi]^3]. *)
Definition cube (lo hi : Z) : AABBox := mkAABBox (lo, lo, lo) (hi, hi, hi).

#[export] Instance math : MathLib := {|
  KlayGE.float := Z;
  KlayGE.float4x4 := float4x4;
  KlayGE.AABBox := AABBox;
  KlayGE.PassType := bool;
  KlayGE.Identity := Identity;
  KlayGE.mat_mul := mat_mul;
  KlayGE.AABBox_default := cube 0 0;
  KlayGE.aabb_union := aabb_union;
  KlayGE.transform_aabb := transform_aabb;
  KlayGE.not_shadow_map_pass := negb |}.

End ZMath.

(** * Specification-level notions *)

Section Notions.
Context {ML : MathLib}.

(** ** Trees laid out in the store *)

(** A tree of addresses: the hierarchy below a node, as section 3 of the
    specification sees it. *)
#[warnings="-register-all"]
Inductive tree := Tree (a : addr) (kids : list tree).

Definition root (t : tree) : addr := let 'Tree a _ := t in a.

Fixpoint height (t : tree) : nat :=
  let 'Tree _ kids := t in S (max_list (map height kids)).

(** Depth-first pre-order. *)
Fixpoint preorder (t : tree) : list addr :=
  let 'Tree a kids := t in a :: concat (map preorder kids).

(** The strict descendants of the root. *)
Definition descendants (t : tree) : list addr :=
  let 'Tree _ kids := t in concat (map preorder kids).

(** [shape w t]: the child vectors of the store spell out [t]. *)
#[warnings="-register-all"]
Inductive shape (w : World) : tree -> Prop :=
| shape_node a kids n :
    nodes w !! a = Some n ->
    children_ n = map (fun k => Some (root k)) kids ->
    Forall (shape w) kids ->
    shape w (Tree a kids).

(** [name_ == name] for the node at [a]. *)
Definition named (w : World) (name : wstring) (a : addr) : bool :=
  match nodes w !! a with
  | Some n => bool_decide (name_ n = name)
  | None => false
  end.

(** ** Invariants and footprints *)

(** [o] holds an object: a non-null [unique_ptr]. *)
Definition present {A} (o : option A) : bool :=
  match o with Some _ => true | None => false end.

(** The readiness flags and the drawables have the same length. *)
Definition lock_step (n : SceneNode) : Prop :=
  length (renderables_hw_res_ready_ n) = length (renderables_ n).

(** The node has its two boxes exactly when its attributes ask for them. *)
Definition bound_presence (n : SceneNode) : Prop :=
  present (pos_aabb_os_ n) = tracks_bound (attrib_ n)
  /\ present (pos_aabb_ws_ n) = tracks_bound (attrib_ n).

Definition uint32 (z : Z) : Prop := 0 <= z < 2 ^ 32.

(** [x] is [a] up to the [SOA_Invisible] bit. *)
Definition attrib_kept (a x : Z) : Prop :=
  (forall i, 0 <= i < 32 -> i <> 3 -> Z.testbit x i = Z.testbit a i)
  /\ (uint32 a -> uint32 x).

(** What a drawable reports about itself: everything but the state behind
    its setters. *)
Definition same_reports (d d' : Renderable) : Prop :=
  r_PosBound d' = r_PosBound d
  /\ r_HWResourceReady d' = r_HWResourceReady d
  /\ r_Subrenderables d' = r_Subrenderables d
  /\ r_TransparencyBackFace d' = r_TransparencyBackFace d
  /\ r_TransparencyFrontFace d' = r_TransparencyFrontFace d
  /\ r_SSS d' = r_SSS d
  /\ r_Reflection d' = r_Reflection d
  /\ r_SimpleForward d' = r_SimpleForward d
  /\ r_VDM d' = r_VDM d.

(** [evolves Q P D w w']: every node of [w] is still there in [w'], changed
    at most as [Q] allows; every node that is new in [w'] satisfies [P];
    the drawables are the same objects, changed at most as [D] allows. *)
Definition evolves (Q : SceneNode -> SceneNode -> Prop) (P : SceneNode -> Prop)
    (D : Renderable -> Renderable -> Prop) (w w' : World) : Prop :=
  (forall a n, nodes w !! a = Some n -> exists n', nodes w' !! a = Some n' /\ Q n n')
  /\ (forall a n', nodes w' !! a = Some n' -> nodes w !! a = None -> P n')
  /\ (forall r d, drawables w !! r = Some d ->
                  exists d', drawables w' !! r = Some d' /\ D d d')
  /\ (forall r, drawables w !! r = None -> drawables w' !! r = None).

(** The conditions under which [evolves Q P D] composes. *)
Class Footprint (Q : SceneNode -> SceneNode -> Prop) (P : SceneNode -> Prop)
    (D : Renderable -> Renderable -> Prop) : Prop := {
  fp_Q_refl : forall n, Q n n;
  fp_Q_trans : forall n1 n2 n3, Q n1 n2 -> Q n2 n3 -> Q n1 n3;
  fp_P_closed : forall n n', P n -> Q n n' -> P n';
  fp_D_refl : forall d, D d d;
  fp_D_trans : forall d1 d2 d3, D d1 d2 -> D d2 d3 -> D d1 d3;
}.

(** [UpdatePosBound]: the local box, and the dirty flag, which it only
    clears. *)
Definition Q_bound (n n' : SceneNode) : Prop :=
  exists o d,
    n' = set_pos_aabb_dirty d (set_pos_aabb_os o n)
    /\ present o = present (pos_aabb_os_ n)
    /\ (pos_aabb_dirty_ n = false -> d = false).

(** [UpdateAbsModelMatrix]: the world matrix, the two boxes, the flag. *)
Definition Q_geometry (n n' : SceneNode) : Prop :=
  exists m o ws d,
    n' = set_abs_model m (set_pos_aabb_ws ws (set_pos_aabb_dirty d (set_pos_aabb_os o n)))
    /\ present o = present (pos_aabb_os_ n)
    /\ present ws = present (pos_aabb_ws_ n).

(** [OnAttachRenderable]: the child vector and the parent pointer. *)
Definition Q_hierarchy (n n' : SceneNode) : Prop :=
  exists cs p, n' = set_parent p (set_children cs n).

(** [Visible(bool)]: the [SOA_Invisible] bit. *)
Definition Q_attrib (n n' : SceneNode) : Prop :=
  exists x, n' = set_attrib x n /\ attrib_kept (attrib_ n) x.

(** The drawables and their readiness flags stay as they are. *)
Definition Q_readiness (n n' : SceneNode) : Prop :=
  renderables_ n' = renderables_ n
  /\ renderables_hw_res_ready_ n' = renderables_hw_res_ready_ n.

(** What every operation of the interface keeps of a node. *)
Definition Q_api (n n' : SceneNode) : Prop :=
  (lock_step n -> lock_step n')
  /\ present (pos_aabb_os_ n') = present (pos_aabb_os_ n)
  /\ present (pos_aabb_ws_ n') = present (pos_aabb_ws_ n)
  /\ tracks_bound (attrib_ n') = tracks_bound (attrib_ n).

(** What every operation of the interface establishes for a new node. *)
Definition P_api (n : SceneNode) : Prop :=
  lock_step n /\ bound_presence n.

Definition no_node (n : SceneNode) : Prop := False.
Definition any_node (n : SceneNode) : Prop := True.

(** ** The interface as a step function *)

(** The constructors and the mutating member functions of [SceneNode]; the
    [const] member functions leave the store alone. *)
Inductive Op :=
| Op_new (attrib : Z)
| Op_new_named (name : wstring) (attrib : Z)
| Op_new_renderable (renderable : RenderablePtr) (attrib : Z)
| Op_new_renderable_named (renderable : RenderablePtr) (name : wstring) (attrib : Z)
| Op_Name (this : addr) (name : wstring)
| Op_Parent (this : addr) (so : option addr)
| Op_AddChild (this : addr) (node : SceneNodePtr)
| Op_RemoveChild (this : addr) (node : SceneNodePtr)
| Op_ClearChildren (this : addr)
| Op_AddRenderable (this : addr) (renderable : RenderablePtr)
| Op_DelRenderable (this : addr) (renderable : RenderablePtr)
| Op_ModelMatrix (this : addr) (mat : float4x4)
| Op_UpdateAbsModelMatrix (this : addr)
| Op_VisibleMark (this : addr) (vm : BoundOverlap)
| Op_OnAttachRenderable (this : addr) (add_to_scene : bool)
| Op_AddToSceneManager (this : addr)
| Op_DelFromSceneManager (this : addr)
| Op_BindSubThreadUpdateFunc (this : addr) (update_func : option callback)
| Op_BindMainThreadUpdateFunc (this : addr) (update_func : option callback)
| Op_SubThreadUpdate (this : addr) (app_time elapsed_time : float)
| Op_MainThreadUpdate (this : addr) (app_time elapsed_time : float)
| Op_Visible (this : addr) (vis : bool)
| Op_SelectMode (this : addr) (select_mode : bool)
| Op_ObjectID (this : addr) (id : Z)
| Op_Pass (this : addr) (type : PassType).

Definition exec (invoke : callback -> addr -> float -> float -> World -> result World)
    (fuel : nat) (op : Op) (w : World) : result World :=
  match op with
  | Op_new attrib => Ok (SceneNode_new w attrib).2
  | Op_new_named name attrib => Ok (SceneNode_new_named w name attrib).2
  | Op_new_renderable renderable attrib =>
    let* r := SceneNode_new_renderable fuel w renderable attrib in Ok r.2
  | Op_new_renderable_named renderable name attrib =>
    let* r := SceneNode_new_renderable_named fuel w renderable name attrib in Ok r.2
  | Op_Name this name => Name_set w this name
  | Op_Parent this so => Parent_set w this so
  | Op_AddChild this node => AddChild w this node
  | Op_RemoveChild this node => RemoveChild w this node
  | Op_ClearChildren this => ClearChildren w this
  | Op_AddRenderable this renderable => AddRenderable w this renderable
  | Op_DelRenderable this renderable => DelRenderable w this renderable
  | Op_ModelMatrix this mat => ModelMatrix_set w this mat
  | Op_UpdateAbsModelMatrix this => UpdateAbsModelMatrix fuel w this
  | Op_VisibleMark this vm => VisibleMark_set w this vm
  | Op_OnAttachRenderable this add_to_scene => OnAttachRenderable fuel w this add_to_scene
  | Op_AddToSceneManager this => AddToSceneManager fuel w this
  | Op_DelFromSceneManager this => DelFromSceneManager fuel w this
  | Op_BindSubThreadUpdateFunc this f => BindSubThreadUpdateFunc w this f
  | Op_BindMainThreadUpdateFunc this f => BindMainThreadUpdateFunc w this f
  | Op_SubThreadUpdate this app_time elapsed_time =>
    SubThreadUpdate invoke w this app_time elapsed_time
  | Op_MainThreadUpdate this app_time elapsed_time =>
    let* r := MainThreadUpdate invoke fuel w this app_time elapsed_time in Ok r.2
  | Op_Visible this vis => Visible_set fuel w this vis
  | Op_SelectMode this select_mode => SelectMode_set w this select_mode
  | Op_ObjectID this id => ObjectID w this id
  | Op_Pass this type => Pass fuel w this type
  end.

(** The update functions act on the store through the interface. *)
Definition callbacks_use_interface
    (invoke : callback -> addr -> float -> float -> World -> result World) : Prop :=
  forall f this app_time elapsed_time w w',
    invoke f this app_time elapsed_time w = Ok w' ->
    evolves Q_api P_api same_reports w w'.

(** ** Bounds *)

(** [renderable] points to a drawable of the store. *)
Definition valid_renderable (w : World) (renderable : RenderablePtr) : Prop :=
  exists a d, renderable = Some a /\ drawables w !! a = Some d.

(** [UpdatePosBound] at [a] stays within the vectors: a dirty node that
    tracks a bound has a first drawable, and its drawables are in the
    store. *)
Definition bound_computable (w : World) (a : addr) : Prop :=
  forall n,
    nodes w !! a = Some n ->
    pos_aabb_dirty_ n = true -> present (pos_aabb_os_ n) = true ->
    renderables_ n <> [] /\ Forall (valid_renderable w) (renderables_ n).

(** The local-space boxes of the drawables of a list. *)
Definition drawable_bounds (w : World) (rs : list RenderablePtr) : list AABBox :=
  omap (fun r : RenderablePtr => r ≫= fun a => r_PosBound <$> drawables w !! a) rs.

(** The local-space boxes of those nodes of a list that track a bound. *)
Definition node_bounds (w : World) (cs : list SceneNodePtr) : list AABBox :=
  omap (fun c : SceneNodePtr => c ≫= fun a => nodes w !! a ≫= pos_aabb_os_) cs.

(** The union of the boxes of the own drawables and of the local-space
    boxes of the children that track a bound. *)
Definition union_of_own_and_child_bounds (w : World) (n : SceneNode) : option AABBox :=
  match drawable_bounds w (renderables_ n) with
  | b0 :: bs => Some (foldl aabb_union b0 (bs ++ node_bounds w (children_ n)))
  | [] => None
  end.

(** The node at [a] has [SOA_Cullable]. *)
Definition cullable (w : World) (a : addr) : bool :=
  match nodes w !! a with
  | Some n => negb (Z.land (attrib_ n) SOA_Cullable =? 0)
  | None => false
  end.

(** The bound as section 3 of the specification words it: the union of the
    boxes of the own drawables and of the bounds of all cullable
    descendants. *)
Definition union_of_own_and_cullable_descendant_bounds (w : World) (t : tree)
    : option AABBox :=
  match nodes w !! root t with
  | Some n =>
    match drawable_bounds w (renderables_ n) with
    | b0 :: bs =>
      Some (foldl aabb_union b0
              (bs ++ node_bounds w (map Some (List.filter (cullable w) (descendants t)))))
    | [] => None
    end
  | None => None
  end.

(** The node [n] once [UpdatePosBound] has dealt with it, in the store [w']
    that the call leaves: a clean node is as it was; a dirty node has its
    flag cleared, and if it tracks a bound its local-space box is the union
    of the boxes of its drawables and of its bound-tracking children as
    they are in [w']. *)
Definition bound_after (w' : World) (n : SceneNode) : SceneNode :=
  if pos_aabb_dirty_ n then
    set_pos_aabb_dirty false
      (if present (pos_aabb_os_ n)
       then set_pos_aabb_os (union_of_own_and_child_bounds w' n) n
       else n)
  else n.

(** No child of [n] that tracks a bound is marked dirty in [w']. *)
Definition children_bounds_clean (w' : World) (n : SceneNode) : Prop :=
  forall c cn, Some c ∈ children_ n -> nodes w' !! c = Some cn ->
    present (pos_aabb_os_ cn) = true -> pos_aabb_dirty_ cn = false.

(** From [w] to [w'] the node at [x] is untouched, or it was dirty and
    tracked a bound and has been recomputed, its bound-tracking children
    before it. *)
Definition bound_recomputed (w w' : World) (x : addr) : Prop :=
  forall m, nodes w !! x = Some m ->
    nodes w' !! x = Some m
    \/ (pos_aabb_dirty_ m = true /\ present (pos_aabb_os_ m) = true
        /\ nodes w' !! x = Some (bound_after w' m)
        /\ children_bounds_clean w' m).

(** What [UpdatePosBound] does on a tree, node by node. *)
Definition UpdatePosBound_recomputes (fuel : nat) (t : tree) : Prop :=
  forall w,
    shape w t -> (forall a, a ∈ preorder t -> bound_computable w a) ->
    exists w',
      UpdatePosBound fuel w (root t) = Ok w'
      /\ drawables w' = drawables w
      /\ (forall a, a ∉ preorder t -> nodes w' !! a = nodes w !! a)
      /\ (forall n, nodes w !! root t = Some n ->
            nodes w' !! root t = Some (bound_after w' n)
            /\ (pos_aabb_dirty_ n = true -> present (pos_aabb_os_ n) = true ->
                children_bounds_clean w' n))
      /\ (forall x, x <> root t -> bound_recomputed w w' x).

(** What [Visible(vis)] does on a tree: it returns, every node of the tree
    shows [vis], and the nodes outside the tree are untouched. *)
Definition Visible_set_on (fuel : nat) (vis : bool) (t : tree) : Prop :=
  forall w, shape w t ->
    exists w',
      Visible_set fuel w (root t) vis = Ok w'
      /\ (forall a, a ∈ preorder t -> Visible w' a = Ok vis)
      /\ (forall a, a ∉ preorder t -> nodes w' !! a = nodes w !! a).

(** The bound-dirty flag of the node at [this]. *)
Definition bound_dirty (w : World) (this : addr) : option bool :=
  pos_aabb_dirty_ <$> nodes w !! this.

(** ** Hardware readiness *)

(** The drawable behind [renderable] reports its hardware resources
    ready. *)
Definition reports_ready (w : World) (renderable : RenderablePtr) : bool :=
  match renderable with
  | Some a =>
    match drawables w !! a with
    | Some d => r_HWResourceReady d
    | None => false
    end
  | None => false
  end.

(** Drawable [i] of the node was not marked ready and now reports ready. *)
Definition becomes_ready (w : World) (n : SceneNode) (i : nat) : Prop :=
  exists r,
    renderables_ n !! i = Some r
    /\ renderables_hw_res_ready_ n !! i = Some false
    /\ reports_ready w r = true.

(** [MainThreadUpdate] after its first loop, when the loop has left
    [refreshed] and the store [w]. *)
Definition MainThreadUpdate_after_loop
    (invoke : callback -> addr -> float -> float -> World -> result World)
    (fuel : nat) (refreshed : bool) (w : World) (this : addr)
    (app_time elapsed_time : float) : result (bool * World) :=
  let* w :=
    if refreshed then
      let* w := OnAttachRenderable fuel w this false in
      UpdateAbsModelMatrix fuel w this
    else Ok w in
  let* n := deref w this in
  let* w :=
    match main_thread_update_func_ n with
    | Some f => invoke f this app_time elapsed_time w
    | None => Ok w
    end in
  Ok (refreshed, w).

(** The update functions leave the drawable lists, the readiness flags and
    the reports of the drawables alone. *)
Definition callbacks_keep_readiness
    (invoke : callback -> addr -> float -> float -> World -> result World) : Prop :=
  forall f this app_time elapsed_time w w',
    invoke f this app_time elapsed_time w = Ok w' ->
    evolves Q_readiness any_node same_reports w w'.

(** ** Notions for the remaining member functions *)

(** [node] points into the tree [t]. *)
Definition in_subtree (t : tree) (node : option addr) : bool :=
  match node with
  | Some a => bool_decide (a ∈ preorder t)
  | None => false
  end.

(** The node at [this] has [child] among its children. *)
Definition has_child (this : addr) (child : SceneNodePtr) (w : World) : Prop :=
  exists n, nodes w !! this = Some n /\ child ∈ children_ n.

(** Depth-first post-order. *)
Fixpoint postorder (t : tree) : list addr :=
  let 'Tree a kids := t in concat (map postorder kids) ++ [a].

(** The list after [std::find] and [erase] of what it found. *)
Definition erase_first {A} `{EqDecision A} (x : A) (v : list A) : list A :=
  match find_index x v with
  | Some i => delete i v
  | None => v
  end.

(** The attribute word after [Visible(vis)]. *)
Definition shown (vis : bool) (attrib : Z) : Z :=
  if vis then Z.land attrib (u32 (Z.lnot SOA_Invisible))
  else Z.lor attrib SOA_Invisible.

(** The node after [Visible(vis)] has reached it. *)
Definition reached (vis : bool) (n : SceneNode) : SceneNode :=
  set_attrib (shown vis (attrib_ n)) n.

(** [w'] is [w] with [Visible(vis)] done on the nodes of [l]. *)
Definition reached_on (vis : bool) (l : list addr) (w w' : World) : Prop :=
  drawables w' = drawables w
  /\ scene_nodes_ w' = scene_nodes_ w
  /\ forall a, nodes w' !! a
               = if bool_decide (a ∈ l) then reached vis <$> nodes w !! a
                 else nodes w !! a.

(** The sub-drawables of the drawables of a list, in order. *)
Definition subdrawables (w : World) (rs : list RenderablePtr) : list RenderablePtr :=
  concat (map (fun r : RenderablePtr =>
                 match r ≫= fun a => drawables w !! a with
                 | Some d => r_Subrenderables d
                 | None => []
                 end) rs).

(** [sub] is null or a drawable without sub-drawables. *)
Definition leaf_drawable (w : World) (sub : RenderablePtr) : Prop :=
  match sub with
  | Some a => exists d, drawables w !! a = Some d /\ r_Subrenderables d = []
  | None => True
  end.

(** [sub] is a drawable without sub-drawables. *)
Definition mesh (w : World) (sub : RenderablePtr) : Prop :=
  exists a ds, sub = Some a /\ drawables w !! a = Some ds /\ r_Subrenderables ds = [].

(** The node that [OnAttachRenderable] creates below [this] for the
    sub-drawable [sub] without sub-drawables of its own. *)
Definition attached_child (this : addr) (attrib : Z) (sub : RenderablePtr) : SceneNode :=
  set_parent (Some this)
    (set_pos_aabb_dirty true
       (set_hw_res_ready [false]
          (set_renderables [sub] (SceneNode_init attrib)))).

(** [w'] is [w] after the nodes [cs] have been created below [this] for the
    sub-drawables [subs]; [tail] is the rest of the child vector, still to
    be assigned. *)
Definition attached (w : World) (this : addr) (n : SceneNode) (add_to_scene : bool)
    (cs : list addr) (subs : list RenderablePtr) (tail : list SceneNodePtr)
    (w' : World) : Prop :=
  length cs = length subs
  /\ NoDup cs
  /\ (forall c, c ∈ cs -> nodes w !! c = None)
  /\ nodes w' !! this
     = Some (set_children (children_ n ++ map Some cs ++ tail) n)
  /\ (forall i c sub, cs !! i = Some c -> subs !! i = Some sub ->
        nodes w' !! c = Some (attached_child this (attrib_ n) sub))
  /\ (forall a, a <> this -> a ∉ cs -> nodes w' !! a = nodes w !! a)
  /\ drawables w' = drawables w
  /\ scene_nodes_ w'
     = scene_nodes_ w ++ (if add_to_scene then map Some cs else []).

(** The update functions return. *)
Definition callbacks_return
    (invoke : callback -> addr -> float -> float -> World -> result World) : Prop :=
  forall f this app_time elapsed_time w,
    exists w', invoke f this app_time elapsed_time w = Ok w'.

(** The seven per-drawable queries, each with the member function of the
    drawable that it forwards to. *)
Definition flag_queries : list ((World -> addr -> result bool) * (Renderable -> bool)) :=
  [ (SelectMode, r_SelectMode);
    (TransparencyBackFace, r_TransparencyBackFace);
    (TransparencyFrontFace, r_TransparencyFrontFace);
    (SSS, r_SSS);
    (Reflection, r_Reflection);
    (SimpleForward, r_SimpleForward);
    (VDM, r_VDM) ].

End Notions.

(** Proves [shape w t] for a closed store and tree by evaluation. *)
Ltac solve_shape :=
  repeat match goal with
         | |- Forall _ _ => constructor
         | |- shape _ _ =>
           eapply shape_node; [vm_compute; reflexivity | reflexivity | ]
         end.

(** * Example scenes *)

Module Examples.
Import ZMath.

Definition empty_world : World := mkWorld ∅ ∅ [].

(** [L"A"] and [L"B"]. *)
Definition name_A : wstring := [65%N].
Definition name_B : wstring := [66%N].

(** Three nodes named A, B, A in a chain: A at the root, B below it, A
    below B. *)
Definition scene_ABA : result World :=
  let '(a1, w) := SceneNode_new_named empty_world name_A 0 in
  let '(b, w) := SceneNode_new_named w name_B 0 in
  let '(a2, w) := SceneNode_new_named w name_A 0 in
  let* w := AddChild w a1 (Some b) in
  let* w := Parent_set w b (Some a1) in
  let* w := AddChild w b (Some a2) in
  Parent_set w a2 (Some b).

Definition world_ABA : World :=
  match scene_ABA with Ok w => w | Fault _ => empty_world end.

Definition tree_ABA : tree :=
  Tree 1%positive [Tree 2%positive [Tree 3%positive []]].

(** A chain of three nodes, each translated by one unit along its own
    axis: grandparent 1, parent 2, child 3. *)
Definition scene_chain : result World :=
  let '(g, w) := SceneNode_new empty_world 0 in
  let '(p, w) := SceneNode_new w 0 in
  let '(c, w) := SceneNode_new w 0 in
  let* w := ModelMatrix_set w g (translation 1 0 0) in
  let* w := ModelMatrix_set w p (translation 0 1 0) in
  let* w := ModelMatrix_set w c (translation 0 0 1) in
  let* w := AddChild w g (Some p) in
  let* w := Parent_set w p (Some g) in
  let* w := AddChild w p (Some c) in
  Parent_set w c (Some p).

(** Propagation from the root downwards. *)
Definition propagate_chain : result World :=
  let* w := scene_chain in
  let* w := UpdateAbsModelMatrix 1 w 1%positive in
  let* w := UpdateAbsModelMatrix 1 w 2%positive in
  UpdateAbsModelMatrix 1 w 3%positive.

(** Node 1 of [world_ABA] has the single child 2. *)
Definition node_3 : SceneNodePtr := Some 3%positive.

(** A drawable that reports the box [b], the readiness [ready] and the
    sub-drawables [subs], and nothing else. *)
Definition drawable (b : AABBox) (ready : bool) (subs : list RenderablePtr) : Renderable :=
  mkRenderable b ready subs false false false false false false Identity false 0 None.

(** No node; drawable 1 reports [b1], drawable 2 reports [b2]. *)
Definition world_of_drawables (b1 b2 : AABBox) : World :=
  mkWorld ∅ (<[1%positive := drawable b1 true []]>
               (<[2%positive := drawable b2 true []]> ∅)) [].

(** A cullable node 1 with the box [[-1,1]^3] and below it a cullable
    node 2 with the box [[0,2]^3]. *)
Definition scene_parent_child : result World :=
  let w := world_of_drawables (cube (-1) 1) (cube 0 2) in
  let* p := SceneNode_new_renderable 1 w (Some 1%positive) SOA_Cullable in
  let* c := SceneNode_new_renderable 1 p.2 (Some 2%positive) SOA_Cullable in
  let* w := AddChild c.2 p.1 (Some c.1) in
  Parent_set w c.1 (Some p.1).

Definition world_parent_child : World :=
  match scene_parent_child with Ok w => w | Fault _ => empty_world end.

Definition tree_parent_child : tree := Tree 1%positive [Tree 2%positive []].

(** A cullable node 1 with the box [[0,1]^3]; below it node 2 without any
    attribute; below node 2 the cullable node 3 with the box [[5,6]^3]. *)
Definition scene_hidden_descendant : result World :=
  let w := world_of_drawables (cube 0 1) (cube 5 6) in
  let* n := SceneNode_new_renderable 1 w (Some 1%positive) SOA_Cullable in
  let a := SceneNode_new n.2 0 in
  let* b := SceneNode_new_renderable 1 a.2 (Some 2%positive) SOA_Cullable in
  let* w := AddChild b.2 n.1 (Some a.1) in
  let* w := Parent_set w a.1 (Some n.1) in
  let* w := AddChild w a.1 (Some b.1) in
  Parent_set w b.1 (Some a.1).

Definition tree_hidden_descendant : tree :=
  Tree 1%positive [Tree 2%positive [Tree 3%positive []]].

(** The bound of node 3 is computed first, then the bound of node 1. *)
Definition recompute_hidden_descendant : result World :=
  let* w := scene_hidden_descendant in
  let* w := UpdateAbsModelMatrix 1 w 3%positive in
  UpdatePosBound 2 w 1%positive.

(** Update functions that do nothing. *)
Definition no_callbacks (f : callback) (this : addr) (app_time elapsed_time : Z)
    (w : World) : result World := Ok w.

(** The scenario of section 8: a cullable root, two drawables [d1] and
    [d2] attached to it, propagation; the result is the world-space bound
    of the root. *)
Definition scene_two_boxes (d1 d2 : Renderable) : result AABBox :=
  let w := mkWorld ∅ (<[1%positive := d1]> (<[2%positive := d2]> ∅)) [] in
  let '(this, w) := SceneNode_new w SOA_Cullable in
  let* w := AddRenderable w this (Some 1%positive) in
  let* w := AddRenderable w this (Some 2%positive) in
  let* w := UpdateAbsModelMatrix 1 w this in
  PosBoundWS w this.

(** A cullable node 1 whose drawable 1 reports ready and has the
    sub-drawable 2. *)
Definition scene_composite : result World :=
  let w := mkWorld ∅ (<[1%positive := drawable (cube 0 1) true [Some 2%positive]]>
                        (<[2%positive := drawable (cube 0 2) true []]> ∅)) [] in
  let '(this, w) := SceneNode_new w SOA_Cullable in
  AddRenderable w this (Some 1%positive).

Definition world_composite : World :=
  match scene_composite with Ok w => w | Fault _ => empty_world end.

Definition node_composite : SceneNode :=
  default (SceneNode_init 0) (nodes world_composite !! 1%positive).

(** Two calls of [MainThreadUpdate] in a row: what each returns, and the
    number of children after each. *)
Definition MainThreadUpdate_twice : result (bool * nat * bool * nat) :=
  let* r1 := MainThreadUpdate no_callbacks 2 world_composite 1%positive 0 0 in
  let* c1 := Children r1.2 1%positive in
  let* r2 := MainThreadUpdate no_callbacks 2 r1.2 1%positive 0 0 in
  let* c2 := Children r2.2 1%positive in
  Ok (r1.1, length c1, r2.1, length c2).

(** The nodes of the example scenes. *)
Definition node_ABA (a : addr) : SceneNode :=
  default (SceneNode_init 0) (nodes world_ABA !! a).

Definition node_parent_child (a : addr) : SceneNode :=
  default (SceneNode_init 0) (nodes world_parent_child !! a).

(** The scene of parent and child after propagation at the parent: the
    bound of the parent is up to date. *)
Definition world_propagated : World :=
  match UpdateAbsModelMatrix 2 world_parent_child 1%positive with
  | Ok w => w
  | Fault _ => empty_world
  end.

Definition node_propagated (a : addr) : SceneNode :=
  default (SceneNode_init 0) (nodes world_propagated !! a).

(** The scene of parent and child after [UpdatePosBound] at the parent. *)
Definition world_recomputed : World :=
  match UpdatePosBound 2 world_parent_child 1%positive with
  | Ok w => w
  | Fault _ => empty_world
  end.

Definition node_recomputed (a : addr) : SceneNode :=
  default (SceneNode_init 0) (nodes world_recomputed !! a).

(** The scene of parent and child after the child has lost its only
    drawable. *)
Definition world_child_emptied : World :=
  match DelRenderable world_parent_child 2%positive (Some 2%positive) with
  | Ok w => w
  | Fault _ => empty_world
  end.

(** Drawable 1 has subsurface scattering and no displacement mapping,
    drawable 2 the other way round. *)
Definition skin : Renderable :=
  mkRenderable (cube 0 1) true [] false false true false false false Identity false 0 None.

Definition terrain : Renderable :=
  mkRenderable (cube 0 2) true [] false false false false false true Identity false 0 None.

Definition world_skin_terrain : World :=
  mkWorld ∅ (<[1%positive := skin]> (<[2%positive := terrain]> ∅)) [].

(** Node 1 without attribute and without drawable. *)
Definition world_bare : World := (SceneNode_new world_skin_terrain 0).2.

(** Node 1 with the drawable [skin]. *)
Definition world_skinned : World :=
  match AddRenderable world_bare 1%positive (Some 1%positive) with
  | Ok w => w
  | Fault _ => empty_world
  end.

Definition node_bare : SceneNode :=
  default (SceneNode_init 0) (nodes world_bare !! 1%positive).

Definition node_skinned : SceneNode :=
  default (SceneNode_init 0) (nodes world_skinned !! 1%positive).

(** A root that casts no shadow, with a cullable child. *)
Definition scene_shadowless : result World :=
  let w := world_of_drawables (cube (-1) 1) (cube 0 2) in
  let* p := SceneNode_new_renderable 1 w (Some 1%positive)
              (Z.lor SOA_Cullable SOA_NotCastShadow) in
  let* c := SceneNode_new_renderable 1 p.2 (Some 2%positive) SOA_Cullable in
  let* w := AddChild c.2 p.1 (Some c.1) in
  Parent_set w c.1 (Some p.1).

Definition world_shadowless : World :=
  match scene_shadowless with Ok w => w | Fault _ => empty_world end.

Definition node_shadowless (a : addr) : SceneNode :=
  default (SceneNode_init 0) (nodes world_shadowless !! a).

(** The scene without shadow after a shadow-map pass. *)
Definition world_shadow_pass : World :=
  match Pass 2 world_shadowless 1%positive true with
  | Ok w => w
  | Fault _ => empty_world
  end.

Definition node_shadow_pass (a : addr) : SceneNode :=
  default (SceneNode_init 0) (nodes world_shadow_pass !! a).

End Examples.

(** * Properties *)

(** ** The result monad *)

Lemma bind_Ok {A B} (m : result A) (k : A -> result B) (b : B) :
  bind m k = Ok b -> exists a, m = Ok a /\ k a = Ok b.
Proof. destruct m as [a|f]; simpl; [eauto | discriminate]. Qed.

(** Splits a hypothesis [bind m k = Ok b] into its two steps. *)
Tactic Notation "inv_bind" hyp(H) "as" ident(x) ident(Hx) :=
  apply bind_Ok in H as (x & Hx & H).

(** ** Lookup by name *)

Section FindNode.
Context {ML : MathLib}.

Lemma shape_inv w a kids :
  shape w (Tree a kids) ->
  exists n, nodes w !! a = Some n /\
            children_ n = map (fun k => Some (root k)) kids /\
            Forall (shape w) kids.
Proof. inversion 1; subst; eauto. Qed.

Lemma height_kids a kids k :
  k ∈ kids -> (height k < height (Tree a kids))%nat.
Proof.
  intros Hin. simpl.
  assert (height k ≤ max_list (map height kids))%nat; [|lia].
  apply max_list_elem_of_le, list_elem_of_fmap. eauto.
Qed.

Lemma FindAllNode_into_kids fuel w name kids :
  (forall k, k ∈ kids -> forall found,
      FindAllNode_into fuel w (root k) found name
      = Ok (found ++ List.filter (named w name) (preorder k))) ->
  forall found,
    foldM (fun found (child : SceneNodePtr) =>
             let* c := nonnull child in FindAllNode_into fuel w c found name)
          (map (fun k => Some (root k)) kids) found
    = Ok (found ++ List.filter (named w name) (concat (map preorder kids))).
Proof.
  induction kids as [|k kids IH]; intros Hk found; simpl.
  - by rewrite app_nil_r.
  - rewrite Hk by left. simpl. rewrite IH.
    + by rewrite List.filter_app, app_assoc.
    + intros k' Hin. apply Hk. by right.
Qed.

Lemma FindAllNode_into_preorder fuel w name :
  forall t found,
    shape w t -> (height t <= fuel)%nat ->
    FindAllNode_into fuel w (root t) found name
    = Ok (found ++ List.filter (named w name) (preorder t)).
Proof.
  induction fuel as [|fuel IH]; intros [a kids] found Hs Hh.
  - simpl in Hh. lia.
  - apply shape_inv in Hs as (n & Hn & Hc & Hkids).
    cbn [FindAllNode_into root]. unfold deref. rewrite Hn. cbn [bind].
    rewrite Hc, FindAllNode_into_kids.
    + cbn [preorder List.filter]. unfold named at 2. rewrite Hn.
      destruct (bool_decide (name_ n = name)); [|done].
      by rewrite <- app_assoc.
    + intros k Hin found'. apply IH.
      * rewrite Forall_forall in Hkids. auto.
      * pose proof (height_kids a kids k Hin). lia.
Qed.

Lemma first_found_kids fuel w name kids :
  (forall k, k ∈ kids ->
      FindFirstNode fuel w (root k) name
      = Ok (head (List.filter (named w name) (preorder k)))) ->
  first_found (fun child : SceneNodePtr =>
                 let* c := nonnull child in FindFirstNode fuel w c name)
              (map (fun k => Some (root k)) kids)
  = Ok (head (List.filter (named w name) (concat (map preorder kids)))).
Proof.
  induction kids as [|k kids IH]; intros Hk; simpl; [done|].
  rewrite Hk by left. simpl. rewrite List.filter_app.
  destruct (List.filter (named w name) (preorder k)) as [|x l]; simpl; [|done].
  apply IH. intros k' Hin. apply Hk. by right.
Qed.

Lemma FindFirstNode_preorder fuel w name :
  forall t,
    shape w t -> (height t <= fuel)%nat ->
    FindFirstNode fuel w (root t) name
    = Ok (head (List.filter (named w name) (preorder t))).
Proof.
  induction fuel as [|fuel IH]; intros [a kids] Hs Hh.
  - simpl in Hh. lia.
  - apply shape_inv in Hs as (n & Hn & Hc & Hkids).
    cbn [FindFirstNode root]. unfold deref. rewrite Hn. cbn [bind].
    cbn [preorder List.filter]. unfold named at 1. rewrite Hn.
    destruct (bool_decide (name_ n = name)); [done|].
    rewrite Hc. apply first_found_kids.
    intros k Hin. apply IH.
    + rewrite Forall_forall in Hkids. auto.
    + pose proof (height_kids a kids k Hin). lia.
Qed.

(** C4.  When the store lays out the tree [t] below a node, and the
    recursion bound covers the height of [t], [FindAllNode] returns the
    nodes of [t] whose name equals [name], in depth-first pre-order (the
    node itself included), and [FindFirstNode] returns the first of them, or
    null when there is none. *)
Theorem C4_find_by_name_preorder (w : World) (t : tree) (fuel : nat) (name : wstring) :
  shape w t -> (height t <= fuel)%nat ->
  FindAllNode fuel w (root t) name = Ok (List.filter (named w name) (preorder t))
  /\ FindFirstNode fuel w (root t) name
     = Ok (head (List.filter (named w name) (preorder t))).
Proof.
  intros Hs Hh. split.
  - unfold FindAllNode. by rewrite FindAllNode_into_preorder.
  - by apply FindFirstNode_preorder.
Qed.

End FindNode.

(** The scene of section 8: nodes named A, B, A at three depths. *)
Lemma C4_find_by_name_ABA :
  FindAllNode 3 Examples.world_ABA 1%positive Examples.name_A
  = Ok [1%positive; 3%positive]
  /\ FindFirstNode 3 Examples.world_ABA 1%positive Examples.name_A
     = Ok (Some 1%positive).
Proof.
  apply (C4_find_by_name_preorder
           Examples.world_ABA Examples.tree_ABA 3 Examples.name_A).
  - unfold Examples.tree_ABA. solve_shape.
  - vm_compute. lia.
Defined.

(** ** Single-step facts about the store *)

Section Basics.
Context {ML : MathLib}.

Lemma deref_Ok w a n : deref w a = Ok n <-> nodes w !! a = Some n.
Proof. unfold deref. destruct (nodes w !! a); split; congruence. Qed.

Lemma deref_store_eq w a n : deref (store w a n) a = Ok n.
Proof. unfold deref, store; simpl. by rewrite lookup_insert_eq. Qed.

Lemma deref_store_ne w a b n : a <> b -> deref (store w a n) b = deref w b.
Proof. intros. unfold deref, store; simpl. by rewrite lookup_insert_ne. Qed.

Lemma alloc_fresh w n : nodes w !! (alloc w n).1 = None.
Proof. simpl. apply not_elem_of_dom, is_fresh. Qed.

Lemma find_index_None {A} `{EqDecision A} (x : A) (v : list A) :
  x ∉ v -> find_index x v = None.
Proof.
  intros Hx. unfold find_index.
  destruct (list_find (fun y => y = x) v) as [[i y]|] eqn:E; [|done].
  apply list_find_Some in E as (Hi & -> & _).
  exfalso. apply Hx. by eapply list_elem_of_lookup_2.
Qed.

Lemma find_index_Some {A} `{EqDecision A} (x : A) (v : list A) :
  x ∈ v ->
  exists i, find_index x v = Some i /\ v !! i = Some x
            /\ forall j, (j < i)%nat -> v !! j <> Some x.
Proof.
  intros Hx. unfold find_index.
  destruct (list_find (fun y => y = x) v) as [[i y]|] eqn:E.
  - apply list_find_Some in E as (Hi & -> & Hlt).
    exists i. repeat split; [done|]. intros j Hj Hjx. by eapply Hlt.
  - apply list_find_None in E. rewrite Forall_forall in E.
    by destruct (E x Hx).
Qed.

Lemma first_renderable_flag_empty f w this n :
  nodes w !! this = Some n -> renderables_ n = [] ->
  first_renderable_flag f w this = Fault SubscriptOutOfRange.
Proof.
  intros Hn Hr. unfold first_renderable_flag, deref. rewrite Hn. simpl.
  by rewrite Hr.
Qed.

(** The world matrix the code stores: the local matrix of the parent times
    the local matrix of the node. *)
Lemma UpdateAbsModelMatrix_childless fuel w this n p pn :
  nodes w !! this = Some n -> parent_ n = Some p -> nodes w !! p = Some pn ->
  renderables_ n = [] ->
  UpdateAbsModelMatrix fuel w this
  = Ok (store w this (set_abs_model (mat_mul (model_ pn) (model_ n)) n)).
Proof.
  intros Hn Hp Hpn Hr. unfold UpdateAbsModelMatrix, deref.
  rewrite Hn; simpl. rewrite Hp, Hpn; simpl. by rewrite Hr.
Qed.

(** C6.  [RemoveChild] with a reference that is not among the children
    leaves the whole store as it was: child list, bound-dirty flag and every
    other field of the node. *)
Theorem C6_RemoveChild_absent_is_noop
    (w : World) (this : addr) (n : SceneNode) (node : SceneNodePtr) :
  nodes w !! this = Some n -> node ∉ children_ n ->
  RemoveChild w this node = Ok w.
Proof.
  intros Hn Hc. unfold RemoveChild, deref. rewrite Hn. simpl.
  by rewrite find_index_None.
Qed.

(** C2.  A node fresh from [SceneNode(attrib)] has no drawable, and each of
    the seven per-drawable queries subscripts [renderables_[0]] out of
    range instead of returning [false]. *)
Theorem C2_flag_queries_fault_without_drawables (w : World) (attrib : Z) :
  let '(this, w') := SceneNode_new w attrib in
  NumRenderables w' this = Ok 0
  /\ TransparencyFrontFace w' this = Fault SubscriptOutOfRange
  /\ TransparencyBackFace w' this = Fault SubscriptOutOfRange
  /\ SSS w' this = Fault SubscriptOutOfRange
  /\ Reflection w' this = Fault SubscriptOutOfRange
  /\ SimpleForward w' this = Fault SubscriptOutOfRange
  /\ VDM w' this = Fault SubscriptOutOfRange
  /\ SelectMode w' this = Fault SubscriptOutOfRange.
Proof.
  unfold SceneNode_new, alloc. split.
  - unfold NumRenderables. by rewrite deref_store_eq.
  - repeat split;
      (eapply first_renderable_flag_empty;
       [apply lookup_insert_eq | reflexivity]).
Qed.

End Basics.

Lemma C6_RemoveChild_absent_witness :
  RemoveChild Examples.world_ABA 1%positive Examples.node_3
  = Ok Examples.world_ABA.
Proof.
  eapply C6_RemoveChild_absent_is_noop.
  - vm_compute. reflexivity.
  - apply (bool_decide_unpack _). vm_compute. exact I.
Defined.

(** C1.  Propagation down a chain of three nodes translated by (1,0,0),
    (0,1,0) and (0,0,1): the world matrix stored for the node at depth two
    is the translation by (0,1,1), its parent's local matrix times its own,
    whereas its parent's world matrix times its own local matrix is the
    translation by (1,1,1). *)
Theorem C1_world_matrix_ignores_grandparent :
  exists w,
    Examples.propagate_chain = Ok w
    /\ AbsModelMatrix w 3%positive = Ok (ZMath.translation 0 1 1)
    /\ (let* pw := AbsModelMatrix w 2%positive in
        let* l := ModelMatrix w 3%positive in
        Ok (mat_mul pw l)) = Ok (ZMath.translation 1 1 1)
    /\ ZMath.translation 0 1 1 <> ZMath.translation 1 1 1.
Proof.
  eexists. split; [vm_compute; reflexivity|].
  split; [vm_compute; reflexivity|].
  split; [vm_compute; reflexivity|].
  discriminate.
Qed.

(** ** Composing footprints *)

Section Framework.
Context {ML : MathLib}.

Lemma evolves_refl Q P D `{!Footprint Q P D} w : evolves Q P D w w.
Proof.
  repeat split; intros.
  - eexists; split; [done|]. apply fp_Q_refl.
  - congruence.
  - eexists; split; [done|]. apply fp_D_refl.
  - done.
Qed.

Lemma evolves_trans Q P D `{!Footprint Q P D} w1 w2 w3 :
  evolves Q P D w1 w2 -> evolves Q P D w2 w3 -> evolves Q P D w1 w3.
Proof.
  intros (N1 & F1 & D1 & E1) (N2 & F2 & D2 & E2). repeat split.
  - intros a n1 H1. destruct (N1 _ _ H1) as (n2 & H2 & Q12).
    destruct (N2 _ _ H2) as (n3 & H3 & Q23).
    exists n3. split; [done|]. by eapply fp_Q_trans.
  - intros a n3 H3 H1. destruct (nodes w2 !! a) as [n2|] eqn:H2.
    + destruct (N2 _ _ H2) as (n3' & H3' & Q23).
      assert (n3' = n3) as -> by congruence.
      eapply fp_P_closed; [|done]. by eapply F1.
    + by eapply F2.
  - intros r d1 H1. destruct (D1 _ _ H1) as (d2 & H2 & D12).
    destruct (D2 _ _ H2) as (d3 & H3 & D23).
    exists d3. split; [done|]. by eapply fp_D_trans.
  - auto.
Qed.

Lemma evolves_weaken (Q Q' : SceneNode -> SceneNode -> Prop) (P P' : SceneNode -> Prop)
    (D D' : Renderable -> Renderable -> Prop) w w' :
  (forall n n', Q n n' -> Q' n n') -> (forall n, P n -> P' n) ->
  (forall d d', D d d' -> D' d d') ->
  evolves Q P D w w' -> evolves Q' P' D' w w'.
Proof.
  intros HQ HP HD (N & F & Dr & E). repeat split.
  - intros a n Hn. destruct (N _ _ Hn) as (n' & ? & ?). eauto.
  - eauto.
  - intros r d Hd. destruct (Dr _ _ Hd) as (d' & ? & ?). eauto.
  - done.
Qed.

Lemma evolves_store Q P D `{!Footprint Q P D} w a n n' :
  nodes w !! a = Some n -> Q n n' -> evolves Q P D w (store w a n').
Proof.
  intros Hn HQ. repeat split; simpl.
  - intros b m Hm. destruct (decide (a = b)) as [->|Hne].
    + rewrite lookup_insert_eq. assert (m = n) as -> by congruence. eauto.
    + rewrite lookup_insert_ne by done. eexists; split; [done|]. apply fp_Q_refl.
  - intros b m Hm Hnone. destruct (decide (a = b)) as [->|Hne]; [congruence|].
    rewrite lookup_insert_ne in Hm by done. congruence.
  - intros r d Hd. eexists; split; [done|]. apply fp_D_refl.
  - done.
Qed.

Lemma evolves_alloc Q P D `{!Footprint Q P D} w n :
  P n -> evolves Q P D w (alloc w n).2.
Proof.
  intros HP. pose proof (alloc_fresh w n) as Hfresh.
  unfold alloc in *; simpl in *. repeat split; simpl.
  - intros b m Hm. rewrite lookup_insert_ne by congruence.
    eexists; split; [done|]. apply fp_Q_refl.
  - intros b m Hm Hnone.
    destruct (decide (fresh (dom (nodes w)) = b)) as [<-|Hne].
    + rewrite lookup_insert_eq in Hm. congruence.
    + rewrite lookup_insert_ne in Hm by done. congruence.
  - intros r d Hd. eexists; split; [done|]. apply fp_D_refl.
  - done.
Qed.

Lemma evolves_store_renderable Q P D `{!Footprint Q P D} w r d d' :
  drawables w !! r = Some d -> D d d' -> evolves Q P D w (store_renderable w r d').
Proof.
  intros Hd HD. repeat split; simpl.
  - intros b m Hm. eexists; split; [done|]. apply fp_Q_refl.
  - congruence.
  - intros r' e He. destruct (decide (r = r')) as [->|Hne].
    + rewrite lookup_insert_eq. assert (e = d) as -> by congruence. eauto.
    + rewrite lookup_insert_ne by done. eexists; split; [done|]. apply fp_D_refl.
  - intros r' Hnone. destruct (decide (r = r')) as [->|Hne]; [congruence|].
    by rewrite lookup_insert_ne.
Qed.

Lemma evolves_set_scene_nodes Q P D `{!Footprint Q P D} w l :
  evolves Q P D w (set_scene_nodes w l).
Proof.
  repeat split; simpl; intros.
  - eexists; split; [done|]. apply fp_Q_refl.
  - congruence.
  - eexists; split; [done|]. apply fp_D_refl.
  - done.
Qed.

Lemma evolves_foldM Q P D `{!Footprint Q P D} {X} (f : World -> X -> result World) xs :
  (forall w x w', x ∈ xs -> f w x = Ok w' -> evolves Q P D w w') ->
  forall w w', foldM f xs w = Ok w' -> evolves Q P D w w'.
Proof.
  induction xs as [|x xs IH]; intros Hf w w' H; simpl in H.
  - injection H as <-. by apply evolves_refl.
  - inv_bind H as w1 H1. eapply evolves_trans; [done| |].
    + eapply Hf; [by left|done].
    + eapply IH; [|done]. intros ? ? ? ?. apply Hf. by right.
Qed.

Lemma evolves_modify Q P D `{!Footprint Q P D} w a f w' :
  (forall n, Q n (f n)) -> modify w a f = Ok w' -> evolves Q P D w w'.
Proof.
  intros HQ H. unfold modify in H. inv_bind H as n Hn. injection H as <-.
  apply deref_Ok in Hn. by eapply evolves_store.
Qed.

Lemma evolves_modify_renderable Q P D `{!Footprint Q P D} w r f w' :
  (forall d, D d (f d)) -> modify_renderable w r f = Ok w' -> evolves Q P D w w'.
Proof.
  intros HD H. unfold modify_renderable in H.
  inv_bind H as a Ha. inv_bind H as d Hd. injection H as <-.
  unfold deref_renderable in Hd.
  destruct (drawables w !! a) eqn:E; [|discriminate]. injection Hd as <-.
  by eapply evolves_store_renderable.
Qed.

End Framework.

(** Steps of a footprint proof. *)
Ltac fp := apply _.
Ltac ev_refl := apply evolves_refl; fp.
Ltac ev_trans := eapply evolves_trans; [fp| |].
Ltac ev_via w := eapply evolves_trans with (w2 := w); [fp| |].
Ltac ev_store := eapply evolves_store; [fp| |].
Ltac ev_foldM H := eapply evolves_foldM; [fp| |exact H].
Ltac ev_modify H := eapply evolves_modify; [fp| |exact H].

Section Footprints.
Context {ML : MathLib}.

(** ** Attribute bits *)

Lemma invisible_mask : u32 (Z.lnot SOA_Invisible) = Z.ldiff (Z.ones 32) SOA_Invisible.
Proof. reflexivity. Qed.

Lemma testbit_invisible_mask i :
  0 <= i < 32 -> Z.testbit (u32 (Z.lnot SOA_Invisible)) i = negb (i =? 3).
Proof.
  intros Hi. rewrite invisible_mask, Z.ldiff_spec, Z.ones_spec_low by lia.
  change SOA_Invisible with (2 ^ 3). rewrite Z.pow2_bits_eqb by lia.
  simpl. by rewrite Z.eqb_sym.
Qed.

Lemma testbit_SOA_Invisible i : 0 <= i -> Z.testbit SOA_Invisible i = (i =? 3).
Proof.
  intros Hi. change SOA_Invisible with (2 ^ 3).
  rewrite Z.pow2_bits_eqb by lia. apply Z.eqb_sym.
Qed.

Lemma uint32_land a b : uint32 a -> uint32 b -> uint32 (Z.land a b).
Proof.
  unfold uint32. intros Ha Hb.
  assert (0 <= Z.land a b) by (apply Z.land_nonneg; lia).
  split; [done|].
  destruct (decide (Z.land a b = 0)) as [->|Hne]; [lia|].
  apply Z.log2_lt_pow2; [lia|].
  pose proof (Z.log2_land a b ltac:(lia) ltac:(lia)).
  destruct (decide (a = 0)) as [->|]; [by rewrite Z.land_0_l in Hne|].
  assert (Z.log2 a < 32) by (apply Z.log2_lt_pow2; lia). lia.
Qed.

Lemma uint32_lor a b : uint32 a -> uint32 b -> uint32 (Z.lor a b).
Proof.
  unfold uint32. intros Ha Hb.
  assert (0 <= Z.lor a b) by (apply Z.lor_nonneg; lia).
  split; [done|].
  destruct (decide (Z.lor a b = 0)) as [->|Hne]; [lia|].
  apply Z.log2_lt_pow2; [lia|].
  rewrite Z.log2_lor by lia.
  assert (Z.log2 a < 32).
  { destruct (decide (a = 0)) as [->|]; [done|]. apply Z.log2_lt_pow2; lia. }
  assert (Z.log2 b < 32).
  { destruct (decide (b = 0)) as [->|]; [done|]. apply Z.log2_lt_pow2; lia. }
  lia.
Qed.

Lemma attrib_kept_refl a : attrib_kept a a.
Proof. by split. Qed.

Lemma attrib_kept_trans a b c : attrib_kept a b -> attrib_kept b c -> attrib_kept a c.
Proof.
  intros [B1 R1] [B2 R2]. split; [|auto].
  intros i Hi H3. by rewrite B2, B1.
Qed.

Lemma attrib_kept_clear a : attrib_kept a (Z.land a (u32 (Z.lnot SOA_Invisible))).
Proof.
  split.
  - intros i Hi H3. rewrite Z.land_spec, testbit_invisible_mask by done.
    destruct (Z.eqb_spec i 3); [done|]. apply andb_true_r.
  - intros Ha. apply uint32_land; [done|]. by vm_compute.
Qed.

Lemma attrib_kept_set a : attrib_kept a (Z.lor a SOA_Invisible).
Proof.
  split.
  - intros i Hi H3. rewrite Z.lor_spec, testbit_SOA_Invisible by lia.
    destruct (Z.eqb_spec i 3); [done|]. apply orb_false_r.
  - intros Ha. apply uint32_lor; [done|]. by vm_compute.
Qed.

Lemma land_pow2_eqb a k : 0 <= k -> (Z.land a (2 ^ k) =? 0) = negb (Z.testbit a k).
Proof.
  intros Hk. destruct (Z.testbit a k) eqn:E; simpl.
  - apply Z.eqb_neq. intros H0.
    assert (Z.testbit (Z.land a (2 ^ k)) k = true) as Hb.
    { by rewrite Z.land_spec, E, Z.pow2_bits_true. }
    rewrite H0, Z.bits_0 in Hb. discriminate.
  - apply Z.eqb_eq. apply Z.bits_inj'. intros i Hi.
    rewrite Z.land_spec, Z.bits_0, Z.pow2_bits_eqb by done.
    destruct (Z.eqb_spec k i) as [->|]; [by rewrite E|apply andb_false_r].
Qed.

Lemma tracks_bound_bits a :
  tracks_bound a
  = negb (Z.testbit a 1) && (Z.testbit a 0 || Z.testbit a 2).
Proof.
  unfold tracks_bound. f_equal.
  - change SOA_Overlay with (2 ^ 1). by apply land_pow2_eqb.
  - change (Z.lor SOA_Cullable SOA_Moveable) with (Z.lor (2 ^ 0) (2 ^ 2)).
    rewrite Z.land_lor_distr_r.
    pose proof (land_pow2_eqb a 0 ltac:(lia)) as H0.
    pose proof (land_pow2_eqb a 2 ltac:(lia)) as H2.
    destruct (Z.lor (Z.land a (2 ^ 0)) (Z.land a (2 ^ 2)) =? 0) eqn:E.
    + apply Z.eqb_eq, Z.lor_eq_0_iff in E as [E0 E2].
      rewrite E0 in H0. rewrite E2 in H2. revert H0 H2.
      destruct (Z.testbit a 0), (Z.testbit a 2); cbn; intros; congruence.
    + apply Z.eqb_neq in E. revert H0 H2.
      destruct (Z.testbit a 0); [intros; reflexivity|].
      destruct (Z.testbit a 2); [intros; reflexivity|].
      cbn [negb]. intros H0%Z.eqb_eq H2%Z.eqb_eq. rewrite H0, H2 in E. done.
Qed.

Lemma attrib_kept_tracks a x : attrib_kept a x -> tracks_bound x = tracks_bound a.
Proof.
  intros [B _]. rewrite !tracks_bound_bits.
  by rewrite (B 0), (B 1), (B 2) by lia.
Qed.

Lemma invisible_bit a : (0 =? Z.land a SOA_Invisible) = negb (Z.testbit a 3).
Proof.
  rewrite Z.eqb_sym. change SOA_Invisible with (2 ^ 3). by apply land_pow2_eqb.
Qed.

Lemma visible_after_clear a :
  (0 =? Z.land (Z.land a (u32 (Z.lnot SOA_Invisible))) SOA_Invisible) = true.
Proof.
  rewrite invisible_bit, Z.land_spec, testbit_invisible_mask by lia.
  simpl. by rewrite andb_false_r.
Qed.

Lemma visible_after_set a :
  (0 =? Z.land (Z.lor a SOA_Invisible) SOA_Invisible) = false.
Proof.
  rewrite invisible_bit, Z.lor_spec, testbit_SOA_Invisible by lia.
  simpl. by rewrite orb_true_r.
Qed.

(** ** Footprints compose *)

#[global] Instance Footprint_eq : Footprint eq no_node eq.
Proof. split; unfold no_node; intros; subst; auto. Qed.

#[global] Instance Footprint_bound : Footprint Q_bound no_node eq.
Proof.
  split; unfold no_node; try (intros; subst; auto; fail).
  - intros n. exists (pos_aabb_os_ n), (pos_aabb_dirty_ n). by destruct n.
  - intros n1 n2 n3 (o & d & -> & Ho & Hd) (o' & d' & -> & Ho' & Hd').
    exists o', d'. repeat split; simpl in *; [congruence|auto].
Qed.

Lemma same_reports_refl d : same_reports d d.
Proof. by repeat split. Qed.

Lemma same_reports_trans d1 d2 d3 :
  same_reports d1 d2 -> same_reports d2 d3 -> same_reports d1 d3.
Proof. unfold same_reports. intuition congruence. Qed.

#[global] Instance Footprint_geometry : Footprint Q_geometry no_node same_reports.
Proof.
  split; [| |by unfold no_node|apply same_reports_refl|apply same_reports_trans].
  - intros n. exists (abs_model_ n), (pos_aabb_os_ n), (pos_aabb_ws_ n), (pos_aabb_dirty_ n).
    by destruct n.
  - intros n1 n2 n3 (m & o & ws & d & -> & Ho & Hws) (m' & o' & ws' & d' & -> & Ho' & Hws').
    exists m', o', ws', d'. repeat split; simpl in *; congruence.
Qed.

#[global] Instance Footprint_hierarchy : Footprint Q_hierarchy P_api eq.
Proof.
  split; try (intros; subst; auto; fail).
  - intros n. exists (children_ n), (parent_ n). by destruct n.
  - intros n1 n2 n3 (cs & p & ->) (cs' & p' & ->). by exists cs', p'.
  - by intros n n' [? [? ?]] (cs & p & ->).
Qed.

#[global] Instance Footprint_attrib : Footprint Q_attrib no_node eq.
Proof.
  split; unfold no_node; try (intros; subst; auto; fail).
  - intros n. exists (attrib_ n). split; [by destruct n|apply attrib_kept_refl].
  - intros n1 n2 n3 (x & -> & Hx) (y & -> & Hy).
    exists y. split; [done|]. simpl in Hy. by eapply attrib_kept_trans.
Qed.

#[global] Instance Footprint_readiness : Footprint Q_readiness any_node same_reports.
Proof.
  split; [| |done|apply same_reports_refl|apply same_reports_trans];
    unfold Q_readiness; [done|intuition congruence].
Qed.

#[global] Instance Footprint_api : Footprint Q_api P_api same_reports.
Proof.
  split; [| | |apply same_reports_refl|apply same_reports_trans].
  - intros n. by repeat split.
  - unfold Q_api. intuition congruence.
  - unfold Q_api, P_api, bound_presence. intuition congruence.
Qed.

Lemma Q_bound_geometry n n' : Q_bound n n' -> Q_geometry n n'.
Proof.
  intros (o & d & -> & Ho & _).
  exists (abs_model_ n), o, (pos_aabb_ws_ n), d. by destruct n.
Qed.

Lemma Q_geometry_api n n' : Q_geometry n n' -> Q_api n n'.
Proof. intros (m & o & ws & d & -> & Ho & Hws). by repeat split. Qed.

Lemma Q_geometry_readiness n n' : Q_geometry n n' -> Q_readiness n n'.
Proof. intros (m & o & ws & d & -> & Ho & Hws). by split. Qed.

Lemma Q_hierarchy_api n n' : Q_hierarchy n n' -> Q_api n n'.
Proof. intros (cs & p & ->). by repeat split. Qed.

Lemma Q_hierarchy_readiness n n' : Q_hierarchy n n' -> Q_readiness n n'.
Proof. intros (cs & p & ->). by split. Qed.

Lemma eq_Q_hierarchy (n n' : SceneNode) : n = n' -> Q_hierarchy n n'.
Proof. intros ->. apply fp_Q_refl. Qed.

Lemma eq_Q_api (n n' : SceneNode) : n = n' -> Q_api n n'.
Proof. intros ->. apply fp_Q_refl. Qed.

Lemma Q_attrib_api n n' : Q_attrib n n' -> Q_api n n'.
Proof.
  intros (x & -> & Hx). repeat split; try done. simpl.
  by apply attrib_kept_tracks.
Qed.

Lemma eq_same_reports (d d' : Renderable) : d = d' -> same_reports d d'.
Proof. intros ->. apply same_reports_refl. Qed.

Lemma no_node_any (P : SceneNode -> Prop) n : no_node n -> P n.
Proof. intros []. Qed.

(** ** Footprints of the recursive member functions *)

Lemma pos_aabb_os_union_evolves w this b w' :
  pos_aabb_os_union w this b = Ok w' -> evolves Q_bound no_node eq w w'.
Proof.
  unfold pos_aabb_os_union. intros H.
  inv_bind H as n Hn. inv_bind H as os Hos. injection H as <-.
  apply deref_Ok in Hn. ev_store; [done|].
  exists (Some (aabb_union os b)), (pos_aabb_dirty_ n).
  split; [by destruct n|]. split; [|done].
  by destruct (pos_aabb_os_ n).
Qed.

Lemma UpdatePosBound_evolves fuel :
  forall w this w',
    UpdatePosBound fuel w this = Ok w' -> evolves Q_bound no_node eq w w'.
Proof.
  induction fuel as [|fuel IH]; intros w this w' H; [discriminate|].
  cbn [UpdatePosBound] in H. inv_bind H as n Hn. apply deref_Ok in Hn.
  destruct (pos_aabb_dirty_ n) eqn:Hd;
    [|injection H as <-; ev_refl].
  inv_bind H as w1 H1.
  ev_via w1; [|ev_modify H].
  2: { intros m. exists (pos_aabb_os_ m), false. split; [by destruct m|done]. }
  destruct (pos_aabb_os_ n) eqn:Hos;
    [|injection H1 as <-; ev_refl].
  inv_bind H1 as r0 Hr0. inv_bind H1 as b0 Hb0. inv_bind H1 as w2 H2.
  ev_via (store w this (set_pos_aabb_os (Some b0) n)); [|ev_via w2].
  - ev_store; [done|].
    exists (Some b0), (pos_aabb_dirty_ n).
    split; [by destruct n|]. split; [by rewrite Hos|congruence].
  - ev_foldM H2.
    intros w0 x w0' _ Hx. inv_bind Hx as b Hb.
    by eapply pos_aabb_os_union_evolves.
  - ev_foldM H1.
    intros w0 c w0' _ Hc. inv_bind Hc as ca Hca. inv_bind Hc as cn Hcn.
    destruct (pos_aabb_os_ cn); [|injection Hc as <-; ev_refl].
    inv_bind Hc as w3 H3. inv_bind Hc as cn' Hcn'. inv_bind Hc as b Hb.
    ev_via w3; [by eapply IH|by eapply pos_aabb_os_union_evolves].
Qed.

Lemma UpdateAbsModelMatrix_evolves fuel w this w' :
  UpdateAbsModelMatrix fuel w this = Ok w' ->
  evolves Q_geometry no_node same_reports w w'.
Proof.
  unfold UpdateAbsModelMatrix. intros H.
  inv_bind H as n Hn. apply deref_Ok in Hn. inv_bind H as w1 H1.
  assert (exists m, w1 = store w this (set_abs_model m n)) as [m ->].
  { destruct (parent_ n).
    - inv_bind H1 as pn Hpn. injection H1 as <-. eauto.
    - injection H1 as <-. eauto. }
  clear H1. ev_via (store w this (set_abs_model m n)).
  { ev_store; [done|].
    exists m, (pos_aabb_os_ n), (pos_aabb_ws_ n), (pos_aabb_dirty_ n).
    split; [by destruct n|done]. }
  destruct (renderables_ n) as [|r rs]; [injection H as <-; ev_refl|].
  inv_bind H as w2 H2. ev_via w2.
  - destruct (pos_aabb_ws_ n) eqn:Hws; [|injection H2 as <-; ev_refl].
    inv_bind H2 as w3 H3. inv_bind H2 as n3 Hn3. inv_bind H2 as os Hos.
    injection H2 as <-. apply deref_Ok in Hn3.
    apply UpdatePosBound_evolves in H3 as E3.
    ev_via w3.
    + eapply evolves_weaken; [apply Q_bound_geometry|done|apply eq_same_reports|].
      exact E3.
    + ev_store; [done|].
      destruct E3 as (N3 & _).
      destruct (N3 this _ (lookup_insert_eq _ _ _)) as (n3' & Hn3' & (o & d & Hq & _)).
      assert (n3' = n3) as -> by (simpl in *; congruence).
      exists (abs_model_ n3), (pos_aabb_os_ n3),
        (Some (transform_aabb os (abs_model_ n3))), (pos_aabb_dirty_ n3).
      split; [by destruct n3|]. split; [done|].
      rewrite Hq. simpl. by rewrite Hws.
  - ev_foldM H.
    intros w0 x w0' _ Hx. inv_bind Hx as n0 Hn0.
    eapply evolves_modify_renderable; [fp| |exact Hx].
    intros d. by repeat split.
Qed.

Lemma Visible_set_evolves fuel vis :
  forall w this w',
    Visible_set fuel w this vis = Ok w' -> evolves Q_attrib no_node eq w w'.
Proof.
  induction fuel as [|fuel IH]; intros w this w' H; [discriminate|].
  cbn [Visible_set] in H. inv_bind H as n Hn. apply deref_Ok in Hn.
  ev_trans; [|ev_foldM H].
  - ev_store; [done|]. eexists. split; [reflexivity|].
    destruct vis; [apply attrib_kept_clear|apply attrib_kept_set].
  - intros w0 c w0' _ Hc. inv_bind Hc as ca Hca. by eapply IH.
Qed.

Lemma AddToSceneManager_evolves fuel :
  forall w this w',
    AddToSceneManager fuel w this = Ok w' -> evolves eq no_node eq w w'.
Proof.
  induction fuel as [|fuel IH]; intros w this w' H; [discriminate|].
  cbn [AddToSceneManager] in H. inv_bind H as n Hn.
  ev_trans; [|ev_foldM H].
  - unfold AddSceneNode. apply evolves_set_scene_nodes. fp.
  - intros w0 c w0' _ Hc. inv_bind Hc as ca Hca. by eapply IH.
Qed.

Lemma DelFromSceneManager_evolves fuel :
  forall w this w',
    DelFromSceneManager fuel w this = Ok w' -> evolves eq no_node eq w w'.
Proof.
  induction fuel as [|fuel IH]; intros w this w' H; [discriminate|].
  cbn [DelFromSceneManager] in H. inv_bind H as n Hn. inv_bind H as w1 H1.
  injection H as <-. ev_via w1.
  - ev_foldM H1. intros w0 c w0' _ Hc. inv_bind Hc as ca Hca. by eapply IH.
  - unfold DelSceneNode. destruct (find_index _ _); [|ev_refl].
    apply evolves_set_scene_nodes. fp.
Qed.

Lemma P_api_init attrib : P_api (SceneNode_init attrib).
Proof.
  split; [done|]. unfold bound_presence. simpl.
  by destruct (tracks_bound attrib).
Qed.

Lemma evolves_fresh_store Q P D `{!Footprint Q P D} w a n0 n :
  nodes w !! a = None -> P n -> evolves Q P D w (store (store w a n0) a n).
Proof.
  intros Hfresh HP. repeat split; simpl.
  - intros b m Hm. rewrite !lookup_insert_ne by congruence.
    eexists; split; [done|]. apply fp_Q_refl.
  - intros b m Hm Hnone. destruct (decide (a = b)) as [<-|Hne].
    + rewrite lookup_insert_eq in Hm. congruence.
    + rewrite !lookup_insert_ne in Hm by done. congruence.
  - intros r d Hd. eexists; split; [done|]. apply fp_D_refl.
  - done.
Qed.

(** [MakeSharedPtr<SceneNode>(...)] up to the call of [AddRenderable]. *)
Lemma alloc_AddRenderable_evolves Q D `{!Footprint Q P_api D} w attrib sub w' :
  AddRenderable (alloc w (SceneNode_init attrib)).2 (alloc w (SceneNode_init attrib)).1 sub
  = Ok w' ->
  evolves Q P_api D w w'.
Proof.
  intros H. pose proof (alloc_fresh w (SceneNode_init attrib)) as Hfresh.
  unfold alloc in *. simpl in *. unfold AddRenderable in H.
  rewrite deref_store_eq in H. simpl in H. injection H as <-.
  apply evolves_fresh_store; [done|done|].
  split.
  - unfold lock_step. simpl. done.
  - unfold bound_presence. simpl. by destruct (tracks_bound attrib).
Qed.

Lemma OnAttachRenderable_evolves fuel :
  forall w this add_to_scene w',
    OnAttachRenderable fuel w this add_to_scene = Ok w' ->
    evolves Q_hierarchy P_api eq w w'.
Proof.
  induction fuel as [|fuel IH]; intros w this add w' H; [discriminate|].
  cbn [OnAttachRenderable] in H. inv_bind H as n Hn.
  ev_foldM H. intros wa r wa' _ Ha.
  destruct r as [ra|]; [|injection Ha as <-; ev_refl].
  inv_bind Ha as d Hd.
  destruct (0 <? length (r_Subrenderables d))%nat; [|injection Ha as <-; ev_refl].
  inv_bind Ha as na Hna. apply deref_Ok in Hna.
  ev_trans; [|ev_foldM Ha].
  { ev_store; [done|].
    exists (children_ na ++ replicate (length (r_Subrenderables d)) None), (parent_ na).
    by destruct na. }
  intros wb i wb' _ Hb.
  inv_bind Hb as d' Hd'. inv_bind Hb as sub Hsub. inv_bind Hb as nb Hnb.
  destruct (alloc wb (SceneNode_init (attrib_ nb))) as [child wc] eqn:Hc.
  inv_bind Hb as w1 H1. inv_bind Hb as w2 H2. inv_bind Hb as w3 H3.
  inv_bind Hb as n3 Hn3. inv_bind Hb as cs Hcs. apply deref_Ok in Hn3.
  ev_via w1.
  { eapply alloc_AddRenderable_evolves; [fp|]. rewrite Hc. exact H1. }
  ev_via w2; [by eapply IH|].
  ev_via w3.
  { unfold Parent_set in H3. ev_modify H3.
    intros m. exists (children_ m), (Some this). by destruct m. }
  ev_via (store w3 this (set_children cs n3)).
  { ev_store; [done|]. exists cs, (parent_ n3). by destruct n3. }
  destruct add; [|injection Hb as <-; ev_refl].
  eapply evolves_weaken; [apply eq_Q_hierarchy|apply no_node_any|done|].
  by eapply AddToSceneManager_evolves.
Qed.

(** ** Every operation of the interface *)

Lemma Q_api_intro n n' :
  (lock_step n -> lock_step n') ->
  pos_aabb_os_ n' = pos_aabb_os_ n -> pos_aabb_ws_ n' = pos_aabb_ws_ n ->
  attrib_ n' = attrib_ n -> Q_api n n'.
Proof. intros ? Ho Hw Ha. unfold Q_api. by rewrite Ho, Hw, Ha. Qed.

Lemma find_index_lt {A} `{EqDecision A} (x : A) (v : list A) i :
  find_index x v = Some i -> v !! i = Some x.
Proof.
  unfold find_index. intros H.
  destruct (list_find (fun y => y = x) v) as [[j y]|] eqn:E; [|done].
  simpl in H. injection H as ->. by apply list_find_Some in E as (? & -> & _).
Qed.

Lemma erase_Ok {A} (v : list A) i v' :
  erase v i = Ok v' -> (i < length v)%nat /\ v' = delete i v.
Proof.
  unfold erase. destruct (Nat.ltb_spec i (length v)); [|done].
  intros [= <-]. done.
Qed.

Lemma assign_Ok {A} (v : list A) i x v' :
  assign v i x = Ok v' -> (i < length v)%nat /\ v' = <[i := x]> v.
Proof.
  unfold assign. destruct (Nat.ltb_spec i (length v)); [|done].
  intros [= <-]. done.
Qed.

Lemma mark_hw_res_ready_evolves this st i st' :
  mark_hw_res_ready this st i = Ok st' ->
  evolves Q_api P_api same_reports st.2 st'.2.
Proof.
  destruct st as [refreshed w]. unfold mark_hw_res_ready. intros H.
  inv_bind H as n Hn. inv_bind H as r Hr. apply deref_Ok in Hn.
  destruct r as [a|]; [|injection H as <-; ev_refl].
  inv_bind H as ready Hready.
  destruct ready; [injection H as <-; ev_refl|].
  inv_bind H as d Hd.
  destruct (r_HWResourceReady d); [|injection H as <-; ev_refl].
  inv_bind H as flags Hflags. injection H as <-. simpl.
  apply assign_Ok in Hflags as [Hi ->].
  ev_store; [done|]. apply Q_api_intro; try done.
  unfold lock_step. simpl. by rewrite length_insert.
Qed.

Lemma SceneNode_new_renderable_evolves fuel w renderable attrib r :
  SceneNode_new_renderable fuel w renderable attrib = Ok r ->
  evolves Q_api P_api same_reports w r.2.
Proof.
  unfold SceneNode_new_renderable. intros H.
  destruct (alloc w (SceneNode_init attrib)) as [this wc] eqn:Hc.
  inv_bind H as w1 H1. inv_bind H as w2 H2. injection H as <-. simpl.
  ev_via w1.
  { eapply alloc_AddRenderable_evolves; [fp|]. rewrite Hc. exact H1. }
  eapply evolves_weaken; [apply Q_hierarchy_api|done|apply eq_same_reports|].
  by eapply OnAttachRenderable_evolves.
Qed.

Lemma renderable_setters_evolves (f : Renderable -> Renderable) rs w w' :
  (forall d, same_reports d (f d)) ->
  foldM (fun w renderable => modify_renderable w renderable f) rs w = Ok w' ->
  evolves Q_api P_api same_reports w w'.
Proof.
  intros Hf H. ev_foldM H. intros w0 r w0' _ Hr.
  eapply evolves_modify_renderable; [fp|exact Hf|exact Hr].
Qed.

Section Interface.
Variable invoke : callback -> addr -> float -> float -> World -> result World.
Hypothesis Hinvoke : callbacks_use_interface invoke.

Lemma MainThreadUpdate_evolves fuel w this app_time elapsed_time r :
  MainThreadUpdate invoke fuel w this app_time elapsed_time = Ok r ->
  evolves Q_api P_api same_reports w r.2.
Proof.
  unfold MainThreadUpdate. intros H.
  inv_bind H as n Hn. inv_bind H as st Hst. inv_bind H as w1 H1.
  inv_bind H as n1 Hn1. inv_bind H as w2 H2. injection H as <-. simpl.
  assert (evolves Q_api P_api same_reports w st.2) as E0.
  { clear H1 H2. revert Hst. generalize (seq 0 (length (renderables_ n))).
    change w with ((false, w).2) at 2. generalize (false, w).
    intros st0 l. revert st0. induction l as [|i l IH]; intros st0 H; simpl in H.
    - injection H as <-. ev_refl.
    - inv_bind H as st1 Hst1. ev_via st1.2; [|by apply IH].
      by eapply mark_hw_res_ready_evolves. }
  ev_via st.2; [done|]. ev_via w1.
  - destruct st.1; [|injection H1 as <-; ev_refl].
    inv_bind H1 as w3 H3. ev_via w3.
    + eapply evolves_weaken;
        [apply Q_hierarchy_api|done|apply eq_same_reports|].
      by eapply OnAttachRenderable_evolves.
    + eapply evolves_weaken; [apply Q_geometry_api|apply no_node_any|done|].
      by eapply UpdateAbsModelMatrix_evolves.
  - destruct (main_thread_update_func_ n1); [|injection H2 as <-; ev_refl].
    by eapply Hinvoke.
Qed.

Lemma exec_evolves fuel op w w' :
  exec invoke fuel op w = Ok w' -> evolves Q_api P_api same_reports w w'.
Proof.
  destruct op; cbn [exec]; intros H.
  - injection H as <-. apply evolves_alloc; [fp|apply P_api_init].
  - injection H as <-. apply evolves_alloc; [fp|]. apply (P_api_init attrib).
  - inv_bind H as r Hr. injection H as <-.
    by eapply SceneNode_new_renderable_evolves.
  - inv_bind H as r Hr. injection H as <-.
    unfold SceneNode_new_renderable_named in Hr.
    inv_bind Hr as r0 Hr0. inv_bind Hr as w1 H1. injection Hr as <-. simpl.
    ev_via r0.2; [by eapply SceneNode_new_renderable_evolves|].
    unfold Name_set in H1. ev_modify H1. intros n. by apply Q_api_intro.
  - ev_modify H. intros n. by apply Q_api_intro.
  - ev_modify H. intros n. by apply Q_api_intro.
  - unfold AddChild in H. inv_bind H as n Hn. injection H as <-.
    apply deref_Ok in Hn. ev_store; [done|]. by apply Q_api_intro.
  - unfold RemoveChild in H. inv_bind H as n Hn. apply deref_Ok in Hn.
    destruct (find_index _ _); injection H as <-; [|ev_refl].
    ev_store; [done|]. by apply Q_api_intro.
  - unfold ClearChildren in H. inv_bind H as n Hn. injection H as <-.
    apply deref_Ok in Hn. ev_store; [done|]. by apply Q_api_intro.
  - unfold AddRenderable in H. inv_bind H as n Hn. injection H as <-.
    apply deref_Ok in Hn. ev_store; [done|]. apply Q_api_intro; try done.
    unfold lock_step. simpl. rewrite !length_app. simpl. lia.
  - unfold DelRenderable in H. inv_bind H as n Hn. apply deref_Ok in Hn.
    destruct (find_index _ _) as [i|] eqn:Hi; [|injection H as <-; ev_refl].
    inv_bind H as ready Hready. injection H as <-.
    apply erase_Ok in Hready as [Hlt ->]. apply find_index_lt in Hi.
    ev_store; [done|]. apply Q_api_intro; try done.
    unfold lock_step. simpl. intros Hl.
    rewrite !length_delete; [lia|eauto|by apply lookup_lt_is_Some].
  - ev_modify H. intros n. by apply Q_api_intro.
  - eapply evolves_weaken; [apply Q_geometry_api|apply no_node_any|done|].
    by eapply UpdateAbsModelMatrix_evolves.
  - ev_modify H. intros n. by apply Q_api_intro.
  - eapply evolves_weaken; [apply Q_hierarchy_api|done|apply eq_same_reports|].
    by eapply OnAttachRenderable_evolves.
  - eapply evolves_weaken; [apply eq_Q_api|apply no_node_any|apply eq_same_reports|].
    by eapply AddToSceneManager_evolves.
  - eapply evolves_weaken; [apply eq_Q_api|apply no_node_any|apply eq_same_reports|].
    by eapply DelFromSceneManager_evolves.
  - ev_modify H. intros n. by apply Q_api_intro.
  - ev_modify H. intros n. by apply Q_api_intro.
  - unfold SubThreadUpdate in H. inv_bind H as n Hn.
    destruct (sub_thread_update_func_ n); [|injection H as <-; ev_refl].
    by eapply Hinvoke.
  - inv_bind H as r Hr. injection H as <-. by eapply MainThreadUpdate_evolves.
  - eapply evolves_weaken; [apply Q_attrib_api|apply no_node_any|apply eq_same_reports|].
    by eapply Visible_set_evolves.
  - unfold SelectMode_set in H. inv_bind H as n Hn.
    eapply renderable_setters_evolves; [|exact H]. intros d. by repeat split.
  - unfold ObjectID in H. inv_bind H as n Hn.
    eapply renderable_setters_evolves; [|exact H]. intros d. by repeat split.
  - unfold Pass in H. inv_bind H as n Hn. inv_bind H as w1 H1.
    inv_bind H as n1 Hn1. ev_via w1.
    + eapply renderable_setters_evolves; [|exact H1]. intros d. by repeat split.
    + destruct (Z.land (attrib_ n1) SOA_NotCastShadow =? 0);
        [injection H as <-; ev_refl|].
      eapply evolves_weaken;
        [apply Q_attrib_api|apply no_node_any|apply eq_same_reports|].
      by eapply Visible_set_evolves.
Qed.

End Interface.

End Footprints.

(** ** Invariants of the interface *)

Section Invariants.
Context {ML : MathLib}.

(** The test of the constructor, in the words of the attribute mask. *)
Lemma tracks_bound_spec attrib :
  tracks_bound attrib = true
  <-> Z.land attrib SOA_Overlay = 0
      /\ (Z.land attrib SOA_Cullable <> 0 \/ Z.land attrib SOA_Moveable <> 0).
Proof.
  rewrite tracks_bound_bits.
  change SOA_Overlay with (2 ^ 1). change SOA_Cullable with (2 ^ 0).
  change SOA_Moveable with (2 ^ 2).
  pose proof (land_pow2_eqb attrib 0 ltac:(lia)) as H0.
  pose proof (land_pow2_eqb attrib 1 ltac:(lia)) as H1.
  pose proof (land_pow2_eqb attrib 2 ltac:(lia)) as H2.
  rewrite <- (Z.eqb_eq (Z.land attrib (2 ^ 1))), <- !Z.eqb_neq, H0, H1, H2.
  destruct (Z.testbit attrib 0), (Z.testbit attrib 1), (Z.testbit attrib 2);
    simpl; intuition congruence.
Qed.

Lemma DelRenderable_same_position w this renderable n :
  nodes w !! this = Some n -> lock_step n -> renderable ∈ renderables_ n ->
  exists i n2 w2,
    DelRenderable w this renderable = Ok w2
    /\ nodes w2 !! this = Some n2
    /\ renderables_ n !! i = Some renderable
    /\ (forall j, (j < i)%nat -> renderables_ n !! j <> Some renderable)
    /\ renderables_ n2 = delete i (renderables_ n)
    /\ renderables_hw_res_ready_ n2 = delete i (renderables_hw_res_ready_ n).
Proof.
  intros Hn Hl Hr. apply find_index_Some in Hr as (i & Hi & Hri & Hfirst).
  unfold DelRenderable, deref. rewrite Hn. cbn [bind]. rewrite Hi.
  unfold erase. apply lookup_lt_Some in Hri as Hlt. rewrite <- Hl in Hlt.
  apply Nat.ltb_lt in Hlt. rewrite Hlt. cbn [bind].
  eexists i, _, _. split; [reflexivity|].
  split; [apply lookup_insert_eq|]. by repeat split.
Qed.

Lemma AddRenderable_same_position w this renderable n :
  nodes w !! this = Some n ->
  exists n2 w2,
    AddRenderable w this renderable = Ok w2
    /\ nodes w2 !! this = Some n2
    /\ renderables_ n2 = renderables_ n ++ [renderable]
    /\ renderables_hw_res_ready_ n2 = renderables_hw_res_ready_ n ++ [false].
Proof.
  intros Hn. unfold AddRenderable, deref. rewrite Hn. cbn [bind].
  eexists _, _. split; [reflexivity|]. split; [apply lookup_insert_eq|]. done.
Qed.

(** C8.  Every operation of the interface keeps the readiness flags of
    every node as long as its drawable list, on old nodes and on the nodes
    it creates.  [AddRenderable] appends to both lists, and [DelRenderable]
    of a drawable that is present erases from both lists at the position of
    its first occurrence, so the i-th flag stays with the i-th drawable. *)
Theorem C8_readiness_flags_in_lock_step
    (invoke : callback -> addr -> float -> float -> World -> result World)
    (fuel : nat) (op : Op) (w w' : World) :
  callbacks_use_interface invoke ->
  (forall a n, nodes w !! a = Some n -> lock_step n) ->
  exec invoke fuel op w = Ok w' ->
  (forall a n', nodes w' !! a = Some n' -> lock_step n')
  /\ (forall this renderable n,
        nodes w !! this = Some n ->
        exists n2 w2,
          AddRenderable w this renderable = Ok w2
          /\ nodes w2 !! this = Some n2
          /\ renderables_ n2 = renderables_ n ++ [renderable]
          /\ renderables_hw_res_ready_ n2 = renderables_hw_res_ready_ n ++ [false])
  /\ (forall this renderable n,
        nodes w !! this = Some n -> renderable ∈ renderables_ n ->
        exists i n2 w2,
          DelRenderable w this renderable = Ok w2
          /\ nodes w2 !! this = Some n2
          /\ renderables_ n !! i = Some renderable
          /\ (forall j, (j < i)%nat -> renderables_ n !! j <> Some renderable)
          /\ renderables_ n2 = delete i (renderables_ n)
          /\ renderables_hw_res_ready_ n2 = delete i (renderables_hw_res_ready_ n)).
Proof.
  intros Hcb Hinv Hexec. split; [|split].
  - apply (exec_evolves invoke Hcb) in Hexec as (N & F & _).
    intros a n' Hn'. destruct (nodes w !! a) as [n|] eqn:Hn.
    + destruct (N _ _ Hn) as (n'' & Hn'' & HQ & _).
      assert (n'' = n') as -> by congruence. eauto.
    + by destruct (F _ _ Hn' Hn).
  - intros this renderable n Hn. by apply AddRenderable_same_position.
  - intros this renderable n Hn Hr. apply DelRenderable_same_position; eauto.
Qed.

(** C9.  The constructor gives a node its local-space and world-space
    boxes exactly when the attribute mask has no [SOA_Overlay] and has
    [SOA_Cullable] or [SOA_Moveable], so a node that is neither cullable
    nor moveable has no box at all; every operation of the interface keeps
    that so on every node, and never creates or drops a box of a node that
    exists. *)
Theorem C9_bound_presence_fixed
    (invoke : callback -> addr -> float -> float -> World -> result World)
    (fuel : nat) (op : Op) (w w' : World) :
  callbacks_use_interface invoke ->
  (forall a n, nodes w !! a = Some n -> bound_presence n) ->
  exec invoke fuel op w = Ok w' ->
  (forall attrib,
      bound_presence (SceneNode_init attrib)
      /\ (tracks_bound attrib = true
          <-> Z.land attrib SOA_Overlay = 0
              /\ (Z.land attrib SOA_Cullable <> 0 \/ Z.land attrib SOA_Moveable <> 0))
      /\ (Z.land attrib SOA_Cullable = 0 -> Z.land attrib SOA_Moveable = 0 ->
          pos_aabb_os_ (SceneNode_init attrib) = None
          /\ pos_aabb_ws_ (SceneNode_init attrib) = None))
  /\ (forall a n', nodes w' !! a = Some n' -> bound_presence n')
  /\ (forall a n n',
        nodes w !! a = Some n -> nodes w' !! a = Some n' ->
        present (pos_aabb_os_ n') = present (pos_aabb_os_ n)
        /\ present (pos_aabb_ws_ n') = present (pos_aabb_ws_ n)).
Proof.
  intros Hcb Hinv Hexec.
  apply (exec_evolves invoke Hcb) in Hexec as (N & F & _).
  split; [|split].
  - intros attrib. split; [apply P_api_init|]. split; [apply tracks_bound_spec|].
    intros Hc Hm. simpl.
    destruct (tracks_bound attrib) eqn:Ht; [|done].
    apply tracks_bound_spec in Ht as [_ [?|?]]; done.
  - intros a n' Hn'. destruct (nodes w !! a) as [n|] eqn:Hn.
    + destruct (N _ _ Hn) as (n'' & Hn'' & _ & Ho & Hw & Ht).
      assert (n'' = n') as -> by congruence.
      destruct (Hinv _ _ Hn) as [Io Iw].
      split; congruence.
    + by destruct (F _ _ Hn' Hn).
  - intros a n n' Hn Hn'.
    destruct (N _ _ Hn) as (n'' & Hn'' & _ & Ho & Hw & _).
    assert (n'' = n') as -> by congruence. done.
Qed.

End Invariants.

(** ** Trees in the store *)

Section Trees.
Context {ML : MathLib}.

Lemma tree_induction (P : tree -> Prop) :
  (forall a kids, Forall P kids -> P (Tree a kids)) -> forall t, P t.
Proof.
  intros H. fix IH 1. intros [a kids]. apply H.
  induction kids as [|k kids IHk]; constructor; [apply IH|apply IHk].
Qed.

(** A change of the store that keeps every child vector keeps every tree. *)
Lemma shape_preserved w w' :
  (forall a n, nodes w !! a = Some n ->
     exists n', nodes w' !! a = Some n' /\ children_ n' = children_ n) ->
  forall t, shape w t -> shape w' t.
Proof.
  intros Hw. induction t as [a kids IH] using tree_induction.
  intros Hs. apply shape_inv in Hs as (n & Hn & Hc & Hkids).
  destruct (Hw _ _ Hn) as (n' & Hn' & Hc').
  econstructor; [exact Hn'|congruence|].
  rewrite Forall_forall in *. auto.
Qed.

Lemma shape_evolves Q P D w w' :
  (forall n n', Q n n' -> children_ n' = children_ n) ->
  evolves Q P D w w' -> forall t, shape w t -> shape w' t.
Proof.
  intros HQ (N & _). apply shape_preserved. intros a n Hn.
  destruct (N _ _ Hn) as (n' & ? & ?). eauto.
Qed.

Lemma Q_attrib_children n n' : Q_attrib n n' -> children_ n' = children_ n.
Proof. by intros (x & -> & _). Qed.

Lemma Q_bound_children n n' : Q_bound n n' -> children_ n' = children_ n.
Proof. by intros (o & d & -> & _). Qed.

Lemma root_in_preorder t : root t ∈ preorder t.
Proof. destruct t. simpl. by left. Qed.

Lemma preorder_kid a kids k x :
  k ∈ kids -> x ∈ preorder k -> x ∈ preorder (Tree a kids).
Proof.
  intros Hk Hx. simpl. right. apply list_elem_of_In, in_concat.
  exists (preorder k). split; [|by apply list_elem_of_In].
  apply in_map. by apply list_elem_of_In.
Qed.

(** *** [Visible(bool)] *)

Lemma Visible_store w this n x :
  Visible (store w this (set_attrib x n)) this = Ok (0 =? Z.land x SOA_Invisible).
Proof. unfold Visible. by rewrite deref_store_eq. Qed.

(** A node that already shows [vis] keeps showing it. *)
Lemma Visible_set_keeps fuel vis :
  forall w this w' a,
    Visible_set fuel w this vis = Ok w' ->
    Visible w a = Ok vis -> Visible w' a = Ok vis.
Proof.
  induction fuel as [|fuel IH]; intros w this w' a H Ha; [discriminate|].
  cbn [Visible_set] in H. inv_bind H as n Hn.
  assert (Visible (store w this
            (set_attrib (if vis then Z.land (attrib_ n) (u32 (Z.lnot SOA_Invisible))
                         else Z.lor (attrib_ n) SOA_Invisible) n)) a = Ok vis) as H0.
  { destruct (decide (this = a)) as [->|Hne].
    - rewrite Visible_store.
      destruct vis; [by rewrite visible_after_clear|by rewrite visible_after_set].
    - unfold Visible in *. by rewrite deref_store_ne. }
  revert H H0. generalize (store w this
            (set_attrib (if vis then Z.land (attrib_ n) (u32 (Z.lnot SOA_Invisible))
                         else Z.lor (attrib_ n) SOA_Invisible) n)).
  generalize (children_ n). clear Hn Ha n w.
  intros cs. induction cs as [|c cs IHcs]; intros w H Ha; simpl in H.
  - by injection H as <-.
  - inv_bind H as w1 H1. inv_bind H1 as ca Hca. eapply IHcs; [exact H|].
    by eapply IH.
Qed.

Lemma Visible_set_children_keeps fuel vis a :
  forall (cs : list SceneNodePtr) w w',
    foldM (fun w (child : SceneNodePtr) =>
             let* c := nonnull child in Visible_set fuel w c vis) cs w = Ok w' ->
    Visible w a = Ok vis -> Visible w' a = Ok vis.
Proof.
  induction cs as [|c cs IHcs]; intros w w' H Ha; simpl in H.
  - by injection H as <-.
  - inv_bind H as w1 H1. inv_bind H1 as ca Hca. eapply IHcs; [exact H|].
    by eapply Visible_set_keeps.
Qed.

Lemma Visible_set_root fuel vis w this w' :
  Visible_set fuel w this vis = Ok w' -> Visible w' this = Ok vis.
Proof.
  destruct fuel as [|fuel]; [discriminate|]. intros H.
  cbn [Visible_set] in H. inv_bind H as n Hn.
  assert (Visible (store w this
            (set_attrib (if vis then Z.land (attrib_ n) (u32 (Z.lnot SOA_Invisible))
                         else Z.lor (attrib_ n) SOA_Invisible) n)) this = Ok vis) as H0.
  { rewrite Visible_store.
    destruct vis; [by rewrite visible_after_clear|by rewrite visible_after_set]. }
  by eapply Visible_set_children_keeps.
Qed.

Lemma Visible_set_kids fuel vis kids :
  Forall (Visible_set_on fuel vis) kids ->
  forall w, Forall (shape w) kids ->
    exists w',
      foldM (fun w (child : SceneNodePtr) =>
               let* c := nonnull child in Visible_set fuel w c vis)
            (map (fun k => Some (root k)) kids) w = Ok w'
      /\ (forall a, a ∈ concat (map preorder kids) -> Visible w' a = Ok vis)
      /\ (forall a, a ∉ concat (map preorder kids) -> nodes w' !! a = nodes w !! a).
Proof.
  induction kids as [|k kids IH]; intros Hon w Hs; simpl.
  - exists w. split; [done|]. split; [|done]. by intros a Ha%elem_of_nil.
  - apply Forall_cons in Hon as [Hk Hon]. apply Forall_cons in Hs as [Hsk Hs].
    destruct (Hk w Hsk) as (w1 & H1 & V1 & F1). rewrite H1. cbn [bind].
    assert (Forall (shape w1) kids) as Hs1.
    { eapply Forall_impl; [exact Hs|]. intros t.
      eapply shape_evolves; [apply Q_attrib_children|].
      by eapply Visible_set_evolves. }
    destruct (IH Hon w1 Hs1) as (w' & H' & V' & F').
    exists w'. split; [done|]. split.
    + intros a Ha. apply elem_of_app in Ha as [Ha|Ha]; [|by apply V'].
      eapply Visible_set_children_keeps; [exact H'|]. by apply V1.
    + intros a Ha. apply not_elem_of_app in Ha as [Ha1 Ha2].
      by rewrite F', F1.
Qed.

Lemma Visible_set_tree vis :
  forall fuel t, (height t <= fuel)%nat -> Visible_set_on fuel vis t.
Proof.
  induction fuel as [|fuel IH]; intros [a kids] Hh; [simpl in Hh; lia|].
  intros w Hs. apply shape_inv in Hs as Hinv. destruct Hinv as (n & Hn & Hc & Hkids).
  cbn [Visible_set root]. unfold deref. rewrite Hn. cbn [bind]. rewrite Hc.
  set (w0 := store w a _).
  assert (Forall (shape w0) kids) as Hs0.
  { eapply Forall_impl; [exact Hkids|]. intros t.
    eapply shape_evolves; [apply Q_attrib_children|].
    subst w0. ev_store; [done|]. eexists. split; [reflexivity|].
    destruct vis; [apply attrib_kept_clear|apply attrib_kept_set]. }
  destruct (Visible_set_kids fuel vis kids) with (w := w0) as (w' & H' & V' & F');
    [|done|].
  { apply Forall_forall. intros k Hk. apply IH.
    pose proof (height_kids a kids k Hk). lia. }
  exists w'. split; [done|]. split.
  - intros x Hx. cbn [preorder] in Hx. apply elem_of_cons in Hx as [->|Hx]; [|by apply V'].
    eapply (Visible_set_root (S fuel) vis w a).
    cbn [Visible_set]. unfold deref. rewrite Hn. cbn [bind]. by rewrite Hc.
  - intros x Hx. cbn [preorder] in Hx. apply not_elem_of_cons in Hx as [Hne Hx].
    rewrite F' by done. subst w0. simpl. by rewrite lookup_insert_ne.
Qed.

(** C10.  On a tree laid out in the store, [Visible(vis)] returns; after
    it [Visible()] answers [vis] on every node of the tree; every node of
    the store keeps all its fields but [attrib_], and all bits of [attrib_]
    but [SOA_Invisible]; nodes outside the tree are not touched at all. *)
Theorem C10_Visible_sets_the_subtree
    (w : World) (t : tree) (fuel : nat) (vis : bool) :
  shape w t -> (height t <= fuel)%nat ->
  exists w',
    Visible_set fuel w (root t) vis = Ok w'
    /\ (forall a, a ∈ preorder t -> Visible w' a = Ok vis)
    /\ (forall a n, nodes w !! a = Some n ->
          exists x, nodes w' !! a = Some (set_attrib x n)
                    /\ (forall i, 0 <= i < 32 -> i <> 3 ->
                          Z.testbit x i = Z.testbit (attrib_ n) i)
                    /\ (uint32 (attrib_ n) -> uint32 x))
    /\ (forall a, a ∉ preorder t -> nodes w' !! a = nodes w !! a).
Proof.
  intros Hs Hh.
  destruct (Visible_set_tree vis fuel t Hh w Hs) as (w' & H & V & F).
  exists w'. split; [done|]. split; [done|]. split; [|done].
  intros a n Hn. apply Visible_set_evolves in H as (N & _).
  destruct (N _ _ Hn) as (n' & Hn' & x & -> & Hx).
  exists x. split; [done|]. exact Hx.
Qed.

End Trees.

(** ** Bound recomputation *)

Section Bounds.
Context {ML : MathLib}.

Lemma set_pos_aabb_os_id n o : pos_aabb_os_ n = o -> set_pos_aabb_os o n = n.
Proof. intros <-. by destruct n. Qed.

Lemma store_id w a n : nodes w !! a = Some n -> store w a n = w.
Proof. intros H. destruct w. unfold store. simpl in *. f_equal. by apply insert_id. Qed.

Lemma store_store w a n1 n2 : store (store w a n1) a n2 = store w a n2.
Proof. unfold store. simpl. f_equal. apply insert_insert_eq. Qed.

Lemma PosBound_valid w r :
  valid_renderable w r ->
  exists b, PosBound w r = Ok b /\ drawable_bounds w [r] = [b].
Proof.
  intros (a & d & -> & Hd). exists (r_PosBound d).
  unfold PosBound, deref_renderable, drawable_bounds. simpl. by rewrite Hd.
Qed.

Lemma drawable_bounds_cons w r rs :
  drawable_bounds w (r :: rs) = drawable_bounds w [r] ++ drawable_bounds w rs.
Proof. unfold drawable_bounds. simpl. by destruct (_ ≫= _). Qed.

Lemma node_bounds_cons w c cs :
  node_bounds w (c :: cs) = node_bounds w [c] ++ node_bounds w cs.
Proof. unfold node_bounds. simpl. by destruct (_ ≫= _). Qed.

Lemma node_bounds_cons_Some w a cs n b :
  nodes w !! a = Some n -> pos_aabb_os_ n = Some b ->
  node_bounds w (Some a :: cs) = b :: node_bounds w cs.
Proof. intros Hn Hb. unfold node_bounds. simpl. rewrite Hn. simpl. by rewrite Hb. Qed.

Lemma node_bounds_cons_None w a cs n :
  nodes w !! a = Some n -> pos_aabb_os_ n = None ->
  node_bounds w (Some a :: cs) = node_bounds w cs.
Proof. intros Hn Hb. unfold node_bounds. simpl. rewrite Hn. simpl. by rewrite Hb. Qed.

Lemma set_pos_aabb_os_twice o o' n :
  set_pos_aabb_os o (set_pos_aabb_os o' n) = set_pos_aabb_os o n.
Proof. reflexivity. Qed.

Lemma node_bounds_ext w w' cs :
  (forall a, Some a ∈ cs -> nodes w' !! a = nodes w !! a) ->
  node_bounds w' cs = node_bounds w cs.
Proof.
  induction cs as [|c cs IH]; intros H; [done|].
  rewrite (node_bounds_cons w'), (node_bounds_cons w), IH.
  - f_equal. destruct c as [a|]; [|done].
    unfold node_bounds. simpl. rewrite H; [done|by left].
  - intros a Ha. apply H. by right.
Qed.

Lemma pos_aabb_os_union_Ok w this nr acc b :
  nodes w !! this = Some nr -> pos_aabb_os_ nr = Some acc ->
  pos_aabb_os_union w this b
  = Ok (store w this (set_pos_aabb_os (Some (aabb_union acc b)) nr)).
Proof.
  intros Hn Ho. unfold pos_aabb_os_union, deref. rewrite Hn. cbn [bind].
  by rewrite Ho.
Qed.

(** The loop over the drawables after the first. *)
Lemma UpdatePosBound_drawables this :
  forall rs w nr acc,
    nodes w !! this = Some nr -> pos_aabb_os_ nr = Some acc ->
    Forall (valid_renderable w) rs ->
    foldM (fun w r => let* b := PosBound w r in pos_aabb_os_union w this b) rs w
    = Ok (store w this
            (set_pos_aabb_os (Some (foldl aabb_union acc (drawable_bounds w rs))) nr)).
Proof.
  induction rs as [|r rs IH]; intros w nr acc Hn Ho Hv; cbn [foldM].
  - simpl. by rewrite set_pos_aabb_os_id, store_id.
  - apply Forall_cons in Hv as [Hr Hv].
    destruct (PosBound_valid w r Hr) as (b & Hb & Hb1). rewrite Hb. cbn [bind].
    rewrite (pos_aabb_os_union_Ok w this nr acc b Hn Ho). cbn [bind].
    rewrite (IH _ (set_pos_aabb_os (Some (aabb_union acc b)) nr) (aabb_union acc b));
      [|apply lookup_insert_eq|done|done].
    rewrite store_store, drawable_bounds_cons, Hb1. simpl. done.
Qed.

Lemma bound_computable_evolves P w w' a :
  evolves Q_bound P eq w w' -> nodes w !! a <> None ->
  bound_computable w a -> bound_computable w' a.
Proof.
  intros (N & _ & Dr & _) Ha Hc n' Hn' Hd Ho.
  destruct (nodes w !! a) as [n|] eqn:Hn; [|done].
  destruct (N _ _ Hn) as (n'' & Hn'' & o & d & -> & Hpo & Hpd).
  assert (n' = set_pos_aabb_dirty d (set_pos_aabb_os o n)) as -> by congruence.
  simpl in *. destruct (Hc n Hn) as [Hne Hv].
  - destruct (pos_aabb_dirty_ n); [done|]. rewrite Hpd in Hd; done.
  - congruence.
  - split; [done|]. eapply Forall_impl; [exact Hv|].
    intros r (ra & dr & -> & Hdr). destruct (Dr _ _ Hdr) as (d' & Hd' & <-).
    by exists ra, dr.
Qed.

Lemma shape_root_present w t : shape w t -> nodes w !! root t <> None.
Proof. destruct t. intros (n & Hn & _)%shape_inv. simpl. congruence. Qed.

Lemma shape_nodes_present w t a : shape w t -> a ∈ preorder t -> nodes w !! a <> None.
Proof.
  revert a. induction t as [r kids IH] using tree_induction. intros a Hs Ha.
  apply shape_inv in Hs as (n & Hn & Hc & Hkids). simpl in Ha.
  apply elem_of_cons in Ha as [->|Ha]; [congruence|].
  apply list_elem_of_In, in_concat in Ha as (l & Hl & Hal).
  apply in_map_iff in Hl as (k & <- & Hk).
  apply list_elem_of_In in Hk, Hal. rewrite Forall_forall in IH, Hkids. eauto.
Qed.

(** The loop over the children, as a footprint. *)
Lemma UpdatePosBound_children_evolves fuel this cs w w' :
  foldM (fun w (child : SceneNodePtr) =>
           let* c := nonnull child in
           let* cn := deref w c in
           match pos_aabb_os_ cn with
           | Some _ =>
             let* w := UpdatePosBound fuel w c in
             let* cn := deref w c in
             let* b := nonnull (pos_aabb_os_ cn) in
             pos_aabb_os_union w this b
           | None => Ok w
           end) cs w = Ok w' ->
  evolves Q_bound no_node eq w w'.
Proof.
  intros H. ev_foldM H.
  intros w0 c w0' _ Hc. inv_bind Hc as ca Hca. inv_bind Hc as cn Hcn.
  destruct (pos_aabb_os_ cn); [|injection Hc as <-; ev_refl].
  inv_bind Hc as w3 H3. inv_bind Hc as cn' Hcn'. inv_bind Hc as b Hb.
  ev_via w3; [by eapply UpdatePosBound_evolves|by eapply pos_aabb_os_union_evolves].
Qed.

Lemma evolves_eq_drawables Q P w w' :
  evolves Q P eq w w' -> drawables w' = drawables w.
Proof.
  intros (_ & _ & Dr & E). apply map_eq. intros r.
  destruct (drawables w !! r) as [d|] eqn:Hd; [|by apply E].
  by destruct (Dr _ _ Hd) as (d' & -> & <-).
Qed.

Lemma drawable_bounds_ext w w' rs :
  drawables w' = drawables w -> drawable_bounds w' rs = drawable_bounds w rs.
Proof. unfold drawable_bounds. by intros ->. Qed.

Lemma valid_renderable_ext w w' r :
  drawables w' = drawables w -> valid_renderable w r -> valid_renderable w' r.
Proof. unfold valid_renderable. by intros ->. Qed.

Lemma Q_bound_os n n' b :
  Q_bound n n' -> pos_aabb_os_ n = Some b -> exists b', pos_aabb_os_ n' = Some b'.
Proof.
  intros (o & d & -> & Ho & _) Hb. rewrite Hb in Ho. simpl.
  destruct o; [eauto|done].
Qed.

End Bounds.

(** ** Trees without cycles *)

Section Acyclic.
Context {ML : MathLib}.

(** The store decides the tree below an address. *)
Lemma shape_unique w :
  forall t1 t2, shape w t1 -> shape w t2 -> root t1 = root t2 -> t1 = t2.
Proof.
  induction t1 as [a kids IH] using tree_induction. intros [a2 kids2] H1 H2 Hr.
  simpl in Hr. subst a2.
  apply shape_inv in H1 as (n & Hn & Hc & Hk).
  apply shape_inv in H2 as (n2 & Hn2 & Hc2 & Hk2).
  assert (n2 = n) as -> by congruence. f_equal.
  rewrite Hc in Hc2. clear Hn Hn2 Hc n.
  revert kids2 Hc2 Hk2.
  induction kids as [|k kids IHk]; intros [|k2 kids2] Hc2 Hk2; try done.
  apply Forall_cons in IH as [IHk0 IH]. apply Forall_cons in Hk as [Hk0 Hk].
  apply Forall_cons in Hk2 as [Hk20 Hk2]. simpl in Hc2.
  injection Hc2 as Hr Hc2. f_equal; [by apply IHk0|by apply IHk].
Qed.

(** A node of a tree heads a tree of its own, within the tree. *)
Lemma shape_subtree w :
  forall t x, shape w t -> x ∈ preorder t ->
    exists tx, root tx = x /\ shape w tx /\ (height tx <= height t)%nat
               /\ forall y, y ∈ preorder tx -> y ∈ preorder t.
Proof.
  induction t as [a kids IH] using tree_induction. intros x Hs Hx.
  simpl in Hx. apply elem_of_cons in Hx as [->|Hx].
  { exists (Tree a kids). by repeat split. }
  apply shape_inv in Hs as (n & Hn & Hc & Hk).
  apply list_elem_of_In, in_concat in Hx as (l & Hl & Hxl).
  apply in_map_iff in Hl as (k & <- & Hkin).
  apply list_elem_of_In in Hkin, Hxl. rewrite Forall_forall in IH, Hk.
  destruct (IH k Hkin x (Hk k Hkin) Hxl) as (tx & Hr & Hsx & Hh & Hsub).
  exists tx. split; [done|]. split; [done|]. split.
  - pose proof (height_kids a kids k Hkin). lia.
  - intros y Hy. eapply preorder_kid; [exact Hkin|]. by apply Hsub.
Qed.

(** A tree in the store has no cycle: a node is not below itself. *)
Lemma shape_acyclic w a kids :
  shape w (Tree a kids) -> a ∉ concat (map preorder kids).
Proof.
  intros Hs Ha. apply shape_inv in Hs as Hinv. destruct Hinv as (n & Hn & Hc & Hk).
  apply list_elem_of_In, in_concat in Ha as (l & Hl & Hal).
  apply in_map_iff in Hl as (k & <- & Hkin).
  apply list_elem_of_In in Hkin, Hal. rewrite Forall_forall in Hk.
  destruct (shape_subtree w k a (Hk k Hkin) Hal) as (ta & Hr & Hsa & Hh & _).
  assert (ta = Tree a kids) as -> by (by apply (shape_unique w)).
  pose proof (height_kids a kids k Hkin). lia.
Qed.

(** The children of a node of a tree are nodes of the tree. *)
Lemma shape_children_in w t x n c :
  shape w t -> x ∈ preorder t -> nodes w !! x = Some n -> Some c ∈ children_ n ->
  c ∈ preorder t.
Proof.
  intros Hs Hx Hn Hc.
  destruct (shape_subtree w t x Hs Hx) as ([a kids] & Hr & Hsx & _ & Hsub).
  simpl in Hr. subst a. apply shape_inv in Hsx as (n' & Hn' & Hc' & _).
  assert (n' = n) as -> by congruence. rewrite Hc' in Hc.
  apply list_elem_of_fmap in Hc as (k & [= ->] & Hk).
  apply Hsub. eapply preorder_kid; [exact Hk|]. apply root_in_preorder.
Qed.

(** A tree is laid out in every store that agrees on its nodes. *)
Lemma shape_agree w w' :
  forall t, (forall a, a ∈ preorder t -> nodes w' !! a = nodes w !! a) ->
    shape w t -> shape w' t.
Proof.
  induction t as [a kids IH] using tree_induction. intros Hag Hs.
  apply shape_inv in Hs as (n & Hn & Hc & Hk).
  econstructor; [|exact Hc|].
  - rewrite Hag; [done|]. simpl. by left.
  - rewrite Forall_forall in *. intros k Hkin. apply IH; [done| |by apply Hk].
    intros x Hx. apply Hag. eapply preorder_kid; [exact Hkin|done].
Qed.

End Acyclic.

(** ** The bound, node by node *)

Section Recomputed.
Context {ML : MathLib}.

Lemma bound_after_dirty w n : pos_aabb_dirty_ (bound_after w n) = false.
Proof. unfold bound_after. by destruct (pos_aabb_dirty_ n) eqn:E. Qed.

Lemma bound_after_ext w1 w2 m :
  drawables w2 = drawables w1 ->
  (forall c, Some c ∈ children_ m -> nodes w2 !! c = nodes w1 !! c) ->
  bound_after w2 m = bound_after w1 m.
Proof.
  intros Hd Hc. unfold bound_after, union_of_own_and_child_bounds.
  by rewrite (drawable_bounds_ext w1 w2), (node_bounds_ext w1 w2).
Qed.

Lemma children_bounds_clean_ext w1 w2 m :
  (forall c, Some c ∈ children_ m -> nodes w2 !! c = nodes w1 !! c) ->
  children_bounds_clean w1 m -> children_bounds_clean w2 m.
Proof. intros Hc H c cn Hin Hcn. rewrite Hc in Hcn by done. by eapply H. Qed.

(** A node that is clean, or tracks no bound, is left as it is. *)
Lemma bound_recomputed_fixed w w' x m :
  bound_recomputed w w' x -> nodes w !! x = Some m ->
  pos_aabb_dirty_ m = false \/ pos_aabb_os_ m = None ->
  nodes w' !! x = Some m.
Proof.
  intros H Hm Hfix. destruct (H m Hm) as [?|(Hd & Hp & _)]; [done|].
  destruct Hfix as [Hf|Hf]; [congruence|]. by rewrite Hf in Hp.
Qed.

(** What has been recomputed stays recomputed while the clean nodes and
    the nodes without bound are left alone. *)
Lemma recomputed_stable w1 w' x m :
  nodes w1 !! x = Some (bound_after w1 m) ->
  children_bounds_clean w1 m ->
  drawables w' = drawables w1 ->
  (forall c, Some c ∈ children_ m -> nodes w1 !! c <> None) ->
  (forall y my, y = x \/ Some y ∈ children_ m -> nodes w1 !! y = Some my ->
     pos_aabb_dirty_ my = false \/ pos_aabb_os_ my = None ->
     nodes w' !! y = Some my) ->
  nodes w' !! x = Some (bound_after w' m) /\ children_bounds_clean w' m.
Proof.
  intros Hx Hcl Hd Hpres Hfix.
  assert (forall c, Some c ∈ children_ m -> nodes w' !! c = nodes w1 !! c) as Hkids.
  { intros c Hc. destruct (nodes w1 !! c) as [mc|] eqn:Hmc; [|by destruct (Hpres c)].
    apply Hfix; [by right|done|].
    destruct (pos_aabb_os_ mc) eqn:Ho; [left|by right].
    eapply Hcl; [exact Hc|exact Hmc|by rewrite Ho]. }
  split.
  - rewrite (bound_after_ext w1 w') by done.
    apply Hfix; [by left|done|]. left. apply bound_after_dirty.
  - by apply (children_bounds_clean_ext w1).
Qed.

Lemma kids_children_in w kids x m c :
  Forall (shape w) kids -> x ∈ concat (map preorder kids) ->
  nodes w !! x = Some m -> Some c ∈ children_ m ->
  c ∈ concat (map preorder kids) /\ nodes w !! c <> None.
Proof.
  intros Hs Hx Hm Hc.
  apply list_elem_of_In, in_concat in Hx as (l & Hl & Hxl).
  apply in_map_iff in Hl as (k & <- & Hk).
  apply list_elem_of_In in Hk, Hxl. rewrite Forall_forall in Hs.
  pose proof (shape_children_in w k x m c (Hs k Hk) Hxl Hm Hc) as Hck.
  split; [|by eapply shape_nodes_present; [apply (Hs k Hk)|]].
  apply list_elem_of_In, in_concat. exists (preorder k).
  split; [|by apply list_elem_of_In]. apply in_map. by apply list_elem_of_In.
Qed.

(** The loop over the children. *)
Lemma UpdatePosBound_kids_recomputes fuel this :
  forall kids,
    Forall (UpdatePosBound_recomputes fuel) kids ->
    forall w nr acc,
      nodes w !! this = Some nr -> pos_aabb_os_ nr = Some acc ->
      Forall (shape w) kids ->
      this ∉ concat (map preorder kids) ->
      (forall a, a ∈ concat (map preorder kids) -> bound_computable w a) ->
      exists w',
        foldM (fun w (child : SceneNodePtr) =>
                 let* c := nonnull child in
                 let* cn := deref w c in
                 match pos_aabb_os_ cn with
                 | Some _ =>
                   let* w := UpdatePosBound fuel w c in
                   let* cn := deref w c in
                   let* b := nonnull (pos_aabb_os_ cn) in
                   pos_aabb_os_union w this b
                 | None => Ok w
                 end) (map (fun k => Some (root k)) kids) w = Ok w'
        /\ drawables w' = drawables w
        /\ nodes w' !! this
           = Some (set_pos_aabb_os
                     (Some (foldl aabb_union acc
                              (node_bounds w' (map (fun k => Some (root k)) kids))))
                     nr)
        /\ (forall a, a ∉ this :: concat (map preorder kids) ->
              nodes w' !! a = nodes w !! a)
        /\ (forall x, x <> this -> bound_recomputed w w' x)
        /\ (forall k cn, k ∈ kids -> nodes w' !! root k = Some cn ->
              present (pos_aabb_os_ cn) = true -> pos_aabb_dirty_ cn = false).
Proof.
  induction kids as [|k kids IH]; intros Hon w nr acc Hn Ho Hs Hthis Hcomp.
  { exists w. split; [done|]. split; [done|]. split.
    { simpl. by rewrite set_pos_aabb_os_id. }
    split; [done|]. split; [by intros x _ m Hm; left|].
    by intros k cn Hk%elem_of_nil. }
  apply Forall_cons in Hon as [Hk Hon]. apply Forall_cons in Hs as [Hsk Hs].
  simpl in Hthis. apply not_elem_of_app in Hthis as [Ht1 Ht2].
  assert (root k <> this) as Hrk.
  { intros Heq. apply Ht1. rewrite <- Heq. apply root_in_preorder. }
  cbn [map foldM nonnull bind].
  pose proof (shape_root_present w k Hsk) as Hroot.
  destruct (nodes w !! root k) as [cn|] eqn:Hcn; [clear Hroot|done].
  unfold deref at 1. rewrite Hcn. cbn [bind].
  assert (forall a, a ∈ preorder k -> a ∈ concat (map preorder (k :: kids))) as Hin1.
  { intros a Ha. simpl. apply elem_of_app. by left. }
  assert (forall a, a ∈ concat (map preorder kids) ->
                    a ∈ concat (map preorder (k :: kids))) as Hin2.
  { intros a Ha. simpl. apply elem_of_app. by right. }
  destruct (pos_aabb_os_ cn) as [bc|] eqn:Hoc.
  - destruct (Hk w Hsk) as (w1 & H1 & D1 & F1 & Rt1 & R1); [by auto|].
    rewrite H1. cbn [bind].
    pose proof (UpdatePosBound_evolves _ _ _ _ H1) as E1.
    pose proof E1 as (N1 & _).
    destruct (Rt1 cn Hcn) as [Hcn1 Hcl1].
    destruct (N1 _ _ Hcn) as (cn1 & Hcn1' & Qc).
    destruct (Q_bound_os _ _ _ Qc Hoc) as (b & Hb).
    assert (cn1 = bound_after w1 cn) as Ecn1 by congruence.
    assert (nodes w1 !! this = Some nr) as Hnr1 by (by rewrite F1).
    unfold deref at 1. rewrite Hcn1'. cbn [bind]. rewrite Hb. cbn [nonnull bind].
    rewrite (pos_aabb_os_union_Ok w1 this nr acc b Hnr1 Ho).
    set (nr2 := set_pos_aabb_os (Some (aabb_union acc b)) nr).
    set (w2 := store w1 this nr2).
    assert (evolves Q_bound no_node eq w w2) as E2.
    { ev_via w1; [done|]. subst w2. ev_store; [done|].
      exists (Some (aabb_union acc b)), (pos_aabb_dirty_ nr).
      split; [by destruct nr|]. by rewrite Ho. }
    destruct (IH Hon w2 nr2 (aabb_union acc b)) as (w' & H' & D' & T' & F' & R' & C').
    + apply lookup_insert_eq.
    + done.
    + eapply Forall_impl; [exact Hs|]. intros t.
      eapply shape_evolves; [apply Q_bound_children|exact E2].
    + done.
    + intros a Ha. eapply bound_computable_evolves; [exact E2| |by auto].
      apply list_elem_of_In, in_concat in Ha as (l & Hl & Hal).
      apply in_map_iff in Hl as (k' & <- & Hk').
      rewrite Forall_forall in Hs.
      eapply shape_nodes_present; [apply Hs|]; by apply list_elem_of_In.
    + (* what the rest of the loop leaves alone *)
      assert (forall y my, y <> this -> nodes w1 !! y = Some my ->
                pos_aabb_dirty_ my = false \/ pos_aabb_os_ my = None ->
                nodes w' !! y = Some my) as Hfix.
      { intros y my Hy Hmy Hf. eapply bound_recomputed_fixed; [by apply R'| |done].
        subst w2. simpl. by rewrite lookup_insert_ne. }
      assert (nodes w' !! root k = Some cn1) as Hcn'.
      { apply Hfix; [done|done|]. left. rewrite Ecn1. apply bound_after_dirty. }
      assert (forall x m, x ∈ preorder k -> nodes w !! x = Some m ->
                pos_aabb_dirty_ m = true ->
                nodes w1 !! x = Some (bound_after w1 m) ->
                children_bounds_clean w1 m ->
                nodes w' !! x = Some (bound_after w' m)
                /\ children_bounds_clean w' m) as Hstable.
      { intros x m Hx Hm Hd Hx1 Hcl.
        assert (forall c, Some c ∈ children_ m -> c ∈ preorder k) as Hck.
        { intros c Hc. by eapply (shape_children_in w k x m c). }
        apply (recomputed_stable w1); [done|done|by rewrite D'| |].
        - intros c Hc. specialize (Hck c Hc).
          pose proof (shape_nodes_present w k c Hsk Hck) as Hp.
          destruct (nodes w !! c) as [mc|] eqn:Hmc; [|done].
          destruct (N1 _ _ Hmc) as (mc1 & -> & _). done.
        - intros y my [->|Hy] Hmy Hf; (apply Hfix; [|done|done]).
          + intros ->. by apply Ht1.
          + intros ->. by apply Ht1, Hck. }
      exists w'. split; [exact H'|]. split; [by rewrite D'|]. split.
      { rewrite T'. subst nr2. rewrite set_pos_aabb_os_twice.
        apply (f_equal (fun x => Some (set_pos_aabb_os (Some x) nr))). cbn [map].
        transitivity (foldl aabb_union acc
                        (b :: node_bounds w' (map (fun k0 => Some (root k0)) kids)));
          [reflexivity|].
        f_equal. symmetry. eapply node_bounds_cons_Some; [exact Hcn'|exact Hb]. }
      split.
      { intros a Ha. apply not_elem_of_cons in Ha as [Hne Ha].
        simpl in Ha. apply not_elem_of_app in Ha as [Ha1 Ha2].
        rewrite F' by (apply not_elem_of_cons; done).
        subst w2. simpl. rewrite lookup_insert_ne by done. by apply F1. }
      split.
      { intros x Hx m Hm. destruct (decide (x = root k)) as [->|Hxk].
        - assert (m = cn) as -> by congruence.
          destruct (pos_aabb_dirty_ cn) eqn:Hdc.
          + right. split; [done|]. split; [by rewrite Hoc|].
            apply Hstable; [apply root_in_preorder|done|done|done|].
            apply Hcl1; [done|by rewrite Hoc].
          + left. rewrite Hcn', Ecn1. unfold bound_after. by rewrite Hdc.
        - destruct (R1 x Hxk m Hm) as [Hx1|(Hd & Hp & Hx1 & Hcl)].
          + apply R'; [done|]. subst w2. simpl. by rewrite lookup_insert_ne.
          + right. split; [done|]. split; [done|].
            apply Hstable; [|done|done|done|done].
            destruct (decide (x ∈ preorder k)) as [|Hnin]; [done|].
            rewrite (F1 _ Hnin), Hm in Hx1. injection Hx1 as Hx1.
            pose proof (bound_after_dirty w1 m) as Hbd. rewrite <- Hx1 in Hbd.
            congruence. }
      intros k' cn' Hk' Hcn'' Hp. apply elem_of_cons in Hk' as [->|Hk'].
      * assert (cn' = cn1) as -> by congruence. rewrite Ecn1. apply bound_after_dirty.
      * by eapply C'.
  - destruct (IH Hon w nr acc) as (w' & H' & D' & T' & F' & R' & C');
      [done|done|done|done|by auto|].
    assert (nodes w' !! root k = Some cn) as Hcn'.
    { eapply bound_recomputed_fixed; [by apply R'|done|by right]. }
    exists w'. split; [exact H'|]. split; [done|]. split.
    { rewrite T'.
      apply (f_equal (fun x => Some (set_pos_aabb_os (Some (foldl aabb_union acc x)) nr))).
      cbn [map]. symmetry. eapply node_bounds_cons_None; [exact Hcn'|exact Hoc]. }
    split.
    { intros a Ha. apply F'. apply not_elem_of_cons in Ha as [Hne Ha].
      simpl in Ha. apply not_elem_of_app in Ha as [Ha1 Ha2].
      by apply not_elem_of_cons. }
    split; [done|].
    intros k' cn' Hk' Hcn'' Hp. apply elem_of_cons in Hk' as [->|Hk'].
    + assert (cn' = cn) as -> by congruence. by rewrite Hoc in Hp.
    + by eapply C'.
Qed.

End Recomputed.

Section RecomputedTree.
Context {ML : MathLib}.

Lemma UpdatePosBound_tree_recomputes :
  forall fuel t, (height t <= fuel)%nat -> UpdatePosBound_recomputes fuel t.
Proof.
  induction fuel as [|fuel IH]; intros [a kids] Hh; [simpl in Hh; lia|].
  intros w Hs Hcomp. apply shape_inv in Hs as Hinv.
  destruct Hinv as (n & Hn & Hc & Hkids).
  pose proof (shape_acyclic w a kids Hs) as Hacyc.
  cbn [UpdatePosBound root]. unfold deref at 1. rewrite Hn. cbn [bind].
  destruct (pos_aabb_dirty_ n) eqn:Hd.
  2: { exists w. split; [done|]. split; [done|]. split; [done|]. split.
       - intros n0 Hn0. assert (n0 = n) as -> by congruence. split.
         + unfold bound_after. by rewrite Hd.
         + congruence.
       - intros x _ m Hm. by left. }
  destruct (pos_aabb_os_ n) as [o|] eqn:Ho.
  2: { cbn [bind]. unfold modify, deref. rewrite Hn. cbn [bind].
       eexists. split; [reflexivity|]. split; [done|]. split; [|split].
       - intros x Hx. simpl in Hx. apply not_elem_of_cons in Hx as [Hne _].
         simpl. by rewrite lookup_insert_ne.
       - intros n0 Hn0. assert (n0 = n) as -> by congruence. split.
         + simpl. rewrite lookup_insert_eq. unfold bound_after. by rewrite Hd, Ho.
         + intros _ Hp. by rewrite Ho in Hp.
       - intros x Hx m Hm. left. simpl. by rewrite lookup_insert_ne. }
  destruct (Hcomp a (root_in_preorder (Tree a kids)) n Hn Hd) as [Hne Hv];
    [by rewrite Ho|].
  destruct (renderables_ n) as [|r0 rs] eqn:Hr; [done|].
  apply Forall_cons in Hv as [Hr0 Hrs].
  destruct (PosBound_valid w r0 Hr0) as (b0 & Hb0 & Hb0').
  cbn [subscript lookup list_lookup bind drop]. rewrite Hb0. cbn [bind].
  rewrite (UpdatePosBound_drawables a rs _ (set_pos_aabb_os (Some b0) n) b0);
    [|apply lookup_insert_eq|done|done].
  cbn [bind]. rewrite store_store, set_pos_aabb_os_twice.
  change (drawable_bounds (store w a (set_pos_aabb_os (Some b0) n)) rs)
    with (drawable_bounds w rs).
  set (acc1 := foldl aabb_union b0 (drawable_bounds w rs)).
  set (nr1 := set_pos_aabb_os (Some acc1) n).
  set (w1 := store w a nr1).
  assert (evolves Q_bound no_node eq w w1) as E1.
  { subst w1. ev_store; [done|]. exists (Some acc1), (pos_aabb_dirty_ n).
    split; [by destruct n|]. split; [by rewrite Ho|congruence]. }
  rewrite Hc.
  destruct (UpdatePosBound_kids_recomputes fuel a kids) with (w := w1) (nr := nr1) (acc := acc1)
    as (w2 & H2 & D2 & T2 & F2 & R2 & C2).
  { apply Forall_forall. intros k Hk. apply IH.
    pose proof (height_kids a kids k Hk). lia. }
  { apply lookup_insert_eq. }
  { done. }
  { eapply Forall_impl; [exact Hkids|]. intros t.
    eapply shape_evolves; [apply Q_bound_children|exact E1]. }
  { done. }
  { intros x Hx. eapply bound_computable_evolves; [exact E1| |].
    - eapply shape_nodes_present; [exact Hs|]. simpl. by right.
    - apply Hcomp. simpl. by right. }
  rewrite H2. cbn [bind]. unfold modify, deref. rewrite T2. cbn [bind].
  set (n2 := set_pos_aabb_os _ nr1).
  set (w' := store w2 a (set_pos_aabb_dirty false n2)).
  assert (forall c, Some c ∈ children_ n -> nodes w' !! c = nodes w2 !! c) as Hkid.
  { intros c Hcin. subst w'. simpl. rewrite lookup_insert_ne; [done|]. intros <-.
    apply Hacyc. rewrite Hc in Hcin. apply list_elem_of_fmap in Hcin as (k & Hk & Hkin).
    injection Hk as ->. apply list_elem_of_In, in_concat.
    exists (preorder k). split.
    + apply in_map. by apply list_elem_of_In.
    + apply list_elem_of_In, root_in_preorder. }
  assert (children_bounds_clean w' n) as Hclean.
  { intros c cn Hcin Hcn Hp. rewrite Hkid in Hcn by done. rewrite Hc in Hcin.
    apply list_elem_of_fmap in Hcin as (k & [= ->] & Hkin). by eapply C2. }
  exists w'. split; [done|]. split; [done|]. split; [|split].
  - intros x Hx. simpl in Hx. apply not_elem_of_cons in Hx as Hx'.
    destruct Hx' as [Hne' Hx']. simpl. rewrite lookup_insert_ne by done.
    rewrite F2 by done. subst w1. simpl. by rewrite lookup_insert_ne.
  - intros n0 Hn0. assert (n0 = n) as -> by congruence. split; [|done].
    subst w'. simpl. rewrite lookup_insert_eq. f_equal.
    unfold bound_after. rewrite Hd, Ho. cbn [present].
    unfold union_of_own_and_child_bounds. rewrite Hr, Hc.
    rewrite (drawable_bounds_ext w) by done.
    rewrite drawable_bounds_cons, Hb0'. cbn [app]. rewrite foldl_app.
    rewrite <- Hc, (node_bounds_ext w2 (store w2 a (set_pos_aabb_dirty false n2)))
      by exact Hkid.
    rewrite Hc. by destruct n.
  - intros x Hx m Hm. simpl in Hx.
    assert (nodes w1 !! x = Some m) as Hm1.
    { subst w1. simpl. by rewrite lookup_insert_ne. }
    destruct (R2 x Hx m Hm1) as [Hx2|(Hdm & Hpm & Hx2 & Hcl)].
    + left. subst w'. simpl. by rewrite lookup_insert_ne.
    + right. split; [done|]. split; [done|].
      assert (x ∈ concat (map preorder kids)) as Hxin.
      { destruct (decide (x ∈ concat (map preorder kids))) as [|Hnin]; [done|].
        rewrite F2, Hm1 in Hx2 by (by apply not_elem_of_cons).
        injection Hx2 as Hx2.
        pose proof (bound_after_dirty w2 m) as Hbd. rewrite <- Hx2 in Hbd.
        congruence. }
      assert (forall c, Some c ∈ children_ m -> nodes w' !! c = nodes w2 !! c) as Hmk.
      { intros c Hcin. subst w'. simpl. rewrite lookup_insert_ne; [done|]. intros <-.
        apply Hacyc. by eapply (kids_children_in w kids x m). }
      split.
      * rewrite (bound_after_ext w2 w') by done.
        subst w'. simpl. by rewrite lookup_insert_ne.
      * by apply (children_bounds_clean_ext w2).
Qed.

End RecomputedTree.

Section LocalBound.
Context {ML : MathLib}.

(** [UpdatePosBound] on a dirty node that tracks a bound. *)
Lemma UpdatePosBound_recomputed_bound (w : World) (t : tree) (fuel : nat) (n : SceneNode) :
  shape w t ->
  (forall a, a ∈ preorder t -> bound_computable w a) ->
  (height t <= fuel)%nat ->
  nodes w !! root t = Some n ->
  present (pos_aabb_os_ n) = true -> pos_aabb_dirty_ n = true ->
  exists w' n',
    UpdatePosBound fuel w (root t) = Ok w'
    /\ nodes w' !! root t = Some n'
    /\ n' = set_pos_aabb_dirty false (set_pos_aabb_os (pos_aabb_os_ n') n)
    /\ pos_aabb_dirty_ n' = false
    /\ pos_aabb_os_ n' = union_of_own_and_child_bounds w' n'
    /\ (forall c cn, Some c ∈ children_ n -> nodes w !! c = Some cn ->
          exists cn',
            nodes w' !! c = Some cn'
            /\ if present (pos_aabb_os_ cn) then
                 pos_aabb_dirty_ cn' = false
                 /\ if pos_aabb_dirty_ cn then
                      cn' = set_pos_aabb_dirty false
                              (set_pos_aabb_os (pos_aabb_os_ cn') cn)
                      /\ pos_aabb_os_ cn' = union_of_own_and_child_bounds w' cn'
                    else cn' = cn
               else cn' = cn)
    /\ (forall x, x <> root t -> bound_recomputed w w' x)
    /\ (forall a, a ∉ preorder t -> nodes w' !! a = nodes w !! a)
    /\ drawables w' = drawables w.
Proof.
  intros Hs Hcomp Hh Hn Hp Hd.
  destruct (UpdatePosBound_tree_recomputes fuel t Hh w Hs Hcomp)
    as (w' & H' & D' & F' & Rt & R).
  destruct (Rt n Hn) as [Hn' Hcl]. specialize (Hcl Hd Hp).
  assert (forall m, pos_aabb_dirty_ m = true -> present (pos_aabb_os_ m) = true ->
            bound_after w' m
            = set_pos_aabb_dirty false
                (set_pos_aabb_os (pos_aabb_os_ (bound_after w' m)) m)
            /\ pos_aabb_os_ (bound_after w' m)
               = union_of_own_and_child_bounds w' (bound_after w' m)) as Hafter.
  { intros m Hdm Hpm. unfold bound_after. rewrite Hdm, Hpm. by split. }
  destruct (Hafter n Hd Hp) as [Heq Hos].
  exists w', (bound_after w' n). split; [done|]. split; [done|]. split; [done|].
  split; [apply bound_after_dirty|]. split; [done|]. split; [|done].
  intros c cn Hc Hcn.
  assert (c <> root t) as Hne.
  { intros ->. destruct t as [a kids]. simpl in *.
    apply (shape_acyclic w a kids Hs).
    apply shape_inv in Hs as (n0 & Hn0 & Hc0 & _).
    assert (n0 = n) as -> by congruence. rewrite Hc0 in Hc.
    apply list_elem_of_fmap in Hc as (k & [= Hk] & Hkin).
    apply list_elem_of_In, in_concat. exists (preorder k). split.
    - apply in_map. by apply list_elem_of_In.
    - rewrite Hk. apply list_elem_of_In, root_in_preorder. }
  destruct (R c Hne cn Hcn) as [Hc'|(Hdc & Hpc & Hc' & _)].
  - exists cn. split; [done|]. destruct (present (pos_aabb_os_ cn)) eqn:Hpc; [|done].
    pose proof (Hcl c cn Hc Hc' Hpc) as Hclean. split; [done|]. by rewrite Hclean.
  - exists (bound_after w' cn). split; [done|]. rewrite Hpc, Hdc.
    split; [apply bound_after_dirty|]. by apply Hafter.
Qed.

End LocalBound.

(** ** The dirty flag *)

Section DirtyFlag.
Context {ML : MathLib}.

Lemma bound_dirty_store w a n : bound_dirty (store w a n) a = Some (pos_aabb_dirty_ n).
Proof. unfold bound_dirty, store. simpl. by rewrite lookup_insert_eq. Qed.

Lemma UpdatePosBound_clean fuel w this n :
  nodes w !! this = Some n -> pos_aabb_dirty_ n = false ->
  UpdatePosBound (S fuel) w this = Ok w.
Proof.
  intros Hn Hd. cbn [UpdatePosBound]. unfold deref. rewrite Hn. cbn [bind].
  by rewrite Hd.
Qed.

End DirtyFlag.

(** ** The bound of a node, in general and on the scenes *)

Lemma two_boxes_world_bound (d1 d2 : @Renderable ZMath.math) :
  r_PosBound d1 = ZMath.cube (-1) 1 -> r_PosBound d2 = ZMath.cube 0 2 ->
  Examples.scene_two_boxes d1 d2 = Ok (ZMath.cube (-1) 2).
Proof.
  destruct d1, d2. simpl. intros -> ->. vm_compute. reflexivity.
Qed.

(** C3, as amended.  On a tree laid out in the store, for a node that
    tracks a bound, is marked dirty and has a drawable, [UpdatePosBound]
    returns, changes only boxes and dirty flags, and leaves as local-space
    bound of the node the union of the boxes of its own drawables and of
    the local-space bounds of its direct children that track a bound.
    Each such child is clean afterwards: it has been recomputed in the same
    way if it was dirty, and is as it was if it was clean; a child that
    tracks no bound is as it was.  Every other node is as it was, or was
    dirty with a bound and has been recomputed in the same way; the nodes
    outside the tree and the drawables are as they were.  In the scenario
    of two drawables with the boxes [[-1,1]^3] and [[0,2]^3] on a cullable
    root with the identity transform, the world-space bound after
    propagation is [[-1,2]^3]. *)
Theorem C3_bound_is_union_of_own_and_child_bounds :
  (forall (ML : MathLib) (w : World) (t : tree) (fuel : nat) (n : SceneNode),
      shape w t ->
      (forall a, a ∈ preorder t -> bound_computable w a) ->
      (height t <= fuel)%nat ->
      nodes w !! root t = Some n ->
      present (pos_aabb_os_ n) = true -> pos_aabb_dirty_ n = true ->
      exists w' n',
        UpdatePosBound fuel w (root t) = Ok w'
        /\ nodes w' !! root t = Some n'
        /\ n' = set_pos_aabb_dirty false (set_pos_aabb_os (pos_aabb_os_ n') n)
        /\ pos_aabb_dirty_ n' = false
        /\ pos_aabb_os_ n' = union_of_own_and_child_bounds w' n'
        /\ (forall c cn, Some c ∈ children_ n -> nodes w !! c = Some cn ->
              exists cn',
                nodes w' !! c = Some cn'
                /\ if present (pos_aabb_os_ cn) then
                     pos_aabb_dirty_ cn' = false
                     /\ if pos_aabb_dirty_ cn then
                          cn' = set_pos_aabb_dirty false
                                  (set_pos_aabb_os (pos_aabb_os_ cn') cn)
                          /\ pos_aabb_os_ cn' = union_of_own_and_child_bounds w' cn'
                        else cn' = cn
                   else cn' = cn)
        /\ (forall x, x <> root t -> bound_recomputed w w' x)
        /\ (forall a, a ∉ preorder t -> nodes w' !! a = nodes w !! a)
        /\ drawables w' = drawables w)
  /\ (forall d1 d2 : @Renderable ZMath.math,
        r_PosBound d1 = ZMath.cube (-1) 1 -> r_PosBound d2 = ZMath.cube 0 2 ->
        Examples.scene_two_boxes d1 d2 = Ok (ZMath.cube (-1) 2)).
Proof.
  split.
  - intros ML. apply UpdatePosBound_recomputed_bound.
  - apply two_boxes_world_bound.
Qed.

(** Proves [bound_computable w a] for every node of a closed scene. *)
Ltac solve_bound_computable :=
  let a := fresh "a" in
  let Ha := fresh "Ha" in
  let n := fresh "n" in
  let Hn := fresh "Hn" in
  intros a Ha n Hn _ _;
  repeat (apply elem_of_cons in Ha as [->|Ha];
          [vm_compute in Hn; injection Hn as <-;
           split; [discriminate|];
           repeat constructor; eexists _, _; split; reflexivity|]);
  by apply elem_of_nil in Ha.

(** On the scene of parent and child both nodes are dirty; the call on the
    parent recomputes the child first, to the box [[0,2]^3] of its
    drawable, and then the parent, to [[-1,2]^3]. *)
Lemma C3_parent_child_bound :
  exists w' n1 n2,
    UpdatePosBound 2%nat Examples.world_parent_child 1%positive = Ok w'
    /\ bound_dirty Examples.world_parent_child 1%positive = Some true
    /\ bound_dirty Examples.world_parent_child 2%positive = Some true
    /\ nodes w' !! 1%positive = Some n1
    /\ nodes w' !! 2%positive = Some n2
    /\ pos_aabb_dirty_ n1 = false
    /\ pos_aabb_dirty_ n2 = false
    /\ pos_aabb_os_ n1 = union_of_own_and_child_bounds w' n1
    /\ pos_aabb_os_ n2 = union_of_own_and_child_bounds w' n2
    /\ pos_aabb_os_ n2 = Some (ZMath.cube 0 2)
    /\ pos_aabb_os_ n1 = Some (ZMath.cube (-1) 2).
Proof.
  destruct (proj1 C3_bound_is_union_of_own_and_child_bounds ZMath.math
              Examples.world_parent_child Examples.tree_parent_child 2%nat
              (Examples.node_parent_child 1%positive))
    as (w' & n1 & H & Hn1 & _ & Hd1 & Ho1 & Hkids & _).
  - unfold Examples.tree_parent_child. solve_shape.
  - unfold Examples.tree_parent_child. solve_bound_computable.
  - vm_compute. lia.
  - vm_compute. reflexivity.
  - vm_compute; reflexivity.
  - vm_compute; reflexivity.
  - destruct (Hkids 2%positive (Examples.node_parent_child 2%positive))
      as (n2 & Hn2 & Hc).
    { apply (bool_decide_unpack _). vm_compute. exact I. }
    { vm_compute. reflexivity. }
    assert (present (pos_aabb_os_ (Examples.node_parent_child 2%positive)) = true)
      as Hp by (vm_compute; reflexivity).
    assert (pos_aabb_dirty_ (Examples.node_parent_child 2%positive) = true)
      as Hd by (vm_compute; reflexivity).
    rewrite Hp, Hd in Hc. destruct Hc as (Hd2 & _ & Ho2).
    assert (exists W m1 m2,
              UpdatePosBound 2%nat Examples.world_parent_child 1%positive = Ok W
              /\ nodes W !! 1%positive = Some m1
              /\ nodes W !! 2%positive = Some m2
              /\ pos_aabb_os_ m2 = Some (ZMath.cube 0 2)
              /\ pos_aabb_os_ m1 = Some (ZMath.cube (-1) 2))
      as (W & m1 & m2 & HW & Hm1 & Hm2 & Hv2 & Hv1).
    { exists Examples.world_recomputed, (Examples.node_recomputed 1%positive),
        (Examples.node_recomputed 2%positive).
      split; [vm_compute; reflexivity|].
      split; [vm_compute; reflexivity|]. split; [vm_compute; reflexivity|].
      split; vm_compute; reflexivity. }
    assert (Ok W = Ok w') as [= ->] by (rewrite <- HW; exact H).
    assert (Some m1 = Some n1) as [= ->] by (rewrite <- Hm1; exact Hn1).
    assert (Some m2 = Some n2) as [= ->] by (rewrite <- Hm2; exact Hn2).
    exists w', n1, n2. split; [exact H|]. split; [vm_compute; reflexivity|].
    split; [vm_compute; reflexivity|]. split; [exact Hn1|]. split; [exact Hn2|].
    split; [exact Hd1|]. split; [exact Hd2|]. split; [exact Ho1|].
    split; [exact Ho2|]. split; [exact Hv2|exact Hv1].
Defined.

(** Node 3 is a cullable descendant of node 1 and its bound [[5,6]^3] is up
    to date, but the bound recomputed for node 1 is [[0,1]^3], the box of
    its own drawable, and not the union [[0,6]^3]: node 2, between them,
    tracks no bound, and [UpdatePosBound] does not descend through it. *)
Lemma C3_cullable_descendant_left_out :
  exists w' n1 n3,
    Examples.recompute_hidden_descendant = Ok w'
    /\ nodes w' !! 1%positive = Some n1
    /\ nodes w' !! 3%positive = Some n3
    /\ (3%positive ∈ descendants Examples.tree_hidden_descendant
        /\ shape w' Examples.tree_hidden_descendant
        /\ cullable w' 3%positive = true)
    /\ renderables_ n1 = [Some 1%positive]
    /\ pos_aabb_dirty_ n1 = false
    /\ pos_aabb_os_ n3 = Some (ZMath.cube 5 6)
    /\ pos_aabb_os_ n1 = Some (ZMath.cube 0 1)
    /\ union_of_own_and_cullable_descendant_bounds w' Examples.tree_hidden_descendant
       = Some (ZMath.cube 0 6)
    /\ pos_aabb_os_ n1
       <> union_of_own_and_cullable_descendant_bounds w' Examples.tree_hidden_descendant.
Proof.
  eexists _, _, _.
  split; [vm_compute; reflexivity|].
  split; [vm_compute; reflexivity|].
  split; [vm_compute; reflexivity|].
  split.
  { split; [|split].
    - apply (bool_decide_unpack _). vm_compute. exact I.
    - unfold Examples.tree_hidden_descendant. solve_shape.
    - vm_compute. reflexivity. }
  split; [reflexivity|].
  split; [reflexivity|]. split; [reflexivity|]. split; [reflexivity|].
  split; [vm_compute; reflexivity|].
  vm_compute. discriminate.
Qed.

(** ** Hardware readiness and the main-thread update *)

Section Readiness.
Context {ML : MathLib}.

Lemma foldM_app {S X} (f : S -> X -> result S) xs ys s :
  foldM f (xs ++ ys) s = let* s' := foldM f xs s in foldM f ys s'.
Proof.
  revert s. induction xs as [|x xs IH]; intros s; simpl; [done|].
  destruct (f s x); simpl; [apply IH|done].
Qed.

Lemma set_hw_res_ready_id n : set_hw_res_ready (renderables_hw_res_ready_ n) n = n.
Proof. by destruct n. Qed.

Lemma not_becomes_ready_null w n i :
  renderables_ n !! i = Some None -> ~ becomes_ready w n i.
Proof.
  intros Hr (r & Hr' & _ & Hrep).
  pose proof (eq_trans (eq_sym Hr) Hr') as E. by injection E as <-.
Qed.

Lemma not_becomes_ready_marked w n i :
  renderables_hw_res_ready_ n !! i = Some true -> ~ becomes_ready w n i.
Proof.
  intros Hf (r & _ & Hf' & _).
  pose proof (eq_trans (eq_sym Hf) Hf') as E. discriminate.
Qed.

Lemma not_becomes_ready_pending w n i a d :
  renderables_ n !! i = Some (Some a) -> drawables w !! a = Some d ->
  r_HWResourceReady d = false -> ~ becomes_ready w n i.
Proof.
  intros Hr Hd Hrep (r & Hr' & _ & Hrep').
  pose proof (eq_trans (eq_sym Hr) Hr') as E. injection E as <-.
  simpl in Hrep'. rewrite Hd in Hrep'. congruence.
Qed.

(** The first loop of [MainThreadUpdate], after [k] rounds. *)
Lemma mark_hw_res_ready_loop this w n :
  nodes w !! this = Some n -> lock_step n ->
  (forall r, r ∈ renderables_ n -> r = None \/ valid_renderable w r) ->
  forall k, (k <= length (renderables_ n))%nat ->
    exists refreshed flags,
      foldM (mark_hw_res_ready this) (seq 0 k) (false, w)
      = Ok (refreshed, store w this (set_hw_res_ready flags n))
      /\ length flags = length (renderables_hw_res_ready_ n)
      /\ (forall i, flags !! i = Some true
                    <-> renderables_hw_res_ready_ n !! i = Some true
                        \/ ((i < k)%nat /\ becomes_ready w n i))
      /\ (refreshed = true <-> exists i, (i < k)%nat /\ becomes_ready w n i).
Proof.
  intros Hn Hl Hv. induction k as [|k IH]; intros Hk.
  { exists false, (renderables_hw_res_ready_ n). simpl.
    rewrite set_hw_res_ready_id, store_id by done.
    split; [done|]. split; [done|]. split.
    - intros i. split; [by left|]. intros [?|[? _]]; [done|lia].
    - split; [done|]. intros (i & ? & _). lia. }
  destruct IH as (refreshed & flags & Hloop & Hlen & Hflags & Href); [lia|].
  rewrite seq_S, foldM_app, Hloop. cbn [bind foldM plus].
  unfold mark_hw_res_ready. rewrite deref_store_eq. cbn [bind].
  cbn [renderables_ renderables_hw_res_ready_ set_hw_res_ready].
  destruct (renderables_ n !! k) as [r|] eqn:Hr;
    [|apply lookup_ge_None in Hr; lia].
  assert (forall i, (i < S k)%nat /\ becomes_ready w n i
                    <-> ((i < k)%nat /\ becomes_ready w n i)
                        \/ (i = k /\ becomes_ready w n k)) as Hsplit.
  { intros i. split.
    - intros [Hi Hb]. destruct (decide (i = k)) as [->|]; [by right|left].
      split; [lia|done].
    - intros [[Hi Hb]|[-> Hb]]; (split; [lia|done]). }
  assert (~ becomes_ready w n k ->
          exists refreshed' flags',
            Ok (refreshed, store w this (set_hw_res_ready flags n))
            = Ok (refreshed', store w this (set_hw_res_ready flags' n))
            /\ length flags' = length (renderables_hw_res_ready_ n)
            /\ (forall i, flags' !! i = Some true
                          <-> renderables_hw_res_ready_ n !! i = Some true
                              \/ ((i < S k)%nat /\ becomes_ready w n i))
            /\ (refreshed' = true <-> exists i, (i < S k)%nat /\ becomes_ready w n i))
    as Hsame.
  { intros Hnot. exists refreshed, flags. split; [done|]. split; [done|]. split.
    - intros i. rewrite Hflags, Hsplit. intuition.
    - rewrite Href. split.
      + intros (i & Hi & Hb). exists i. split; [lia|done].
      + intros (i & Hib). apply Hsplit in Hib as [[? ?]|[-> ?]]; [eauto|done]. }
  unfold subscript at 1. rewrite Hr. cbn [bind].
  destruct r as [a|]; [|by apply Hsame, not_becomes_ready_null].
  destruct (flags !! k) as [b|] eqn:Hb;
    [|apply lookup_ge_None in Hb; unfold lock_step in Hl; lia].
  unfold subscript. rewrite Hb. cbn [bind].
  destruct b.
  { apply Hsame. intros Hbec. apply Hflags in Hb as [Hb|[? _]]; [|lia].
    by eapply not_becomes_ready_marked. }
  assert (renderables_hw_res_ready_ n !! k = Some false) as Hold.
  { destruct (renderables_hw_res_ready_ n !! k) as [[|]|] eqn:E; [|done|].
    - assert (flags !! k = Some true) by (apply Hflags; by left). congruence.
    - apply lookup_ge_None in E. apply lookup_lt_Some in Hb. lia. }
  destruct (Hv (Some a)) as [?|(a' & d & [= <-] & Hd)];
    [by eapply list_elem_of_lookup_2|done|].
  unfold deref_renderable. simpl. rewrite Hd. cbn [bind].
  destruct (r_HWResourceReady d) eqn:Hrep;
    [|by eapply Hsame, not_becomes_ready_pending].
  assert (becomes_ready w n k) as Hbec.
  { exists (Some a). split; [done|]. split; [done|]. simpl. by rewrite Hd. }
  unfold assign. apply lookup_lt_Some in Hb as Hlt.
  apply Nat.ltb_lt in Hlt as Hltb. rewrite Hltb. cbn [bind].
  exists true, (<[k := true]> flags). rewrite store_store. split; [done|].
  split; [by rewrite length_insert|]. split.
  - intros i. rewrite Hsplit. destruct (decide (i = k)) as [->|Hne].
    + rewrite list_lookup_insert_eq by done. intuition.
    + rewrite list_lookup_insert_ne by done. rewrite Hflags. intuition.
  - split; [|done]. intros _. exists k. split; [lia|done].
Qed.

(** The first loop when nothing is pending: no round changes anything. *)
Lemma mark_hw_res_ready_idle this w n :
  nodes w !! this = Some n ->
  (forall i a, renderables_ n !! i = Some (Some a) ->
     renderables_hw_res_ready_ n !! i = Some true
     \/ (renderables_hw_res_ready_ n !! i = Some false
         /\ exists d, drawables w !! a = Some d /\ r_HWResourceReady d = false)) ->
  forall l refreshed,
    (forall i, i ∈ l -> (i < length (renderables_ n))%nat) ->
    foldM (mark_hw_res_ready this) l (refreshed, w) = Ok (refreshed, w).
Proof.
  intros Hn Hidle. induction l as [|i l IH]; intros refreshed Hl; [done|].
  cbn [foldM].
  assert (mark_hw_res_ready this (refreshed, w) i = Ok (refreshed, w)) as ->.
  { unfold mark_hw_res_ready, deref. rewrite Hn. cbn [bind].
    destruct (renderables_ n !! i) as [r|] eqn:Hr.
    2: { apply lookup_ge_None in Hr. specialize (Hl i ltac:(by left)). lia. }
    unfold subscript at 1. rewrite Hr. cbn [bind].
    destruct r as [a|]; [|done].
    destruct (Hidle i a Hr) as [Hf|(Hf & d & Hd & Hrep)];
      unfold subscript; rewrite Hf; cbn [bind]; [done|].
    unfold deref_renderable. rewrite Hd. cbn [bind]. by rewrite Hrep. }
  cbn [bind]. apply IH. intros j Hj. apply Hl. by right.
Qed.

Lemma reports_ready_evolves Q P w w' r :
  evolves Q P same_reports w w' -> reports_ready w' r = reports_ready w r.
Proof.
  intros (_ & _ & Dr & E). destruct r as [a|]; [|done]. simpl.
  destruct (drawables w !! a) as [d|] eqn:Hd.
  - destruct (Dr _ _ Hd) as (d' & -> & _ & Hrep & _). done.
  - by rewrite (E _ Hd).
Qed.

Section MainThread.
Variable invoke : callback -> addr -> float -> float -> World -> result World.
Hypothesis Hinvoke : callbacks_keep_readiness invoke.

Lemma MainThreadUpdate_after_loop_evolves fuel refreshed w this app_time elapsed_time r :
  MainThreadUpdate_after_loop invoke fuel refreshed w this app_time elapsed_time = Ok r ->
  r.1 = refreshed /\ evolves Q_readiness any_node same_reports w r.2.
Proof.
  unfold MainThreadUpdate_after_loop. intros H.
  inv_bind H as w1 H1. inv_bind H as n1 Hn1. inv_bind H as w2 H2.
  injection H as <-. split; [done|]. simpl. ev_via w1.
  - destruct refreshed; [|injection H1 as <-; ev_refl].
    inv_bind H1 as w3 H3. ev_via w3.
    + eapply evolves_weaken;
        [apply Q_hierarchy_readiness|done|apply eq_same_reports|].
      by eapply OnAttachRenderable_evolves.
    + eapply evolves_weaken; [apply Q_geometry_readiness|done|done|].
      by eapply UpdateAbsModelMatrix_evolves.
  - destruct (main_thread_update_func_ n1); [|injection H2 as <-; ev_refl].
    by eapply Hinvoke.
Qed.

(** The first loop of [MainThreadUpdate] returns; its flag [refreshed] is
    set exactly when some drawable was not marked ready and now reports
    ready; every such drawable is marked by the loop.  After a call that
    returned, no drawable of the node is pending any more, and a second
    call is the rest of the call with [refreshed = false]. *)
Lemma MainThreadUpdate_marks_ready
    (fuel : nat) (w : World) (this : addr) (n : SceneNode)
    (app_time elapsed_time : float) :
  nodes w !! this = Some n -> lock_step n ->
  (forall r, r ∈ renderables_ n -> r = None \/ valid_renderable w r) ->
  exists refreshed flags,
    (refreshed = true <-> exists i, becomes_ready w n i)
    /\ (forall i, flags !! i = Some true
                  <-> renderables_hw_res_ready_ n !! i = Some true
                      \/ becomes_ready w n i)
    /\ MainThreadUpdate invoke fuel w this app_time elapsed_time
       = MainThreadUpdate_after_loop invoke fuel refreshed
           (store w this (set_hw_res_ready flags n)) this app_time elapsed_time
    /\ forall r1 w1,
         MainThreadUpdate invoke fuel w this app_time elapsed_time = Ok (r1, w1) ->
         r1 = refreshed
         /\ exists n1,
              nodes w1 !! this = Some n1
              /\ renderables_ n1 = renderables_ n
              /\ renderables_hw_res_ready_ n1 = flags
              /\ (forall i, ~ becomes_ready w1 n1 i)
              /\ forall fuel2 app_time2 elapsed_time2,
                   MainThreadUpdate invoke fuel2 w1 this app_time2 elapsed_time2
                   = MainThreadUpdate_after_loop invoke fuel2 false w1 this
                       app_time2 elapsed_time2.
Proof.
  intros Hn Hl Hv.
  destruct (mark_hw_res_ready_loop this w n Hn Hl Hv (length (renderables_ n)))
    as (refreshed & flags & Hloop & Hlen & Hflags & Href); [done|].
  assert (forall i, (i < length (renderables_ n))%nat /\ becomes_ready w n i
                    <-> becomes_ready w n i) as Hrange.
  { intros i. split; [by intros [_ ?]|]. intros Hb. split; [|done].
    destruct Hb as (r & Hr & _). by eapply lookup_lt_Some. }
  assert (MainThreadUpdate invoke fuel w this app_time elapsed_time
          = MainThreadUpdate_after_loop invoke fuel refreshed
              (store w this (set_hw_res_ready flags n)) this app_time elapsed_time)
    as Hcall.
  { unfold MainThreadUpdate, deref at 1. rewrite Hn. cbn [bind]. by rewrite Hloop. }
  exists refreshed, flags. split; [|split; [|split; [exact Hcall|]]].
  { rewrite Href. split; intros (i & Hi); exists i;
      [exact (proj1 (Hrange i) Hi)|exact (proj2 (Hrange i) Hi)]. }
  { intros i. rewrite Hflags, Hrange. done. }
  intros r1 w1 Hret. rewrite Hcall in Hret.
  apply MainThreadUpdate_after_loop_evolves in Hret as [Hr1 E]. simpl in Hr1, E.
  split; [done|].
  pose proof E as (N & _ & Dr & _).
  destruct (N this _ (lookup_insert_eq _ _ _)) as (n1 & Hn1 & Hrs & Hfl).
  simpl in Hrs, Hfl.
  assert (forall r, reports_ready w1 r = reports_ready w r) as Hrep.
  { intros r. by rewrite (reports_ready_evolves _ _ _ _ r E). }
  assert (forall i, flags !! i = Some false -> ~ becomes_ready w n i) as Hpending.
  { intros i Hf Hb.
    assert (flags !! i = Some true) as Ht by (apply Hflags; right; by apply Hrange).
    congruence. }
  assert (forall i, ~ becomes_ready w1 n1 i) as Hnone.
  { intros i (r & Hr & Hf & Hr1'). rewrite Hrs in Hr. rewrite Hfl in Hf.
    apply (Hpending i Hf). exists r. split; [done|]. split; [|by rewrite <- Hrep].
    destruct (renderables_hw_res_ready_ n !! i) as [[|]|] eqn:Hold; [|done|].
    - assert (flags !! i = Some true) by (apply Hflags; by left). congruence.
    - apply lookup_ge_None in Hold. apply lookup_lt_Some in Hf. lia. }
  exists n1. split; [done|]. split; [done|]. split; [done|]. split; [done|].
  intros fuel2 app_time2 elapsed_time2.
  unfold MainThreadUpdate, deref at 1. rewrite Hn1. cbn [bind].
  rewrite (mark_hw_res_ready_idle this w1 n1 Hn1); [done| |].
  - intros i a Hr. rewrite Hfl.
    destruct (flags !! i) as [[|]|] eqn:Hf; [by left|right|].
    + split; [done|]. rewrite Hrs in Hr.
      destruct (Hv (Some a)) as [?|(a' & d & [= <-] & Hd)];
        [by eapply list_elem_of_lookup_2|done|].
      destruct (Dr _ _ Hd) as (d' & Hd' & _ & Hready & _).
      exists d'. split; [done|]. rewrite Hready.
      destruct (r_HWResourceReady d) eqn:Hrd; [|done].
      exfalso. apply (Hnone i). exists (Some a).
      rewrite Hrs, Hfl. split; [done|]. split; [done|].
      simpl. by rewrite Hd', Hready.
    + apply lookup_ge_None in Hf. apply lookup_lt_Some in Hr.
      rewrite Hrs in Hr. unfold lock_step, RenderablePtr in *. exfalso. lia.
  - intros i Hi. apply elem_of_seq in Hi. lia.
Qed.

End MainThread.

End Readiness.

(** * The remaining member functions *)

(** ** Membership in a subtree *)

Section SubTree.
Context {ML : MathLib}.

Lemma any_found_kids fuel w x kids :
  (forall k, k ∈ kids ->
     IsNodeInSubTree fuel w (root k) (Some x) = Ok (bool_decide (x ∈ preorder k))) ->
  any_found (fun child : SceneNodePtr =>
               let* c := nonnull child in IsNodeInSubTree fuel w c (Some x))
            (map (fun k => Some (root k)) kids)
  = Ok (bool_decide (x ∈ concat (map preorder kids))).
Proof.
  induction kids as [|k kids IH]; intros Hk; cbn [any_found map concat].
  - by rewrite bool_decide_eq_false_2 by apply not_elem_of_nil.
  - cbn [nonnull bind]. rewrite Hk by left. cbn [bind].
    destruct (decide (x ∈ preorder k)) as [Hx|Hx].
    + rewrite (bool_decide_eq_true_2 _ Hx).
      rewrite bool_decide_eq_true_2; [done|]. apply elem_of_app. by left.
    + rewrite (bool_decide_eq_false_2 _ Hx).
      rewrite IH by (intros k' Hin; apply Hk; by right).
      f_equal. apply bool_decide_ext. rewrite elem_of_app. tauto.
Qed.

Lemma any_found_null_kids fuel w kids :
  (forall k, k ∈ kids -> IsNodeInSubTree fuel w (root k) None = Ok false) ->
  any_found (fun child : SceneNodePtr =>
               let* c := nonnull child in IsNodeInSubTree fuel w c None)
            (map (fun k => Some (root k)) kids)
  = Ok false.
Proof.
  induction kids as [|k kids IH]; intros Hk; simpl; [done|].
  rewrite Hk by left. simpl. apply IH. intros k' Hin. apply Hk. by right.
Qed.

Lemma IsNodeInSubTree_tree fuel w node :
  forall t, shape w t -> (height t <= fuel)%nat ->
    IsNodeInSubTree fuel w (root t) node = Ok (in_subtree t node).
Proof.
  induction fuel as [|fuel IH]; intros [a kids] Hs Hh; [simpl in Hh; lia|].
  apply shape_inv in Hs as (n & Hn & Hc & Hkids).
  rewrite Forall_forall in Hkids.
  assert (forall k, k ∈ kids ->
            IsNodeInSubTree fuel w (root k) node = Ok (in_subtree k node)) as Hk.
  { intros k Hin. apply IH; [auto|]. pose proof (height_kids a kids k Hin). lia. }
  cbn [IsNodeInSubTree root]. destruct node as [x|].
  - cbn [in_subtree preorder]. case_bool_decide as Hx.
    + injection Hx as ->. rewrite bool_decide_eq_true_2; [done|]. by left.
    + unfold deref. rewrite Hn. cbn [bind]. rewrite Hc, any_found_kids by exact Hk.
      f_equal. apply bool_decide_ext. rewrite elem_of_cons.
      split; [tauto|]. intros [->|?]; [done|tauto].
  - rewrite bool_decide_eq_false_2 by done.
    unfold deref. rewrite Hn. cbn [bind]. rewrite Hc.
    by apply any_found_null_kids.
Qed.

(** X1.  On a tree laid out in the store, [IsNodeInSubTree(node)] returns,
    and it returns [true] exactly when [node] points to a node of the
    tree, the root included; for a null pointer it returns [false]. *)
Theorem X1_IsNodeInSubTree_is_membership
    (w : World) (t : tree) (fuel : nat) (node : option addr) :
  shape w t -> (height t <= fuel)%nat ->
  IsNodeInSubTree fuel w (root t) node = Ok (in_subtree t node).
Proof. intros. by apply IsNodeInSubTree_tree. Qed.

(** *** Lookup by name and membership *)

Lemma any_found_total {X} (f : X -> result bool) xs :
  Forall (fun x => exists b, f x = Ok b) xs -> exists b, any_found f xs = Ok b.
Proof.
  induction 1 as [|x xs (b & Hb) _ (b' & IH)]; simpl; [by eauto|].
  rewrite Hb. simpl. destruct b; eauto.
Qed.

Lemma any_found_true {X} (f : X -> result bool) l1 x l2 :
  Forall (fun y => exists b, f y = Ok b) l1 -> f x = Ok true ->
  any_found f (l1 ++ x :: l2) = Ok true.
Proof.
  induction 1 as [|y l1 (b & Hb) _ IH]; intros Hx; simpl.
  - by rewrite Hx.
  - rewrite Hb. simpl. destruct b; auto.
Qed.

Lemma first_found_None {X A} (g : X -> result (option A)) xs :
  first_found g xs = Ok None -> Forall (fun y => g y = Ok None) xs.
Proof.
  induction xs as [|x xs IH]; simpl; intros H; [constructor|].
  inv_bind H as r Hr. destruct r; [discriminate|]. constructor; auto.
Qed.

Lemma first_found_Some {X A} (g : X -> result (option A)) xs a :
  first_found g xs = Ok (Some a) ->
  exists l1 x l2, xs = l1 ++ x :: l2
                  /\ Forall (fun y => g y = Ok None) l1 /\ g x = Ok (Some a).
Proof.
  induction xs as [|x xs IH]; simpl; intros H; [discriminate|].
  inv_bind H as r Hr. destruct r as [a'|].
  - injection H as ->. exists [], x, xs. by repeat split.
  - destruct (IH H) as (l1 & y & l2 & -> & Hl1 & Hy).
    exists (x :: l1), y, l2. repeat split; [|done]. by constructor.
Qed.

(** A search by name that came back empty-handed has walked the whole
    subtree, so a search by address walks it as well. *)
Lemma FindFirstNode_None_walks fuel :
  forall w this name node,
    FindFirstNode fuel w this name = Ok None ->
    exists b, IsNodeInSubTree fuel w this node = Ok b.
Proof.
  induction fuel as [|fuel IH]; intros w this name node H; [discriminate|].
  cbn [FindFirstNode] in H. inv_bind H as n Hn.
  case_bool_decide; [discriminate|].
  cbn [IsNodeInSubTree]. case_bool_decide; [by eauto|].
  rewrite Hn. cbn [bind]. apply any_found_total.
  apply first_found_None in H. eapply Forall_impl; [exact H|].
  intros child Hc. simpl in Hc. inv_bind Hc as c Hcn. rewrite Hcn. simpl. eauto.
Qed.

Lemma FindFirstNode_found fuel :
  forall w this name a,
    FindFirstNode fuel w this name = Ok (Some a) ->
    IsNodeInSubTree fuel w this (Some a) = Ok true /\ Name w a = Ok name.
Proof.
  induction fuel as [|fuel IH]; intros w this name a H; [discriminate|].
  cbn [FindFirstNode] in H. inv_bind H as n Hn.
  cbn [IsNodeInSubTree]. case_bool_decide as Hname.
  - injection H as <-. rewrite bool_decide_eq_true_2 by done.
    split; [done|]. unfold Name. rewrite Hn. simpl. by rewrite Hname.
  - apply first_found_Some in H as (l1 & child & l2 & Hcs & Hl1 & Hchild).
    inv_bind Hchild as c Hc. destruct (IH _ _ _ _ Hchild) as [Hin Hnm].
    split; [|done]. case_bool_decide; [done|].
    rewrite Hn. cbn [bind]. rewrite Hcs. apply any_found_true.
    + eapply Forall_impl; [exact Hl1|]. intros y Hy. simpl in Hy.
      inv_bind Hy as cy Hcy. rewrite Hcy. simpl.
      by eapply FindFirstNode_None_walks.
    + rewrite Hc. simpl. exact Hin.
Qed.

Lemma FindAllNode_into_found fuel :
  forall w this found name l,
    FindAllNode_into fuel w this found name = Ok l ->
    (forall node, exists b, IsNodeInSubTree fuel w this node = Ok b)
    /\ exists l', l = found ++ l'
         /\ forall a, a ∈ l' ->
              IsNodeInSubTree fuel w this (Some a) = Ok true /\ Name w a = Ok name.
Proof.
  induction fuel as [|fuel IH]; intros w this found name l H; [discriminate|].
  cbn [FindAllNode_into] in H. inv_bind H as n Hn.
  set (found0 := if bool_decide (name_ n = name) then found ++ [this] else found) in H.
  assert (exists l0, found0 = found ++ l0
            /\ forall a, a ∈ l0 -> a = this /\ name_ n = name) as (l0 & Hf0 & Hl0).
  { subst found0. case_bool_decide.
    - exists [this]. split; [done|]. by intros a ->%list_elem_of_singleton.
    - exists []. rewrite app_nil_r. split; [done|]. by intros a ?%elem_of_nil. }
  clearbody found0.
  (* the loop over the children *)
  assert (Forall (fun child : SceneNodePtr =>
                    forall node, exists b,
                      (let* c := nonnull child in IsNodeInSubTree fuel w c node) = Ok b)
                 (children_ n)
          /\ exists l1, l = found0 ++ l1
               /\ forall a, a ∈ l1 ->
                    Name w a = Ok name
                    /\ exists k1 child k2, children_ n = k1 ++ child :: k2
                         /\ (let* c := nonnull child in
                             IsNodeInSubTree fuel w c (Some a)) = Ok true)
    as (Htot & l1 & Hl & Hl1).
  { clear Hf0 Hl0. revert found0 H.
    induction (children_ n) as [|child cs IHcs]; intros found0 H; cbn [foldM] in H.
    - injection H as <-. split; [constructor|]. exists []. rewrite app_nil_r.
      split; [done|]. by intros a ?%elem_of_nil.
    - inv_bind H as f1 Hf1. inv_bind Hf1 as c Hc.
      destruct (IH _ _ _ _ _ Hf1) as (Ht & lc & -> & Hlc).
      destruct (IHcs _ H) as (Hts & l1 & -> & Hl1). split.
      + constructor; [|done]. intros node. rewrite Hc. simpl. apply Ht.
      + exists (lc ++ l1). rewrite app_assoc. split; [done|].
        intros a [Ha|Ha]%elem_of_app.
        * destruct (Hlc a Ha) as [Hin Hnm]. split; [done|].
          exists [], child, cs. split; [done|]. rewrite Hc. simpl. exact Hin.
        * destruct (Hl1 a Ha) as (Hnm & k1 & ch & k2 & -> & Hch). split; [done|].
          by exists (child :: k1), ch, k2. }
  split.
  - intros node. cbn [IsNodeInSubTree]. case_bool_decide; [by eauto|].
    rewrite Hn. cbn [bind]. apply any_found_total.
    eapply Forall_impl; [exact Htot|]. intros child Hch. apply Hch.
  - exists (l0 ++ l1). rewrite Hl, Hf0, app_assoc. split; [done|].
    intros a [Ha|Ha]%elem_of_app.
    + destruct (Hl0 a Ha) as [-> Hnm]. cbn [IsNodeInSubTree].
      rewrite bool_decide_eq_true_2 by done. split; [done|].
      unfold Name. rewrite Hn. simpl. by rewrite Hnm.
    + destruct (Hl1 a Ha) as (Hnm & k1 & ch & k2 & Hcs & Hch). split; [|done].
      cbn [IsNodeInSubTree]. case_bool_decide; [done|].
      rewrite Hn. cbn [bind]. rewrite Hcs. apply any_found_true; [|exact Hch].
      rewrite Hcs in Htot. apply Forall_app in Htot as [Htot _].
      eapply Forall_impl; [exact Htot|]. intros child Hchild. apply Hchild.
Qed.

(** X2.  On any store, also one with shared or cyclic children: a node
    that [FindFirstNode] returns, and every node that [FindAllNode] returns,
    has the name that was asked for, and [IsNodeInSubTree] finds it below
    the node the search started from. *)
Theorem X2_found_nodes_are_in_the_subtree
    (fuel : nat) (w : World) (this : addr) (name : wstring) :
  (forall a, FindFirstNode fuel w this name = Ok (Some a) ->
     IsNodeInSubTree fuel w this (Some a) = Ok true /\ Name w a = Ok name)
  /\ (forall l a, FindAllNode fuel w this name = Ok l -> a ∈ l ->
        IsNodeInSubTree fuel w this (Some a) = Ok true /\ Name w a = Ok name).
Proof.
  split.
  - intros a. apply FindFirstNode_found.
  - intros l a H Ha. unfold FindAllNode in H.
    apply FindAllNode_into_found in H as (_ & l' & -> & Hl'). by apply Hl'.
Qed.

End SubTree.

(** ** The child list *)

Section ChildList.
Context {ML : MathLib}.

Lemma set_children_dirty_id n :
  set_children (children_ n) (set_pos_aabb_dirty (pos_aabb_dirty_ n) n) = n.
Proof. by destruct n. Qed.

Lemma Parent_store_children w this n cs d a :
  nodes w !! this = Some n ->
  Parent (store w this (set_children cs (set_pos_aabb_dirty d n))) a = Parent w a.
Proof.
  intros Hn. unfold Parent. destruct (decide (a = this)) as [->|Hne].
  - rewrite deref_store_eq. unfold deref. by rewrite Hn.
  - by rewrite deref_store_ne.
Qed.

(** What the three edits of the child list have in common. *)
Lemma child_list_edit w this node w' :
  AddChild w this node = Ok w' \/ RemoveChild w this node = Ok w'
  \/ ClearChildren w this = Ok w' ->
  exists n cs d,
    nodes w !! this = Some n
    /\ w' = store w this (set_children cs (set_pos_aabb_dirty d n)).
Proof.
  intros [H|[H|H]].
  - unfold AddChild in H. inv_bind H as n Hn. apply deref_Ok in Hn.
    injection H as <-. by eexists n, _, _.
  - unfold RemoveChild in H. inv_bind H as n Hn. apply deref_Ok in Hn.
    destruct (find_index node (children_ n)); injection H as <-.
    + by eexists n, _, _.
    + exists n, (children_ n), (pos_aabb_dirty_ n). split; [done|].
      by rewrite set_children_dirty_id, store_id.
  - unfold ClearChildren in H. inv_bind H as n Hn. apply deref_Ok in Hn.
    injection H as <-. by eexists n, _, _.
Qed.

(** X3.  After [AddChild(node)] the child vector is the old one with [node]
    at its end: [GetChildNode] at the old size returns [node], at a lower
    index what it returned before, and at a higher index it subscripts out
    of range. *)
Theorem X3_AddChild_then_GetChildNode
    (w : World) (this : addr) (node : SceneNodePtr) (w' : World) :
  AddChild w this node = Ok w' ->
  exists cs,
    Children w this = Ok cs
    /\ Children w' this = Ok (cs ++ [node])
    /\ GetChildNode w' this (Z.of_nat (length cs)) = Ok node
    /\ (forall i, (i < length cs)%nat ->
          GetChildNode w' this (Z.of_nat i) = GetChildNode w this (Z.of_nat i))
    /\ (forall i, (length cs < i)%nat ->
          GetChildNode w' this (Z.of_nat i) = Fault SubscriptOutOfRange).
Proof.
  intros H. unfold AddChild in H. inv_bind H as n Hn. injection H as <-.
  exists (children_ n). unfold Children, GetChildNode. rewrite Hn, deref_store_eq.
  cbn [bind children_ set_children]. split; [done|]. split; [done|].
  unfold subscript. split; [|split].
  - rewrite Nat2Z.id, lookup_app_r, Nat.sub_diag by done. done.
  - intros i Hi. by rewrite Nat2Z.id, lookup_app_l.
  - intros i Hi. rewrite Nat2Z.id, lookup_ge_None_2; [done|].
    rewrite length_app. simpl. lia.
Qed.

(** X4.  [AddChild], [RemoveChild] and [ClearChildren] write the node they
    are called on and no other: [Parent()] of every node, the child
    included, answers what it answered before, and the drawables and the
    registry of the scene manager are as they were. *)
Theorem X4_child_list_edits_leave_parent_pointers
    (w : World) (this : addr) (node : SceneNodePtr) (w' : World) :
  AddChild w this node = Ok w' \/ RemoveChild w this node = Ok w'
  \/ ClearChildren w this = Ok w' ->
  (forall a, Parent w' a = Parent w a)
  /\ (forall a, a <> this -> nodes w' !! a = nodes w !! a)
  /\ drawables w' = drawables w
  /\ scene_nodes_ w' = scene_nodes_ w.
Proof.
  intros H. apply child_list_edit in H as (n & cs & d & Hn & ->).
  split; [|split; [|done]].
  - intros a. by apply Parent_store_children.
  - intros a Hne. unfold store. simpl. by rewrite lookup_insert_ne.
Qed.

Lemma find_index_split {A} `{EqDecision A} (x : A) (v : list A) i :
  find_index x v = Some i ->
  v = take i v ++ x :: drop (S i) v /\ (x ∉ take i v)
  /\ delete i v = take i v ++ drop (S i) v.
Proof.
  intros H. unfold find_index in H.
  destruct (list_find (fun y => y = x) v) as [[j y]|] eqn:E; [|done].
  injection H as ->. apply list_find_Some in E as (Hi & -> & Hlt).
  split; [by rewrite take_drop_middle|]. split; [|apply delete_take_drop].
  intros Hin. apply list_elem_of_lookup in Hin as (j & Hj).
  apply lookup_take_Some in Hj as [Hj Hji]. by eapply Hlt.
Qed.

(** X5.  [RemoveChild] of a node that is among the children erases its
    first occurrence and only that: the children before it and after it
    stay, in their order. *)
Theorem X5_RemoveChild_erases_first_occurrence
    (w : World) (this : addr) (n : SceneNode) (node : SceneNodePtr) :
  nodes w !! this = Some n -> node ∈ children_ n ->
  exists l1 l2 w',
    children_ n = l1 ++ node :: l2 /\ (node ∉ l1)
    /\ RemoveChild w this node = Ok w'
    /\ Children w' this = Ok (l1 ++ l2).
Proof.
  intros Hn Hin. apply find_index_Some in Hin as (i & Hi & _).
  destruct (find_index_split _ _ _ Hi) as (Hsplit & Hnot & Hdel).
  exists (take i (children_ n)), (drop (S i) (children_ n)).
  unfold RemoveChild, deref. rewrite Hn. cbn [bind]. rewrite Hi.
  eexists. split; [done|]. split; [done|]. split; [reflexivity|].
  unfold Children. rewrite deref_store_eq. simpl. by rewrite Hdel.
Qed.

Lemma find_index_snoc {A} `{EqDecision A} (x : A) (v : list A) :
  x ∉ v -> find_index x (v ++ [x]) = Some (length v).
Proof.
  intros Hx.
  destruct (find_index_Some x (v ++ [x])) as (i & Hi & Hl & _).
  { apply elem_of_app. right. by left. }
  rewrite Hi. f_equal. destruct (decide (i < length v)%nat) as [Hlt|Hge].
  - rewrite lookup_app_l in Hl by done. exfalso. apply Hx.
    by eapply list_elem_of_lookup_2.
  - apply lookup_lt_Some in Hl. rewrite length_app in Hl. simpl in Hl. lia.
Qed.

Lemma delete_snoc {A} (v : list A) (x : A) : delete (length v) (v ++ [x]) = v.
Proof.
  rewrite delete_take_drop, take_app_length.
  rewrite drop_ge; [by rewrite app_nil_r|]. rewrite length_app. simpl. lia.
Qed.

(** X6.  [AddChild] of a node that is not yet a child followed by
    [RemoveChild] of the same node gives back the store it started from,
    but for the bound-dirty flag of the parent, which is set. *)
Theorem X6_AddChild_RemoveChild_round_trip
    (w : World) (this : addr) (n : SceneNode) (node : SceneNodePtr) :
  nodes w !! this = Some n -> node ∉ children_ n ->
  exists w1,
    AddChild w this node = Ok w1
    /\ RemoveChild w1 this node = Ok (store w this (set_pos_aabb_dirty true n)).
Proof.
  intros Hn Hnot. unfold AddChild, deref. rewrite Hn. cbn [bind].
  eexists. split; [reflexivity|].
  unfold RemoveChild. rewrite deref_store_eq. cbn [bind children_ set_children].
  rewrite find_index_snoc by done. rewrite delete_snoc, store_store. done.
Qed.

End ChildList.

(** ** The drawable list *)

Section DrawableList.
Context {ML : MathLib}.

(** X7.  [AddRenderable] appends: on a node with fewer than [2^32 - 1]
    drawables [NumRenderables] grows by one, [GetRenderable(i)] at the old
    count was out of range and now returns the new drawable, and at lower
    indices it returns what it returned before. *)
Theorem X7_AddRenderable_then_GetRenderable
    (w : World) (this : addr) (n : SceneNode) (renderable : RenderablePtr) :
  nodes w !! this = Some n ->
  Z.of_nat (length (renderables_ n)) + 1 < 2 ^ 32 ->
  exists w',
    AddRenderable w this renderable = Ok w'
    /\ NumRenderables w this = Ok (Z.of_nat (length (renderables_ n)))
    /\ NumRenderables w' this = Ok (Z.of_nat (length (renderables_ n)) + 1)
    /\ GetRenderable_at w this (Z.of_nat (length (renderables_ n)))
       = Fault SubscriptOutOfRange
    /\ GetRenderable_at w' this (Z.of_nat (length (renderables_ n))) = Ok renderable
    /\ (forall i, 0 <= i < Z.of_nat (length (renderables_ n)) ->
          GetRenderable_at w' this i = GetRenderable_at w this i).
Proof.
  intros Hn Hlen. unfold AddRenderable, NumRenderables, GetRenderable_at, deref.
  rewrite Hn. cbn [bind]. eexists. split; [reflexivity|].
  unfold store. cbn [nodes]. rewrite lookup_insert_eq.
  cbn [bind renderables_ set_pos_aabb_dirty set_hw_res_ready set_renderables].
  unfold u32, subscript. rewrite length_app. cbn [length].
  rewrite !Z.mod_small by lia. split; [done|]. split; [f_equal; lia|].
  rewrite Nat2Z.id. split; [by rewrite lookup_ge_None_2|]. split.
  - by rewrite lookup_app_r, Nat.sub_diag.
  - intros i Hi. rewrite lookup_app_l by lia. done.
Qed.

(** X8.  [DelRenderable] of a drawable that the node does not hold leaves
    the whole store as it was.  On a node whose readiness flags are as many
    as its drawables, [AddRenderable] of such a drawable followed by
    [DelRenderable] gives back the store it started from, but for the
    bound-dirty flag, which is set. *)
Theorem X8_DelRenderable_absent_and_round_trip
    (w : World) (this : addr) (n : SceneNode) (renderable : RenderablePtr) :
  nodes w !! this = Some n -> renderable ∉ renderables_ n ->
  DelRenderable w this renderable = Ok w
  /\ (lock_step n ->
      exists w1,
        AddRenderable w this renderable = Ok w1
        /\ DelRenderable w1 this renderable
           = Ok (store w this (set_pos_aabb_dirty true n))).
Proof.
  intros Hn Hnot. split.
  - unfold DelRenderable, deref. rewrite Hn. cbn [bind].
    by rewrite find_index_None.
  - intros Hl. unfold AddRenderable, deref. rewrite Hn. cbn [bind].
    eexists. split; [reflexivity|].
    unfold DelRenderable. rewrite deref_store_eq.
    cbn [bind renderables_ renderables_hw_res_ready_ set_pos_aabb_dirty
         set_hw_res_ready set_renderables].
    rewrite find_index_snoc by done. unfold erase.
    unfold lock_step in Hl. rewrite <- Hl.
    rewrite length_app. cbn [length].
    assert ((length (renderables_hw_res_ready_ n)
             <? length (renderables_hw_res_ready_ n) + 1)%nat = true) as ->
      by (apply Nat.ltb_lt; lia).
    cbn [bind]. rewrite delete_snoc, Hl, delete_snoc, store_store.
    done.
Qed.

(** *** The per-drawable queries *)

Lemma first_renderable_flag_null f w this n rest :
  nodes w !! this = Some n -> renderables_ n = None :: rest ->
  first_renderable_flag f w this = Ok false.
Proof.
  intros Hn Hr. unfold first_renderable_flag, deref. rewrite Hn. cbn [bind].
  by rewrite Hr.
Qed.

Lemma first_renderable_flag_first f w this n a d rest :
  nodes w !! this = Some n -> renderables_ n = Some a :: rest ->
  drawables w !! a = Some d ->
  first_renderable_flag f w this = Ok (f d).
Proof.
  intros Hn Hr Hd. unfold first_renderable_flag, deref. rewrite Hn. cbn [bind].
  rewrite Hr. unfold subscript, deref_renderable. simpl. by rewrite Hd.
Qed.

Lemma flag_queries_forward q f :
  (q, f) ∈ flag_queries -> q = first_renderable_flag f.
Proof.
  unfold flag_queries. intros H.
  repeat (apply elem_of_cons in H as [[= -> ->]|H]; [reflexivity|]).
  by apply elem_of_nil in H.
Qed.

(** X9.  The per-drawable queries follow the first drawable through
    [AddRenderable].  On a node that has drawables, [AddRenderable] changes
    the answer of none of the seven queries, whatever flags the new
    drawable has.  On a node without drawable the queries subscript out of
    range, and after [AddRenderable] they answer the flag of the drawable
    that was added, or [false] if a null pointer was added. *)
Theorem X9_flag_queries_follow_the_first_drawable
    (w : World) (this : addr) (n : SceneNode) (renderable : RenderablePtr) :
  nodes w !! this = Some n ->
  exists w',
    AddRenderable w this renderable = Ok w'
    /\ forall q f, (q, f) ∈ flag_queries ->
         (renderables_ n <> [] -> q w' this = q w this)
         /\ (renderables_ n = [] ->
             q w this = Fault SubscriptOutOfRange
             /\ (renderable = None -> q w' this = Ok false)
             /\ (forall a d, renderable = Some a -> drawables w !! a = Some d ->
                   q w' this = Ok (f d))).
Proof.
  intros Hn. unfold AddRenderable, deref. rewrite Hn. cbn [bind].
  eexists. split; [reflexivity|]. intros q f Hq.
  rewrite (flag_queries_forward q f Hq). unfold first_renderable_flag.
  rewrite deref_store_eq. unfold deref. rewrite Hn. cbn [bind renderables_
    set_pos_aabb_dirty set_hw_res_ready set_renderables]. split.
  - intros Hne. destruct (renderables_ n) as [|r0 rest]; [done|].
    cbn [app subscript lookup list_lookup bind]. by destruct r0.
  - intros ->. cbn [app subscript lookup list_lookup bind]. split; [done|]. split.
    + by intros ->.
    + intros a d -> Hd. unfold deref_renderable. simpl. by rewrite Hd.
Qed.

(** *** The bound accessor *)

(** X10.  On a node that has its boxes exactly when its attributes ask for
    them, [PosBoundWS] returns the world-space box when the node is not an
    overlay and is cullable or moveable, and dereferences a null pointer
    when the node is an overlay or is neither cullable nor moveable. *)
Theorem X10_PosBoundWS_needs_a_tracked_bound
    (w : World) (this : addr) (n : SceneNode) :
  nodes w !! this = Some n -> bound_presence n ->
  (Z.land (attrib_ n) SOA_Overlay = 0
   /\ (Z.land (attrib_ n) SOA_Cullable <> 0 \/ Z.land (attrib_ n) SOA_Moveable <> 0)
   -> exists b, PosBoundWS w this = Ok b /\ pos_aabb_ws_ n = Some b)
  /\ (Z.land (attrib_ n) SOA_Overlay <> 0
      \/ (Z.land (attrib_ n) SOA_Cullable = 0 /\ Z.land (attrib_ n) SOA_Moveable = 0)
      -> PosBoundWS w this = Fault NullDereference).
Proof.
  intros Hn [_ Hws]. unfold PosBoundWS, deref. rewrite Hn. cbn [bind].
  pose proof (tracks_bound_spec (attrib_ n)) as Hspec. split.
  - intros H. apply Hspec in H. rewrite H in Hws.
    destruct (pos_aabb_ws_ n) as [b|]; [by eauto|done].
  - intros H. destruct (tracks_bound (attrib_ n)).
    + exfalso. destruct Hspec as [Hspec _]. specialize (Hspec eq_refl). tauto.
    + by destruct (pos_aabb_ws_ n).
Qed.

(** *** Setters forwarded to the drawables *)

Lemma modify_renderable_valid w r f :
  valid_renderable w r ->
  exists a d, r = Some a /\ drawables w !! a = Some d
              /\ modify_renderable w r f = Ok (store_renderable w a (f d)).
Proof.
  intros (a & d & -> & Hd). exists a, d. split; [done|]. split; [done|].
  unfold modify_renderable, deref_renderable. simpl. by rewrite Hd.
Qed.

Lemma valid_renderable_store w a d r :
  valid_renderable w r -> valid_renderable (store_renderable w a d) r.
Proof.
  intros (b & db & -> & Hb). destruct (decide (b = a)) as [->|Hne].
  - exists a, d. split; [done|]. apply lookup_insert_eq.
  - exists b, db. split; [done|]. unfold store_renderable. simpl.
    by rewrite lookup_insert_ne.
Qed.

(** A loop that calls one setter [f] on each drawable of a list. *)
Lemma setter_loop (g : World -> RenderablePtr -> result World)
    (f : Renderable -> Renderable) (nds : gmap addr SceneNode) rs :
  (forall w r, nodes w = nds -> g w r = modify_renderable w r f) ->
  forall w,
    nodes w = nds -> Forall (valid_renderable w) rs ->
    exists w',
      foldM g rs w = Ok w'
      /\ nodes w' = nds
      /\ scene_nodes_ w' = scene_nodes_ w
      /\ (forall a, Some a ∉ rs -> drawables w' !! a = drawables w !! a)
      /\ (forall a, Some a ∈ rs ->
            exists d k, drawables w !! a = Some d
                        /\ drawables w' !! a = Some (Nat.iter (S k) f d))
      /\ (forall r, valid_renderable w r -> valid_renderable w' r).
Proof.
  intros Hg. induction rs as [|r rs IH]; intros w Hw Hv; cbn [foldM].
  - exists w. split; [done|]. split; [done|]. split; [done|]. split; [done|].
    split; [|done]. by intros a ?%elem_of_nil.
  - apply Forall_cons in Hv as [Hr Hv].
    destruct (modify_renderable_valid w r f Hr) as (a & d & -> & Hd & Hm).
    rewrite Hg, Hm by done. cbn [bind].
    destruct (IH (store_renderable w a (f d))) as (w' & H' & N' & S' & O' & I' & V').
    { done. }
    { eapply Forall_impl; [exact Hv|]. intros r. apply valid_renderable_store. }
    exists w'. split; [done|]. split; [done|]. split; [done|]. split; [|split].
    + intros b Hb. apply not_elem_of_cons in Hb as [Hne Hb].
      rewrite O' by done. unfold store_renderable. simpl.
      rewrite lookup_insert_ne; [done|congruence].
    + intros b Hb. destruct (decide (Some b ∈ rs)) as [Hin|Hnin].
      * destruct (I' b Hin) as (d0 & k & Hd0 & Hd').
        unfold store_renderable in Hd0. simpl in Hd0.
        destruct (decide (b = a)) as [->|Hne].
        -- rewrite lookup_insert_eq in Hd0. injection Hd0 as <-.
           exists d, (S k). split; [done|]. rewrite Hd'.
           by rewrite <- !Nat.iter_succ_r.
        -- rewrite lookup_insert_ne in Hd0 by done. by exists d0, k.
      * apply elem_of_cons in Hb as [Hb|Hb]; [|done]. injection Hb as ->.
        exists d, 0%nat. split; [done|]. rewrite O' by done.
        unfold store_renderable. simpl. by rewrite lookup_insert_eq.
    + intros r Hr'. apply V'. by apply valid_renderable_store.
Qed.

Lemma iter_set_r_SelectMode b k d :
  r_SelectMode (Nat.iter (S k) (set_r_SelectMode b) d) = b.
Proof. done. Qed.

Lemma iter_set_r_ObjectID id k d :
  r_ObjectID (Nat.iter (S k) (set_r_ObjectID id) d) = id.
Proof. done. Qed.

(** X11.  On a node with at least one drawable, all of them in the store,
    [SelectMode(bool)] and [ObjectID(id)] return, reach every drawable of
    the node and no other drawable, and change no node; [SelectMode()]
    afterwards answers the flag that was set. *)
Theorem X11_SelectMode_and_ObjectID_reach_every_drawable
    (w : World) (this : addr) (n : SceneNode) (select_mode : bool) (id : Z) :
  nodes w !! this = Some n -> renderables_ n <> [] ->
  Forall (valid_renderable w) (renderables_ n) ->
  (exists w',
     SelectMode_set w this select_mode = Ok w'
     /\ SelectMode w' this = Ok select_mode
     /\ nodes w' = nodes w
     /\ (forall a, Some a ∈ renderables_ n ->
           r_SelectMode <$> drawables w' !! a = Some select_mode)
     /\ (forall a, Some a ∉ renderables_ n -> drawables w' !! a = drawables w !! a))
  /\ (exists w',
        ObjectID w this id = Ok w'
        /\ nodes w' = nodes w
        /\ (forall a, Some a ∈ renderables_ n ->
              r_ObjectID <$> drawables w' !! a = Some id)
        /\ (forall a, Some a ∉ renderables_ n ->
              drawables w' !! a = drawables w !! a)).
Proof.
  intros Hn Hne Hv. split.
  - destruct (setter_loop
                (fun w r => modify_renderable w r (set_r_SelectMode select_mode))
                (set_r_SelectMode select_mode) (nodes w) (renderables_ n))
      with (w := w) as (w' & H' & N' & _ & O' & I' & _); [done|done|done|].
    exists w'. unfold SelectMode_set, deref. rewrite Hn. cbn [bind].
    split; [done|]. split; [|split; [done|split; [|done]]].
    + destruct (renderables_ n) as [|r0 rest] eqn:Hr; [done|].
      apply Forall_cons in Hv as [(a & d & -> & Hd) _].
      destruct (I' a) as (d0 & k & Hd0 & Hd'); [by left|].
      unfold SelectMode.
      erewrite (first_renderable_flag_first r_SelectMode w' this n a);
        [|by rewrite N'|done|exact Hd'].
      by rewrite iter_set_r_SelectMode.
    + intros a Ha. by destruct (I' a Ha) as (d0 & k & Hd0 & ->).
  - destruct (setter_loop
                (fun w r => modify_renderable w r (set_r_ObjectID id))
                (set_r_ObjectID id) (nodes w) (renderables_ n))
      with (w := w) as (w' & H' & N' & _ & O' & I' & _); [done|done|done|].
    exists w'. unfold ObjectID, deref. rewrite Hn. cbn [bind].
    split; [done|]. split; [done|]. split; [|done].
    intros a Ha. by destruct (I' a Ha) as (d0 & k & Hd0 & ->).
Qed.

(** *** Null drawables *)

Lemma foldM_snoc_fault {S X} (g : S -> X -> result S) xs x s s' e :
  foldM g xs s = Ok s' -> g s' x = Fault e -> foldM g (xs ++ [x]) s = Fault e.
Proof.
  intros H Hx. rewrite foldM_app, H. cbn [bind foldM]. by rewrite Hx.
Qed.

Lemma setter_loop_null (f : Renderable -> Renderable) w rs :
  Forall (valid_renderable w) rs ->
  foldM (fun w r => modify_renderable w r f) (rs ++ [None]) w = Fault NullDereference.
Proof.
  intros Hv.
  destruct (setter_loop (fun w r => modify_renderable w r f) f (nodes w) rs)
    with (w := w) as (w' & H' & _); [done|done|done|].
  by eapply foldM_snoc_fault.
Qed.

Lemma UpdatePosBound_null_drawable fuel w this n rs :
  nodes w !! this = Some n -> renderables_ n = rs ++ [None] ->
  pos_aabb_dirty_ n = true -> present (pos_aabb_os_ n) = true ->
  Forall (valid_renderable w) rs ->
  UpdatePosBound (S fuel) w this = Fault NullDereference.
Proof.
  intros Hn Hr Hd Ho Hv. cbn [UpdatePosBound]. unfold deref at 1.
  rewrite Hn. cbn [bind]. rewrite Hd.
  destruct (pos_aabb_os_ n) as [os|] eqn:Hos; [|done]. rewrite Hr.
  destruct rs as [|r0 rs]; [done|].
  apply Forall_cons in Hv as [H0 Hv].
  destruct (PosBound_valid w r0 H0) as (b0 & Hb0 & _).
  cbn [app subscript lookup list_lookup bind]. rewrite Hb0. cbn [bind drop].
  set (w0 := store w this _).
  rewrite drop_0. erewrite foldM_snoc_fault; [done| |done].
  eapply (UpdatePosBound_drawables this rs w0); [apply lookup_insert_eq|done|].
  eapply Forall_impl; [exact Hv|]. by intros r (a & d & -> & Hd'); exists a, d.
Qed.

(** X12.  [AddRenderable] takes a null pointer; afterwards
    [SelectMode(bool)], [ObjectID], [Pass] and [UpdateAbsModelMatrix] on
    that node dereference it: their loops over the drawables have no null
    test. *)
Theorem X12_null_drawable_faults_the_setters
    (fuel : nat) (w : World) (this : addr) (n : SceneNode)
    (select_mode : bool) (id : Z) (type : PassType) :
  nodes w !! this = Some n ->
  Forall (valid_renderable w) (renderables_ n) ->
  (forall p, parent_ n = Some p -> nodes w !! p <> None) ->
  present (pos_aabb_ws_ n) = present (pos_aabb_os_ n) ->
  exists w1,
    AddRenderable w this None = Ok w1
    /\ SelectMode_set w1 this select_mode = Fault NullDereference
    /\ ObjectID w1 this id = Fault NullDereference
    /\ Pass fuel w1 this type = Fault NullDereference
    /\ UpdateAbsModelMatrix (S fuel) w1 this = Fault NullDereference.
Proof.
  intros Hn Hv Hp Hb. unfold AddRenderable, deref. rewrite Hn. cbn [bind].
  eexists. split; [reflexivity|].
  set (n1 := set_pos_aabb_dirty true _). set (w1 := store w this n1).
  assert (nodes w1 !! this = Some n1) as Hn1 by apply lookup_insert_eq.
  assert (Forall (valid_renderable w1) (renderables_ n)) as Hv1.
  { eapply Forall_impl; [exact Hv|]. by intros r (a & d & -> & Hd); exists a, d. }
  split; [|split; [|split]].
  - unfold SelectMode_set, deref. rewrite Hn1. cbn [bind].
    by apply setter_loop_null.
  - unfold ObjectID, deref. rewrite Hn1. cbn [bind]. by apply setter_loop_null.
  - unfold Pass, deref. rewrite Hn1. cbn [bind].
    change (renderables_ n1) with (renderables_ n ++ [None]).
    by rewrite setter_loop_null.
  - unfold UpdateAbsModelMatrix, deref at 1. rewrite Hn1. cbn [bind].
    change (parent_ n1) with (parent_ n).
    change (renderables_ n1) with (renderables_ n ++ [None]).
    change (pos_aabb_ws_ n1) with (pos_aabb_ws_ n).
    set (step := match parent_ n with Some p => _ | None => _ end).
    assert (exists m, step = Ok (store w1 this (set_abs_model m n1))) as (m & ->).
    { subst step. destruct (parent_ n) as [p|] eqn:Hpar; [|by eauto].
      unfold deref. destruct (nodes w1 !! p) as [pn|] eqn:Hpn; [by eauto|].
      exfalso. subst w1. unfold store in Hpn. simpl in Hpn.
      destruct (decide (p = this)) as [->|Hne].
      - by rewrite lookup_insert_eq in Hpn.
      - rewrite lookup_insert_ne in Hpn by done. by eapply Hp. }
    cbn [bind]. set (w2 := store w1 this _).
    assert (Forall (valid_renderable w2) (renderables_ n)) as Hv2.
    { eapply Forall_impl; [exact Hv|]. by intros r (a & d & -> & Hd); exists a, d. }
    destruct (renderables_ n ++ [None]) as [|r0 rest] eqn:Hrs.
    { by destruct (renderables_ n). }
    rewrite <- Hrs. clear r0 rest Hrs.
    destruct (pos_aabb_ws_ n) as [ws|] eqn:Hws.
    + erewrite UpdatePosBound_null_drawable; [done|apply lookup_insert_eq|..].
      * reflexivity.
      * done.
      * simpl. by rewrite <- Hb.
      * done.
    + cbn [bind].
      destruct (setter_loop
                  (fun w renderable =>
                     let* n := deref w this in
                     modify_renderable w renderable (set_r_ModelMatrix (abs_model_ n)))
                  (set_r_ModelMatrix m) (nodes w2) (renderables_ n))
        with (w := w2) as (w' & H' & N' & _); [|done|done|].
      { intros w0 r Hw0. unfold deref. rewrite Hw0. subst w2. unfold store.
        simpl. by rewrite lookup_insert_eq. }
      eapply foldM_snoc_fault; [exact H'|].
      unfold deref. rewrite N'. subst w2. unfold store. simpl.
      by rewrite lookup_insert_eq.
Qed.

End DrawableList.

(** ** Traversals that cannot finish *)

Section Stuck.
Context {ML : MathLib}.

(** A loop does not finish when one of its steps never does, whatever the
    steps before it leave behind. *)
Lemma foldM_stuck {S X} (g : S -> X -> result S) (I : S -> Prop) xs x :
  x ∈ xs ->
  (forall s y s', I s -> g s y = Ok s' -> I s') ->
  (forall s s', I s -> g s x <> Ok s') ->
  forall s s', I s -> foldM g xs s <> Ok s'.
Proof.
  intros Hx Hkeep Hstuck. induction xs as [|y xs IH]; intros s s' Hs H.
  - by apply elem_of_nil in Hx.
  - cbn [foldM] in H. inv_bind H as s1 H1.
    apply elem_of_cons in Hx as [->|Hx]; [by eapply Hstuck|].
    eapply IH; [done| |exact H]. by eapply Hkeep.
Qed.

Lemma has_child_evolves Q P D this child w w' :
  (forall n n', Q n n' -> children_ n' = children_ n) ->
  evolves Q P D w w' -> has_child this child w -> has_child this child w'.
Proof.
  intros HQ (N & _) (n & Hn & Hc). destruct (N _ _ Hn) as (n' & Hn' & Hq).
  exists n'. split; [done|]. by rewrite (HQ _ _ Hq).
Qed.

Lemma has_child_AddChild w this node w1 :
  AddChild w this node = Ok w1 -> has_child this node w1.
Proof.
  intros H. unfold AddChild in H. inv_bind H as n Hn. injection H as <-.
  eexists. split; [apply lookup_insert_eq|]. simpl. apply elem_of_app. right. by left.
Qed.

(** *** A null child *)

Lemma FindAllNode_into_null_child fuel w this found name l :
  has_child this None w -> FindAllNode_into fuel w this found name <> Ok l.
Proof.
  intros (n & Hn & Hc) H. destruct fuel as [|fuel]; [discriminate|].
  cbn [FindAllNode_into] in H. unfold deref in H. rewrite Hn in H. cbn [bind] in H.
  revert H. apply (foldM_stuck _ (fun _ => True) _ None); done.
Qed.

Lemma Visible_set_null_child fuel w this vis w' :
  has_child this None w -> Visible_set fuel w this vis <> Ok w'.
Proof.
  intros (n & Hn & Hc) H. destruct fuel as [|fuel]; [discriminate|].
  cbn [Visible_set] in H. unfold deref in H. rewrite Hn in H. cbn [bind] in H.
  revert H. apply (foldM_stuck _ (fun _ => True) _ None); done.
Qed.

Lemma AddToSceneManager_null_child fuel w this w' :
  has_child this None w -> AddToSceneManager fuel w this <> Ok w'.
Proof.
  intros (n & Hn & Hc) H. destruct fuel as [|fuel]; [discriminate|].
  cbn [AddToSceneManager] in H. unfold deref in H. rewrite Hn in H. cbn [bind] in H.
  revert H. apply (foldM_stuck _ (fun _ => True) _ None); done.
Qed.

Lemma DelFromSceneManager_null_child fuel w this w' :
  has_child this None w -> DelFromSceneManager fuel w this <> Ok w'.
Proof.
  intros (n & Hn & Hc) H. destruct fuel as [|fuel]; [discriminate|].
  cbn [DelFromSceneManager] in H. unfold deref in H. rewrite Hn in H.
  cbn [bind] in H. inv_bind H as w1 H1.
  revert H1. apply (foldM_stuck _ (fun _ => True) _ None); done.
Qed.

(** X13.  [AddChild] takes a null pointer; afterwards [FindAllNode],
    [Visible(bool)], [AddToSceneManager] and [DelFromSceneManager] on that
    node do not return normally, whatever the recursion bound: they
    dereference every child.  [FindFirstNode] for the name of the node
    itself and [IsNodeInSubTree] for the node itself still return, since
    they answer before they look at the children. *)
Theorem X13_null_child_stops_the_traversals
    (w : World) (this : addr) (w1 : World) :
  AddChild w this None = Ok w1 ->
  (forall fuel name l, FindAllNode fuel w1 this name <> Ok l)
  /\ (forall fuel vis w', Visible_set fuel w1 this vis <> Ok w')
  /\ (forall fuel w', AddToSceneManager fuel w1 this <> Ok w')
  /\ (forall fuel w', DelFromSceneManager fuel w1 this <> Ok w')
  /\ (forall fuel name,
        Name w1 this = Ok name ->
        FindFirstNode (S fuel) w1 this name = Ok (Some this)
        /\ IsNodeInSubTree (S fuel) w1 this (Some this) = Ok true).
Proof.
  intros H. apply has_child_AddChild in H as Hc.
  split; [|split; [|split; [|split]]].
  - intros fuel name l. by apply FindAllNode_into_null_child.
  - intros fuel vis w'. by apply Visible_set_null_child.
  - intros fuel w'. by apply AddToSceneManager_null_child.
  - intros fuel w'. by apply DelFromSceneManager_null_child.
  - intros fuel name Hname. unfold Name in Hname. inv_bind Hname as n Hn.
    injection Hname as <-. split.
    + cbn [FindFirstNode]. rewrite Hn. cbn [bind].
      by rewrite bool_decide_eq_true_2.
    + cbn [IsNodeInSubTree]. by rewrite bool_decide_eq_true_2.
Qed.

(** *** A node below itself *)

Lemma FindAllNode_into_own_child fuel :
  forall w this found name l,
    has_child this (Some this) w -> FindAllNode_into fuel w this found name <> Ok l.
Proof.
  induction fuel as [|fuel IH]; intros w this found name l Hc H; [discriminate|].
  destruct Hc as (n & Hn & Hin).
  cbn [FindAllNode_into] in H. unfold deref in H. rewrite Hn in H. cbn [bind] in H.
  revert H. apply (foldM_stuck _ (fun _ => True) _ (Some this)); [done..| |done].
  intros s s' _. cbn [nonnull bind]. apply IH. by exists n.
Qed.

Lemma Visible_set_own_child fuel vis :
  forall w this w',
    has_child this (Some this) w -> Visible_set fuel w this vis <> Ok w'.
Proof.
  induction fuel as [|fuel IH]; intros w this w' Hc H; [discriminate|].
  destruct Hc as (n & Hn & Hin).
  cbn [Visible_set] in H. unfold deref in H. rewrite Hn in H. cbn [bind] in H.
  revert H. apply (foldM_stuck _ (has_child this (Some this)) _ (Some this)).
  - done.
  - intros s y s' Hs Hy. inv_bind Hy as c Hcy.
    eapply has_child_evolves; [apply Q_attrib_children| |exact Hs].
    by eapply Visible_set_evolves.
  - intros s s' Hs. cbn [nonnull bind]. by apply IH.
  - eexists. split; [apply lookup_insert_eq|done].
Qed.

Lemma AddToSceneManager_own_child fuel :
  forall w this w',
    has_child this (Some this) w -> AddToSceneManager fuel w this <> Ok w'.
Proof.
  induction fuel as [|fuel IH]; intros w this w' Hc H; [discriminate|].
  destruct Hc as (n & Hn & Hin).
  cbn [AddToSceneManager] in H. unfold deref in H. rewrite Hn in H. cbn [bind] in H.
  revert H. apply (foldM_stuck _ (has_child this (Some this)) _ (Some this)).
  - done.
  - intros s y s' Hs Hy. inv_bind Hy as c Hcy.
    eapply has_child_evolves; [|by eapply AddToSceneManager_evolves|exact Hs].
    by intros ? ? ->.
  - intros s s' Hs. cbn [nonnull bind]. by apply IH.
  - by exists n.
Qed.

Lemma DelFromSceneManager_own_child fuel :
  forall w this w',
    has_child this (Some this) w -> DelFromSceneManager fuel w this <> Ok w'.
Proof.
  induction fuel as [|fuel IH]; intros w this w' Hc H; [discriminate|].
  destruct Hc as (n & Hn & Hin).
  cbn [DelFromSceneManager] in H. unfold deref in H. rewrite Hn in H.
  cbn [bind] in H. inv_bind H as w1 H1.
  revert H1. apply (foldM_stuck _ (has_child this (Some this)) _ (Some this)).
  - done.
  - intros s y s' Hs Hy. inv_bind Hy as c Hcy.
    eapply has_child_evolves; [|by eapply DelFromSceneManager_evolves|exact Hs].
    by intros ? ? ->.
  - intros s s' Hs. cbn [nonnull bind]. by apply IH.
  - by exists n.
Qed.

(** X14.  [AddChild] takes the node itself as its child; afterwards
    [FindAllNode], [Visible(bool)], [AddToSceneManager] and
    [DelFromSceneManager] on that node return for no recursion bound. *)
Theorem X14_own_child_traversals_never_return
    (w : World) (this : addr) (w1 : World) :
  AddChild w this (Some this) = Ok w1 ->
  (forall fuel name l, FindAllNode fuel w1 this name <> Ok l)
  /\ (forall fuel vis w', Visible_set fuel w1 this vis <> Ok w')
  /\ (forall fuel w', AddToSceneManager fuel w1 this <> Ok w')
  /\ (forall fuel w', DelFromSceneManager fuel w1 this <> Ok w').
Proof.
  intros H. apply has_child_AddChild in H as Hc. repeat split.
  - intros fuel name l. by apply FindAllNode_into_own_child.
  - intros fuel vis w'. by apply Visible_set_own_child.
  - intros fuel w'. by apply AddToSceneManager_own_child.
  - intros fuel w'. by apply DelFromSceneManager_own_child.
Qed.

End Stuck.

(** ** Visibility of a subtree *)

Section Visibility.
Context {ML : MathLib}.

Lemma shown_twice vis x : shown vis (shown vis x) = shown vis x.
Proof.
  destruct vis; simpl.
  - by rewrite <- Z.land_assoc, Z.land_diag.
  - by rewrite <- Z.lor_assoc, Z.lor_diag.
Qed.

Lemma testbit_uint32_high x i : uint32 x -> 32 <= i -> Z.testbit x i = false.
Proof.
  intros Hx Hi. rewrite <- (Z.mod_small x (2 ^ 32)) by exact Hx.
  apply Z.mod_pow2_bits_high. lia.
Qed.

Lemma shown_hide_then_show x :
  uint32 x -> Z.land x SOA_Invisible = 0 -> shown true (shown false x) = x.
Proof.
  intros Hx Hv. assert (Z.testbit x 3 = false) as H3.
  { pose proof (invisible_bit x) as Hb. rewrite Hv in Hb.
    destruct (Z.testbit x 3); [discriminate Hb|done]. }
  apply Z.bits_inj'. intros i Hi. unfold shown.
  rewrite Z.land_spec, Z.lor_spec, testbit_SOA_Invisible by done.
  destruct (decide (i < 32)) as [Hlt|Hge].
  - rewrite testbit_invisible_mask by lia.
    destruct (Z.eqb_spec i 3) as [->|Hne]; cbn [negb].
    + by rewrite H3, andb_false_r.
    + by rewrite orb_false_r, andb_true_r.
  - rewrite (testbit_uint32_high x i) by (done || lia).
    destruct (Z.eqb_spec i 3) as [->|Hne]; [lia|done].
Qed.

Lemma reached_twice vis n : reached vis (reached vis n) = reached vis n.
Proof. unfold reached. simpl. by rewrite shown_twice. Qed.

Lemma reached_on_shape vis l w w' t : reached_on vis l w w' -> shape w t -> shape w' t.
Proof.
  intros (_ & _ & N). apply shape_preserved. intros a n Hn.
  rewrite N, Hn. case_bool_decide; simpl; eauto.
Qed.

Lemma Visible_set_exact_kids fuel vis kids :
  Forall (fun k => forall w, shape w k ->
            exists w', Visible_set fuel w (root k) vis = Ok w'
                       /\ reached_on vis (preorder k) w w') kids ->
  forall w, Forall (shape w) kids ->
    exists w',
      foldM (fun w (child : SceneNodePtr) =>
               let* c := nonnull child in Visible_set fuel w c vis)
            (map (fun k => Some (root k)) kids) w = Ok w'
      /\ reached_on vis (concat (map preorder kids)) w w'.
Proof.
  induction 1 as [|k kids Hk _ IH]; intros w Hs; cbn [map foldM concat].
  - exists w. split; [done|]. split; [done|]. split; [done|]. intros a.
    by rewrite bool_decide_eq_false_2 by apply not_elem_of_nil.
  - apply Forall_cons in Hs as [Hsk Hs].
    destruct (Hk w Hsk) as (w1 & H1 & R1). cbn [nonnull bind]. rewrite H1.
    cbn [bind]. destruct (IH w1) as (w' & H' & R').
    { eapply Forall_impl; [exact Hs|]. intros t. by eapply reached_on_shape. }
    exists w'. split; [done|].
    destruct R1 as (D1 & S1 & N1), R' as (D' & S' & N').
    split; [congruence|]. split; [congruence|]. intros a. rewrite N', N1.
    destruct (decide (a ∈ preorder k)) as [Hk1|Hk1],
             (decide (a ∈ concat (map preorder kids))) as [Hk2|Hk2].
    + rewrite !bool_decide_eq_true_2; [|apply elem_of_app; by left|done|done].
      rewrite <- option_fmap_compose. apply option_fmap_ext. intros n.
      apply reached_twice.
    + rewrite (bool_decide_eq_false_2 _ Hk2), (bool_decide_eq_true_2 _ Hk1).
      rewrite bool_decide_eq_true_2; [done|]. apply elem_of_app. by left.
    + rewrite (bool_decide_eq_true_2 _ Hk2), (bool_decide_eq_false_2 _ Hk1).
      rewrite bool_decide_eq_true_2; [done|]. apply elem_of_app. by right.
    + rewrite (bool_decide_eq_false_2 _ Hk2), (bool_decide_eq_false_2 _ Hk1).
      rewrite bool_decide_eq_false_2; [done|]. rewrite elem_of_app. tauto.
Qed.

(** [Visible(vis)] on a tree, field by field. *)
Lemma Visible_set_exact vis :
  forall fuel t, (height t <= fuel)%nat ->
    forall w, shape w t ->
      exists w', Visible_set fuel w (root t) vis = Ok w'
                 /\ reached_on vis (preorder t) w w'.
Proof.
  induction fuel as [|fuel IH]; intros [a kids] Hh w Hs; [simpl in Hh; lia|].
  apply shape_inv in Hs as (n & Hn & Hc & Hkids).
  cbn [Visible_set root]. unfold deref. rewrite Hn. cbn [bind]. rewrite Hc.
  fold (shown vis (attrib_ n)). fold (reached vis n).
  set (w0 := store w a (reached vis n)).
  assert (reached_on vis [a] w w0) as R0.
  { split; [done|]. split; [done|]. intros x. subst w0. unfold store. simpl.
    destruct (decide (x = a)) as [->|Hne].
    - rewrite lookup_insert_eq, bool_decide_eq_true_2 by (by left).
      by rewrite Hn.
    - rewrite lookup_insert_ne by done.
      rewrite bool_decide_eq_false_2; [done|]. by intros ->%list_elem_of_singleton. }
  destruct (Visible_set_exact_kids fuel vis kids) with (w := w0) as (w' & H' & R').
  { apply Forall_forall. intros k Hk. apply IH.
    pose proof (height_kids a kids k Hk). lia. }
  { eapply Forall_impl; [exact Hkids|]. intros t. by eapply reached_on_shape. }
  exists w'. split; [done|].
  destruct R0 as (D0 & S0 & N0), R' as (D' & S' & N').
  split; [congruence|]. split; [congruence|]. intros x. rewrite N', N0.
  cbn [preorder].
  destruct (decide (x ∈ concat (map preorder kids))) as [Hk2|Hk2],
           (decide (x = a)) as [->|Hne].
  - rewrite !bool_decide_eq_true_2; [|by left|by left|done].
    rewrite <- option_fmap_compose. apply option_fmap_ext. intros m.
    apply reached_twice.
  - rewrite (bool_decide_eq_true_2 _ Hk2).
    rewrite (bool_decide_eq_false_2 (x ∈ [a])) by (by intros ->%list_elem_of_singleton).
    rewrite bool_decide_eq_true_2; [done|]. by right.
  - rewrite (bool_decide_eq_false_2 _ Hk2).
    by rewrite !bool_decide_eq_true_2 by (by left).
  - rewrite (bool_decide_eq_false_2 _ Hk2).
    rewrite (bool_decide_eq_false_2 (x ∈ [a])) by (by intros ->%list_elem_of_singleton).
    rewrite bool_decide_eq_false_2; [done|].
    rewrite elem_of_cons. tauto.
Qed.

Lemma World_eq (w w' : World) :
  nodes w' = nodes w -> drawables w' = drawables w ->
  scene_nodes_ w' = scene_nodes_ w -> w' = w.
Proof. destruct w, w'. simpl. by intros -> -> ->. Qed.

Lemma set_attrib_id n : set_attrib (attrib_ n) n = n.
Proof. by destruct n. Qed.

(** X15.  On a tree all of whose nodes are visible (and have attribute
    words of 32 bits), [Visible(false)] returns and hides every node of the
    tree, and [Visible(true)] after it gives back exactly the store from
    before. *)
Theorem X15_hide_then_show_restores_the_store
    (w : World) (t : tree) (fuel : nat) :
  shape w t -> (height t <= fuel)%nat ->
  (forall a n, a ∈ preorder t -> nodes w !! a = Some n ->
     uint32 (attrib_ n) /\ Visible w a = Ok true) ->
  exists w1,
    Visible_set fuel w (root t) false = Ok w1
    /\ (forall a, a ∈ preorder t -> Visible w1 a = Ok false)
    /\ Visible_set fuel w1 (root t) true = Ok w.
Proof.
  intros Hs Hh Hvis.
  destruct (Visible_set_exact false fuel t Hh w Hs) as (w1 & H1 & R1).
  pose proof (reached_on_shape _ _ _ _ _ R1 Hs) as Hs1.
  destruct (Visible_set_exact true fuel t Hh w1 Hs1) as (w2 & H2 & R2).
  destruct R1 as (D1 & S1 & N1), R2 as (D2 & S2 & N2).
  exists w1. split; [done|]. split.
  - intros a Ha. unfold Visible, deref. rewrite N1, bool_decide_eq_true_2 by done.
    pose proof (shape_nodes_present w t a Hs Ha) as Hp.
    destruct (nodes w !! a) as [n|]; [|done].
    cbn [fmap option_fmap option_map bind attrib_ reached set_attrib shown].
    by rewrite visible_after_set.
  - rewrite H2. f_equal. apply World_eq; [|congruence..].
    apply map_eq. intros a. rewrite N2, N1. case_bool_decide as Ha; [|done].
    destruct (nodes w !! a) as [n|] eqn:Hn; [|done].
    cbn [fmap option_fmap option_map]. f_equal.
    destruct (Hvis a n Ha Hn) as [Hu Hv].
    unfold Visible, deref in Hv. rewrite Hn in Hv. cbn [bind] in Hv.
    assert ((0 =? Z.land (attrib_ n) SOA_Invisible) = true) as Hz by congruence.
    clear Hv. apply Z.eqb_eq in Hz as Hv. symmetry in Hv.
    unfold reached. cbn [attrib_ set_attrib].
    rewrite shown_hide_then_show by done. by destruct n.
Qed.

(** *** Passes *)

Lemma shape_same_nodes w w' t : nodes w' = nodes w -> shape w t -> shape w' t.
Proof.
  intros Hn. apply shape_preserved. intros a n Ha. rewrite Hn. eauto.
Qed.

(** [Pass] on a tree. *)
Lemma Pass_tree
    (w : World) (t : tree) (fuel : nat) (n : SceneNode) (type : PassType) :
  shape w t -> (height t <= fuel)%nat ->
  nodes w !! root t = Some n ->
  Forall (valid_renderable w) (renderables_ n) ->
  exists w',
    Pass fuel w (root t) type = Ok w'
    /\ (forall a, Some a ∈ renderables_ n ->
          r_Pass <$> drawables w' !! a = Some (Some type))
    /\ (Z.land (attrib_ n) SOA_NotCastShadow <> 0 ->
        forall a, a ∈ preorder t -> Visible w' a = Ok (not_shadow_map_pass type))
    /\ (Z.land (attrib_ n) SOA_NotCastShadow = 0 -> nodes w' = nodes w).
Proof.
  intros Hs Hh Hn Hv.
  destruct (setter_loop
              (fun w r => modify_renderable w r (set_r_Pass (Some type)))
              (set_r_Pass (Some type)) (nodes w) (renderables_ n))
    with (w := w) as (w1 & H1 & N1 & _ & _ & I1 & _); [done|done|done|].
  unfold Pass, deref. rewrite Hn. cbn [bind]. rewrite H1. cbn [bind].
  rewrite N1, Hn. cbn [bind].
  assert (forall a, Some a ∈ renderables_ n ->
            r_Pass <$> drawables w1 !! a = Some (Some type)) as Hpass.
  { intros a Ha. by destruct (I1 a Ha) as (d0 & k & Hd0 & ->). }
  destruct (Z.eqb_spec (Z.land (attrib_ n) SOA_NotCastShadow) 0) as [Hz|Hnz].
  - exists w1. by repeat split.
  - destruct (Visible_set_tree (not_shadow_map_pass type) fuel t Hh w1)
      as (w' & H' & V' & _); [by eapply shape_same_nodes|].
    exists w'. split; [done|]. split; [|by split].
    intros a Ha. apply Visible_set_evolves in H' as (_ & _ & Dr & _).
    specialize (Hpass a Ha). destruct (drawables w1 !! a) as [d|] eqn:Hd; [|done].
    destruct (Dr _ _ Hd) as (d' & -> & <-). exact Hpass.
Qed.

(** X16.  On a tree whose root has its drawables in the store, [Pass(type)]
    returns and hands [type] to every drawable of the root.  If the root
    has [SOA_NotCastShadow], every node of the tree is visible afterwards
    exactly when the pass is not a shadow-map pass, whatever its visibility
    was before; if it has not, no node is changed. *)
Theorem X16_Pass_shows_or_hides_a_NotCastShadow_node
    (w : World) (t : tree) (fuel : nat) (n : SceneNode) (type : PassType) :
  shape w t -> (height t <= fuel)%nat ->
  nodes w !! root t = Some n ->
  Forall (valid_renderable w) (renderables_ n) ->
  exists w',
    Pass fuel w (root t) type = Ok w'
    /\ (forall a, Some a ∈ renderables_ n ->
          r_Pass <$> drawables w' !! a = Some (Some type))
    /\ (Z.land (attrib_ n) SOA_NotCastShadow <> 0 ->
        forall a, a ∈ preorder t -> Visible w' a = Ok (not_shadow_map_pass type))
    /\ (Z.land (attrib_ n) SOA_NotCastShadow = 0 -> nodes w' = nodes w).
Proof. apply Pass_tree. Qed.

End Visibility.

(** ** Propagation *)

Section Propagation.
Context {ML : MathLib}.

(** The first statement of [UpdateAbsModelMatrix]. *)
Lemma UpdateAbsModelMatrix_matrix w this n :
  nodes w !! this = Some n ->
  (forall p, parent_ n = Some p -> nodes w !! p <> None) ->
  exists M,
    match parent_ n with
    | Some p =>
      let* pn := deref w p in
      Ok (store w this (set_abs_model (mat_mul (model_ pn) (model_ n)) n))
    | None => Ok (store w this (set_abs_model (model_ n) n))
    end = Ok (store w this (set_abs_model M n))
    /\ (parent_ n = None -> M = model_ n)
    /\ (forall p pn, parent_ n = Some p -> nodes w !! p = Some pn ->
          M = mat_mul (model_ pn) (model_ n)).
Proof.
  intros Hn Hp. destruct (parent_ n) as [p|] eqn:Hpar.
  - destruct (nodes w !! p) as [pn|] eqn:Hpn; [|by destruct (Hp p)].
    exists (mat_mul (model_ pn) (model_ n)). unfold deref. rewrite Hpn.
    split; [done|]. split; [done|]. intros p' pn' [= <-] Hpn'. congruence.
  - exists (model_ n). by repeat split.
Qed.

Lemma bound_computable_store w this n n' a :
  nodes w !! this = Some n ->
  pos_aabb_dirty_ n' = pos_aabb_dirty_ n -> pos_aabb_os_ n' = pos_aabb_os_ n ->
  renderables_ n' = renderables_ n ->
  bound_computable w a -> bound_computable (store w this n') a.
Proof.
  intros Hn Hd Ho Hr Hc m Hm Hmd Hmo. unfold store in Hm. simpl in Hm.
  assert (forall r, valid_renderable w r -> valid_renderable (store w this n') r)
    as Hv by (by intros r (x & d & -> & Hx); exists x, d).
  destruct (decide (a = this)) as [->|Hne].
  - rewrite lookup_insert_eq in Hm. injection Hm as <-.
    destruct (Hc n Hn) as [Hne Hval]; [congruence..|]. rewrite Hr.
    split; [done|]. eapply Forall_impl; [exact Hval|]. exact Hv.
  - rewrite lookup_insert_ne in Hm by done.
    destruct (Hc m Hm Hmd Hmo) as [Hne' Hval].
    split; [done|]. eapply Forall_impl; [exact Hval|]. exact Hv.
Qed.

Lemma iter_set_r_ModelMatrix M k d :
  r_ModelMatrix (Nat.iter (S k) (set_r_ModelMatrix M) d) = M.
Proof. done. Qed.

(** The last loop of [UpdateAbsModelMatrix]. *)
Lemma UpdateAbsModelMatrix_drawables w this n rs :
  nodes w !! this = Some n -> Forall (valid_renderable w) rs ->
  exists w',
    foldM (fun w renderable =>
             let* n := deref w this in
             modify_renderable w renderable (set_r_ModelMatrix (abs_model_ n)))
          rs w = Ok w'
    /\ nodes w' = nodes w
    /\ forall a, Some a ∈ rs ->
         r_ModelMatrix <$> drawables w' !! a = Some (abs_model_ n).
Proof.
  intros Hn Hv.
  destruct (setter_loop
              (fun w renderable =>
                 let* n := deref w this in
                 modify_renderable w renderable (set_r_ModelMatrix (abs_model_ n)))
              (set_r_ModelMatrix (abs_model_ n)) (nodes w) rs)
    with (w := w) as (w' & H' & N' & _ & _ & I' & _); [|done|done|].
  { intros w0 r Hw0. unfold deref. by rewrite Hw0, Hn. }
  exists w'. split; [done|]. split; [done|].
  intros a Ha. by destruct (I' a Ha) as (d0 & k & Hd0 & ->).
Qed.

(** [UpdateAbsModelMatrix] on a tree. *)
Lemma UpdateAbsModelMatrix_tree
    (w : World) (t : tree) (fuel : nat) (n : SceneNode) :
  shape w t -> (height t <= fuel)%nat ->
  (forall a, a ∈ preorder t -> bound_computable w a) ->
  nodes w !! root t = Some n ->
  renderables_ n <> [] -> Forall (valid_renderable w) (renderables_ n) ->
  (forall p, parent_ n = Some p -> nodes w !! p <> None) ->
  present (pos_aabb_ws_ n) = present (pos_aabb_os_ n) ->
  exists w' n' M,
    UpdateAbsModelMatrix fuel w (root t) = Ok w'
    /\ nodes w' !! root t = Some n'
    /\ abs_model_ n' = M
    /\ (parent_ n = None -> M = model_ n)
    /\ (forall p pn, parent_ n = Some p -> nodes w !! p = Some pn ->
          M = mat_mul (model_ pn) (model_ n))
    /\ (forall a, Some a ∈ renderables_ n ->
          r_ModelMatrix <$> drawables w' !! a = Some M)
    /\ (present (pos_aabb_ws_ n) = true ->
        pos_aabb_dirty_ n' = false
        /\ exists os, pos_aabb_os_ n' = Some os
                      /\ pos_aabb_ws_ n' = Some (transform_aabb os M)).
Proof.
  intros Hs Hh Hcomp Hn Hne Hv Hp Hb.
  destruct (UpdateAbsModelMatrix_matrix w (root t) n Hn Hp) as (M & HM & Hroot & Hpar).
  unfold UpdateAbsModelMatrix, deref at 1. rewrite Hn. cbn [bind]. rewrite HM.
  cbn [bind]. set (n0 := set_abs_model M n). set (w0 := store w (root t) n0).
  destruct (renderables_ n) as [|r0 rest] eqn:Hr; [done|]. rewrite <- Hr in *.
  clear r0 rest Hr.
  assert (nodes w0 !! root t = Some n0) as Hn0 by apply lookup_insert_eq.
  assert (Forall (valid_renderable w0) (renderables_ n)) as Hv0.
  { eapply Forall_impl; [exact Hv|]. by intros r (x & d & -> & Hx); exists x, d. }
  destruct (pos_aabb_ws_ n) as [ws|] eqn:Hws.
  - assert (shape w0 t) as Hs0.
    { revert Hs. apply shape_preserved. intros a m Hm. subst w0. unfold store. simpl.
      destruct (decide (a = root t)) as [->|Hna].
      - rewrite lookup_insert_eq. eexists. split; [done|].
        assert (m = n) as -> by congruence. done.
      - rewrite lookup_insert_ne by done. eauto. }
    destruct (UpdatePosBound_tree_recomputes fuel t Hh w0 Hs0)
      as (w1 & H1 & _ & _ & Rt & _).
    { intros a Ha. by apply (bound_computable_store w (root t) n), Hcomp. }
    destruct (Rt n0 Hn0) as [Hn1 _].
    pose proof (bound_after_dirty w1 n0) as Hd1.
    set (n1 := bound_after w1 n0) in *.
    rewrite H1. cbn [bind].
    pose proof (UpdatePosBound_evolves _ _ _ _ H1) as Hev.
    pose proof (evolves_eq_drawables _ _ _ _ Hev) as Hdr.
    destruct Hev as (N & _). destruct (N _ _ Hn0) as (n1' & Hn1' & o & d & -> & Ho & _).
    assert (n1 = set_pos_aabb_dirty d (set_pos_aabb_os o n0)) as -> by congruence.
    simpl in Hd1. subst d. unfold deref. rewrite Hn1. cbn [bind pos_aabb_os_ set_pos_aabb_dirty set_pos_aabb_os].
    change (pos_aabb_os_ n0) with (pos_aabb_os_ n) in Ho. rewrite <- Hb in Ho.
    destruct o as [os|]; [|done]. cbn [nonnull bind].
    set (n2 := set_pos_aabb_ws _ _). set (w2 := store w1 (root t) n2).
    destruct (UpdateAbsModelMatrix_drawables w2 (root t) n2 (renderables_ n))
      as (w' & H' & N' & A'); [apply lookup_insert_eq| |].
    { eapply Forall_impl; [exact Hv0|]. intros r.
      apply valid_renderable_ext. by rewrite <- Hdr. }
    exists w', n2, M. split; [exact H'|]. split.
    { rewrite N'. apply lookup_insert_eq. }
    split; [done|]. split; [done|]. split; [done|]. split; [exact A'|].
    intros _. split; [done|]. by exists os.
  - cbn [bind].
    destruct (UpdateAbsModelMatrix_drawables w0 (root t) n0 (renderables_ n))
      as (w' & H' & N' & A'); [done|done|].
    exists w', n0, M. split; [exact H'|]. split; [by rewrite N'|].
    split; [done|]. split; [done|]. split; [done|]. split; [exact A'|done].
Qed.

(** X17.  On a tree laid out in the store whose root has drawables,
    [UpdateAbsModelMatrix] returns.  The world matrix it stores is the
    local matrix for a node without parent, and the local matrix of the
    parent times the local matrix of the node otherwise; every drawable of
    the node receives that matrix; and if the node tracks a bound, its
    dirty flag is cleared and its world-space box is its local-space box
    transformed by that matrix. *)
Theorem X17_UpdateAbsModelMatrix_refreshes_box_and_drawables
    (w : World) (t : tree) (fuel : nat) (n : SceneNode) :
  shape w t -> (height t <= fuel)%nat ->
  (forall a, a ∈ preorder t -> bound_computable w a) ->
  nodes w !! root t = Some n ->
  renderables_ n <> [] -> Forall (valid_renderable w) (renderables_ n) ->
  (forall p, parent_ n = Some p -> nodes w !! p <> None) ->
  present (pos_aabb_ws_ n) = present (pos_aabb_os_ n) ->
  exists w' n' M,
    UpdateAbsModelMatrix fuel w (root t) = Ok w'
    /\ nodes w' !! root t = Some n'
    /\ abs_model_ n' = M
    /\ (parent_ n = None -> M = model_ n)
    /\ (forall p pn, parent_ n = Some p -> nodes w !! p = Some pn ->
          M = mat_mul (model_ pn) (model_ n))
    /\ (forall a, Some a ∈ renderables_ n ->
          r_ModelMatrix <$> drawables w' !! a = Some M)
    /\ (present (pos_aabb_ws_ n) = true ->
        pos_aabb_dirty_ n' = false
        /\ exists os, pos_aabb_os_ n' = Some os
                      /\ pos_aabb_ws_ n' = Some (transform_aabb os M)).
Proof. apply UpdateAbsModelMatrix_tree. Qed.

(** X18.  A change below a node whose bound is up to date does not reach
    that node: [AddRenderable] on a child sets the dirty flag of the child
    and leaves the parent as it was, so [UpdatePosBound] on the parent
    afterwards recomputes nothing. *)
Theorem X18_change_below_a_clean_node_leaves_its_bound
    (w : World) (p c : addr) (pn cn : SceneNode) (renderable : RenderablePtr)
    (fuel : nat) :
  nodes w !! p = Some pn -> Some c ∈ children_ pn -> p <> c ->
  nodes w !! c = Some cn -> pos_aabb_dirty_ pn = false ->
  exists w1,
    AddRenderable w c renderable = Ok w1
    /\ bound_dirty w1 c = Some true
    /\ nodes w1 !! p = Some pn
    /\ UpdatePosBound (S fuel) w1 p = Ok w1.
Proof.
  intros Hp Hin Hne Hc Hd. unfold AddRenderable, deref. rewrite Hc. cbn [bind].
  eexists. split; [reflexivity|]. split; [by rewrite bound_dirty_store|].
  assert (nodes (store w c
            (set_pos_aabb_dirty true
               (set_hw_res_ready (renderables_hw_res_ready_ cn ++ [false])
                  (set_renderables (renderables_ cn ++ [renderable]) cn)))) !! p
          = Some pn) as Hp1.
  { unfold store. simpl. by rewrite lookup_insert_ne. }
  split; [exact Hp1|]. by eapply UpdatePosBound_clean.
Qed.

(** X19.  A child that tracks a bound and has no drawable breaks the bound
    of its parent: when a node fresh from [SceneNode(attrib)], cullable or
    moveable and no overlay, is added as the only child of a bound-tracking
    node with drawables, [UpdateAbsModelMatrix] on the parent subscripts
    [renderables_[0]] of the child out of range. *)
Theorem X19_tracked_child_without_drawables_faults_the_bound
    (w : World) (p : addr) (pn : SceneNode) (attrib : Z) (fuel : nat) :
  nodes w !! p = Some pn -> children_ pn = [] ->
  renderables_ pn <> [] -> Forall (valid_renderable w) (renderables_ pn) ->
  present (pos_aabb_os_ pn) = true -> present (pos_aabb_ws_ pn) = true ->
  (forall q, parent_ pn = Some q -> nodes w !! q <> None) ->
  tracks_bound attrib = true ->
  exists w2,
    AddChild (SceneNode_new w attrib).2 p (Some (SceneNode_new w attrib).1) = Ok w2
    /\ UpdateAbsModelMatrix (S (S fuel)) w2 p = Fault SubscriptOutOfRange.
Proof.
  intros Hp Hkids Hne Hv Hos Hws Hpar Htr.
  pose proof (alloc_fresh w (SceneNode_init attrib)) as Hfresh.
  unfold SceneNode_new. destruct (alloc w (SceneNode_init attrib)) as [c w1] eqn:Ha.
  simpl in Hfresh. cbn [fst snd].
  assert (w1 = store w c (SceneNode_init attrib)) as -> by (unfold alloc in Ha; congruence).
  assert (c <> p) as Hcp by congruence.
  assert (nodes (store w c (SceneNode_init attrib)) !! p = Some pn) as Hp1.
  { unfold store. simpl. by rewrite lookup_insert_ne. }
  unfold AddChild, deref. rewrite Hp1. cbn [bind]. rewrite Hkids. cbn [app].
  eexists. split; [reflexivity|].
  set (pn2 := set_children [Some c] (set_pos_aabb_dirty true pn)).
  set (w2 := store (store w c (SceneNode_init attrib)) p pn2).
  assert (nodes w2 !! p = Some pn2) as Hp2 by apply lookup_insert_eq.
  assert (nodes w2 !! c = Some (SceneNode_init attrib)) as Hc2.
  { subst w2. unfold store. simpl. rewrite lookup_insert_ne by done.
    apply lookup_insert_eq. }
  destruct (UpdateAbsModelMatrix_matrix w2 p pn2 Hp2) as (M & HM & _).
  { intros q Hq. change (parent_ pn2) with (parent_ pn) in Hq.
    specialize (Hpar q Hq). subst w2. unfold store. simpl.
    destruct (decide (q = p)) as [->|Hqp]; [by rewrite lookup_insert_eq|].
    rewrite lookup_insert_ne by done.
    destruct (decide (q = c)) as [->|Hqc]; [by rewrite lookup_insert_eq|].
    by rewrite lookup_insert_ne. }
  change (UpdateAbsModelMatrix (S (S fuel)) w2 p = Fault SubscriptOutOfRange).
  unfold UpdateAbsModelMatrix, deref at 1. rewrite Hp2. cbn [bind]. rewrite HM.
  cbn [bind]. change (renderables_ pn2) with (renderables_ pn).
  destruct (renderables_ pn) as [|r0 rest] eqn:Hr; [done|].
  change (pos_aabb_ws_ pn2) with (pos_aabb_ws_ pn).
  destruct (pos_aabb_ws_ pn) as [ws|]; [|done].
  set (pn3 := set_abs_model M pn2). set (w3 := store w2 p pn3).
  assert (forall r, valid_renderable w r -> valid_renderable w3 r) as Hval.
  { by intros r (x & d & -> & Hx); exists x, d. }
  apply Forall_cons in Hv as [Hv0 Hv].
  destruct (PosBound_valid w3 r0 (Hval _ Hv0)) as (b0 & Hb0 & _).
  cbn [UpdatePosBound].
  rewrite (proj2 (deref_Ok w3 p pn3)) by apply lookup_insert_eq.
  cbn [bind]. subst w3. change (pos_aabb_dirty_ pn3) with true. cbn iota.
  change (pos_aabb_os_ pn3) with (pos_aabb_os_ pn).
  destruct (pos_aabb_os_ pn) as [os|] eqn:Hos'; [|done].
  change (renderables_ pn3) with (renderables_ pn). rewrite Hr.
  cbn [subscript lookup list_lookup bind]. rewrite Hb0. cbn [bind drop].
  rewrite drop_0.
  set (pn4 := set_pos_aabb_os (Some b0) pn3).
  set (w4 := store (store w2 p pn3) p pn4).
  rewrite (UpdatePosBound_drawables p rest w4 pn4 b0);
    [|apply lookup_insert_eq|done|].
  2: { eapply Forall_impl; [exact Hv|]. by intros r (x & d & -> & Hx); exists x, d. }
  cbn [bind]. change (children_ pn3) with [Some c]. cbn [foldM nonnull bind].
  set (w5 := store w4 p _).
  assert (deref w5 c = Ok (SceneNode_init attrib)) as Hc5.
  { subst w5 w4. rewrite !deref_store_ne by done. unfold deref. by rewrite Hc2. }
  rewrite Hc5. cbn [bind pos_aabb_os_ pos_aabb_dirty_ SceneNode_init].
  rewrite Htr. done.
Qed.

End Propagation.

(** ** A node that loses its last drawable *)

Section LastDrawable.
Context {ML : MathLib}.

(** [DelRenderable] of the only drawable of a node that tracks a bound. *)
Lemma DelRenderable_last_drawable
    (w : World) (this : addr) (n : SceneNode) (renderable : RenderablePtr) :
  nodes w !! this = Some n ->
  renderables_ n = [renderable] -> lock_step n ->
  present (pos_aabb_os_ n) = true ->
  (forall p, parent_ n = Some p -> nodes w !! p <> None) ->
  exists w1,
    DelRenderable w this renderable = Ok w1
    /\ bound_dirty w1 this = Some true
    /\ NumRenderables w1 this = Ok 0
    /\ (forall fuel, UpdatePosBound (S fuel) w1 this = Fault SubscriptOutOfRange)
    /\ (forall fuel, exists w2,
          UpdateAbsModelMatrix fuel w1 this = Ok w2
          /\ bound_dirty w2 this = Some true).
Proof.
  intros Hn Hr Hl Hp Hpar.
  unfold DelRenderable, deref. rewrite Hn. cbn [bind]. rewrite Hr.
  assert (find_index renderable [renderable] = Some 0%nat) as ->.
  { unfold find_index. cbn. by rewrite decide_True. }
  unfold lock_step in Hl. rewrite Hr in Hl.
  destruct (renderables_hw_res_ready_ n) as [|f [|f' fs]] eqn:Hf; try done.
  cbn [erase length Nat.ltb Nat.leb bind delete].
  set (n1 := set_pos_aabb_dirty true _). set (w1 := store w this n1).
  assert (nodes w1 !! this = Some n1) as Hn1 by apply lookup_insert_eq.
  exists w1. split; [done|]. split; [by unfold bound_dirty; rewrite Hn1|]. split.
  { unfold NumRenderables, deref. by rewrite Hn1. }
  split.
  - intros fuel. cbn [UpdatePosBound]. unfold deref. rewrite Hn1. cbn [bind].
    change (pos_aabb_dirty_ n1) with true. cbn iota.
    change (pos_aabb_os_ n1) with (pos_aabb_os_ n).
    destruct (pos_aabb_os_ n); [|done]. done.
  - intros fuel.
    destruct (UpdateAbsModelMatrix_matrix w1 this n1 Hn1) as (M & HM & _).
    { intros p Hpp. change (parent_ n1) with (parent_ n) in Hpp.
      specialize (Hpar p Hpp). subst w1. unfold store. simpl.
      destruct (decide (p = this)) as [->|Hne]; [by rewrite lookup_insert_eq|].
      by rewrite lookup_insert_ne. }
    unfold UpdateAbsModelMatrix, deref at 1. rewrite Hn1. cbn [bind]. rewrite HM.
    cbn [bind]. change (renderables_ n1) with (@nil RenderablePtr). cbn iota.
    eexists. split; [reflexivity|]. by rewrite bound_dirty_store.
Qed.

End LastDrawable.

(** C5.  [DelRenderable] of the only drawable of a node that tracks a bound
    sets the bound-dirty flag and leaves the node without drawable.  The
    next [UpdatePosBound] on the node does not clear the flag and recompute:
    it subscripts [renderables_[0]] out of range, whatever the recursion
    bound.  [UpdateAbsModelMatrix] on the node itself returns, behind its
    test [!renderables_.empty()], without recomputing, and the flag stays
    set.  On the scene of parent and child, after the child has lost its
    drawable, [UpdateAbsModelMatrix] on the parent reaches the child
    through [UpdatePosBound] and subscripts out of range. *)
Theorem C5_recomputation_faults_after_last_drawable_removed :
  (forall (ML : MathLib) (w : World) (this : addr) (n : SceneNode)
          (renderable : RenderablePtr),
      nodes w !! this = Some n ->
      renderables_ n = [renderable] -> lock_step n ->
      present (pos_aabb_os_ n) = true ->
      (forall p, parent_ n = Some p -> nodes w !! p <> None) ->
      exists w1,
        DelRenderable w this renderable = Ok w1
        /\ bound_dirty w1 this = Some true
        /\ NumRenderables w1 this = Ok 0
        /\ (forall fuel, UpdatePosBound (S fuel) w1 this = Fault SubscriptOutOfRange)
        /\ (forall fuel, exists w2,
              UpdateAbsModelMatrix fuel w1 this = Ok w2
              /\ bound_dirty w2 this = Some true))
  /\ (DelRenderable (ML := ZMath.math) Examples.world_parent_child 2%positive
        (Some 2%positive)
      = Ok Examples.world_child_emptied
      /\ UpdateAbsModelMatrix 2 Examples.world_child_emptied 1%positive
         = Fault SubscriptOutOfRange).
Proof.
  split.
  - intros ML. apply DelRenderable_last_drawable.
  - split; vm_compute; reflexivity.
Qed.

(** ** Registration with the scene manager *)

Section Registry.
Context {ML : MathLib}.

Lemma set_scene_nodes_id w : set_scene_nodes w (scene_nodes_ w) = w.
Proof. by destruct w. Qed.

Lemma DelSceneNode_erase_first w node :
  DelSceneNode w node = set_scene_nodes w (erase_first node (scene_nodes_ w)).
Proof.
  unfold DelSceneNode, erase_first.
  destruct (find_index node (scene_nodes_ w)); [done|].
  by rewrite set_scene_nodes_id.
Qed.

Lemma AddToSceneManager_kids fuel kids :
  Forall (fun k => forall w, shape w k ->
            AddToSceneManager fuel w (root k)
            = Ok (set_scene_nodes w (scene_nodes_ w ++ map Some (preorder k)))) kids ->
  forall w, Forall (shape w) kids ->
    foldM (fun w (child : SceneNodePtr) =>
             let* c := nonnull child in AddToSceneManager fuel w c)
          (map (fun k => Some (root k)) kids) w
    = Ok (set_scene_nodes w
            (scene_nodes_ w ++ map Some (concat (map preorder kids)))).
Proof.
  induction 1 as [|k kids Hk _ IH]; intros w Hs; cbn [map foldM concat].
  - by rewrite app_nil_r, set_scene_nodes_id.
  - apply Forall_cons in Hs as [Hsk Hs]. cbn [nonnull bind].
    rewrite (Hk w Hsk). cbn [bind]. rewrite IH.
    + cbn [scene_nodes_ set_scene_nodes]. by rewrite map_app, app_assoc.
    + eapply Forall_impl; [exact Hs|]. intros t. by apply shape_same_nodes.
Qed.

Lemma AddToSceneManager_tree :
  forall fuel t, (height t <= fuel)%nat ->
    forall w, shape w t ->
      AddToSceneManager fuel w (root t)
      = Ok (set_scene_nodes w (scene_nodes_ w ++ map Some (preorder t))).
Proof.
  induction fuel as [|fuel IH]; intros [a kids] Hh w Hs; [simpl in Hh; lia|].
  apply shape_inv in Hs as (n & Hn & Hc & Hkids).
  cbn [AddToSceneManager root]. unfold deref. rewrite Hn. cbn [bind]. rewrite Hc.
  rewrite AddToSceneManager_kids.
  - unfold AddSceneNode. cbn [scene_nodes_ set_scene_nodes preorder map].
    by rewrite <- app_assoc.
  - apply Forall_forall. intros k Hk. apply IH.
    pose proof (height_kids a kids k Hk). lia.
  - eapply Forall_impl; [exact Hkids|]. intros t. by apply shape_same_nodes.
Qed.

(** X20.  With the registry of the scene manager modelled as a list that
    [AddSceneNode] appends to: on a tree [AddToSceneManager] returns and
    appends the nodes of the tree in depth-first pre-order, changing no
    node and no drawable; it does not look for earlier registrations, so a
    second call appends them all again. *)
Theorem X20_AddToSceneManager_registers_in_preorder
    (w : World) (t : tree) (fuel : nat) :
  shape w t -> (height t <= fuel)%nat ->
  exists w',
    AddToSceneManager fuel w (root t) = Ok w'
    /\ scene_nodes_ w' = scene_nodes_ w ++ map Some (preorder t)
    /\ nodes w' = nodes w /\ drawables w' = drawables w
    /\ exists w'',
         AddToSceneManager fuel w' (root t) = Ok w''
         /\ scene_nodes_ w''
            = scene_nodes_ w ++ map Some (preorder t) ++ map Some (preorder t).
Proof.
  intros Hs Hh. eexists. split; [by apply AddToSceneManager_tree|].
  split; [done|]. split; [done|]. split; [done|].
  eexists. split.
  - apply AddToSceneManager_tree; [done|]. by apply (shape_same_nodes w).
  - cbn [scene_nodes_ set_scene_nodes]. by rewrite <- app_assoc.
Qed.

(** *** Removal *)

Lemma DelFromSceneManager_kids fuel kids :
  Forall (fun k => forall w, shape w k ->
            DelFromSceneManager fuel w (root k)
            = Ok (set_scene_nodes w
                    (foldl (fun l a => erase_first (Some a) l) (scene_nodes_ w)
                       (postorder k)))) kids ->
  forall w, Forall (shape w) kids ->
    foldM (fun w (child : SceneNodePtr) =>
             let* c := nonnull child in DelFromSceneManager fuel w c)
          (map (fun k => Some (root k)) kids) w
    = Ok (set_scene_nodes w
            (foldl (fun l a => erase_first (Some a) l) (scene_nodes_ w)
               (concat (map postorder kids)))).
Proof.
  induction 1 as [|k kids Hk _ IH]; intros w Hs; cbn [map foldM concat].
  - by rewrite set_scene_nodes_id.
  - apply Forall_cons in Hs as [Hsk Hs]. cbn [nonnull bind].
    rewrite (Hk w Hsk). cbn [bind]. rewrite IH.
    + cbn [scene_nodes_ set_scene_nodes]. by rewrite foldl_app.
    + eapply Forall_impl; [exact Hs|]. intros t. by apply shape_same_nodes.
Qed.

(** [DelFromSceneManager] erases the nodes of a tree in post-order. *)
Lemma DelFromSceneManager_tree :
  forall fuel t, (height t <= fuel)%nat ->
    forall w, shape w t ->
      DelFromSceneManager fuel w (root t)
      = Ok (set_scene_nodes w
              (foldl (fun l a => erase_first (Some a) l) (scene_nodes_ w)
                 (postorder t))).
Proof.
  induction fuel as [|fuel IH]; intros [a kids] Hh w Hs; [simpl in Hh; lia|].
  apply shape_inv in Hs as (n & Hn & Hc & Hkids).
  cbn [DelFromSceneManager root]. unfold deref. rewrite Hn. cbn [bind]. rewrite Hc.
  rewrite DelFromSceneManager_kids; [|..|done].
  - cbn [bind]. rewrite DelSceneNode_erase_first.
    cbn [scene_nodes_ set_scene_nodes postorder]. by rewrite foldl_app.
  - apply Forall_forall. intros k Hk. apply IH.
    pose proof (height_kids a kids k Hk). lia.
Qed.

Lemma find_index_middle {A} `{EqDecision A} (x : A) (l1 l2 : list A) :
  x ∉ l1 -> find_index x (l1 ++ x :: l2) = Some (length l1).
Proof.
  intros Hx.
  destruct (find_index_Some x (l1 ++ x :: l2)) as (i & Hi & Hl & Hfirst).
  { apply elem_of_app. right. by left. }
  rewrite Hi. f_equal. destruct (Nat.lt_trichotomy i (length l1)) as [Hlt|[->|Hgt]].
  - rewrite lookup_app_l in Hl by done. exfalso. apply Hx.
    by eapply list_elem_of_lookup_2.
  - done.
  - exfalso. apply (Hfirst (length l1) Hgt). by rewrite list_lookup_middle.
Qed.

Lemma erase_first_middle {A} `{EqDecision A} (x : A) (l1 l2 : list A) :
  x ∉ l1 -> erase_first x (l1 ++ x :: l2) = l1 ++ l2.
Proof.
  intros Hx. unfold erase_first. rewrite find_index_middle by done.
  apply delete_middle.
Qed.

Lemma erase_registered (post : list addr) :
  forall rem reg,
    NoDup rem -> post ≡ₚ rem -> (forall a, a ∈ rem -> Some a ∉ reg) ->
    foldl (fun l a => erase_first (Some a) l) (reg ++ map Some rem) post = reg.
Proof.
  induction post as [|x post IH]; intros rem reg Hnd Hperm Hreg.
  - apply Permutation_nil_l in Hperm as <-. simpl. by rewrite app_nil_r.
  - assert (x ∈ rem) as Hx by (rewrite <- Hperm; by left).
    apply list_elem_of_split in Hx as (r1 & r2 & ->).
    apply NoDup_app in Hnd as (Hnd1 & Hx1 & Hnd2).
    apply NoDup_cons in Hnd2 as [Hx2 Hnd2].
    cbn [foldl]. rewrite map_app. cbn [map]. rewrite app_assoc.
    rewrite erase_first_middle.
    + rewrite <- app_assoc, <- map_app. apply IH.
      * apply NoDup_app. repeat split; [done| |done].
        intros a Ha Ha2. apply (Hx1 a Ha). by right.
      * by apply Permutation_cons_app_inv in Hperm.
      * intros a Ha. apply Hreg. rewrite elem_of_app in *.
        destruct Ha as [?|?]; [by left|]. right. by right.
    + intros Hin. apply elem_of_app in Hin as [Hin|Hin].
      * revert Hin. apply Hreg. apply elem_of_app. right. by left.
      * apply list_elem_of_fmap in Hin as (y & [= <-] & Hy).
        apply (Hx1 x Hy). by left.
Qed.

Lemma postorder_preorder t : postorder t ≡ₚ preorder t.
Proof.
  induction t as [a kids IH] using tree_induction. cbn [postorder preorder].
  rewrite Permutation_app_comm. cbn [app]. constructor.
  induction IH as [|k kids Hk _ IHk]; cbn [map concat]; [done|].
  by rewrite Hk, IHk.
Qed.

(** X21.  With the registry modelled as a list ([AddSceneNode] appends,
    [DelSceneNode] erases the first occurrence): on a tree without sharing,
    none of whose nodes is registered, [AddToSceneManager] followed by
    [DelFromSceneManager] gives back exactly the store from before. *)
Theorem X21_AddToSceneManager_DelFromSceneManager_round_trip
    (w : World) (t : tree) (fuel : nat) :
  shape w t -> (height t <= fuel)%nat ->
  NoDup (preorder t) ->
  (forall a, a ∈ preorder t -> Some a ∉ scene_nodes_ w) ->
  exists w1,
    AddToSceneManager fuel w (root t) = Ok w1
    /\ scene_nodes_ w1 = scene_nodes_ w ++ map Some (preorder t)
    /\ DelFromSceneManager fuel w1 (root t) = Ok w.
Proof.
  intros Hs Hh Hnd Hreg. eexists. split; [by apply AddToSceneManager_tree|].
  split; [done|]. rewrite DelFromSceneManager_tree; [|done|by apply (shape_same_nodes w)].
  cbn [scene_nodes_ set_scene_nodes]. f_equal.
  rewrite erase_registered; [by destruct w|done|apply postorder_preorder|done].
Qed.

End Registry.

(** ** Expansion of composite drawables *)

Section Expansion.
Context {ML : MathLib}.

Lemma set_children_twice cs cs' n :
  set_children cs (set_children cs' n) = set_children cs n.
Proof. reflexivity. Qed.

(** A node whose only drawable has no sub-drawables is left alone. *)
Lemma OnAttachRenderable_leaf fuel w child nc sub add_to_scene :
  nodes w !! child = Some nc -> renderables_ nc = [sub] -> leaf_drawable w sub ->
  OnAttachRenderable (S fuel) w child add_to_scene = Ok w.
Proof.
  intros Hn Hr Hleaf. cbn [OnAttachRenderable]. unfold deref. rewrite Hn.
  cbn [bind]. rewrite Hr. cbn [foldM]. destruct sub as [a|]; [|done].
  destruct Hleaf as (d & Hd & Hsub). unfold deref_renderable. rewrite Hd.
  cbn [bind]. by rewrite Hsub.
Qed.

Lemma attached_this w this n add cs subs tail w' c :
  nodes w !! this <> None -> attached w this n add cs subs tail w' ->
  c ∈ cs -> c <> this.
Proof. intros Hn (_ & _ & Hf & _) Hc ->. exact (Hn (Hf _ Hc)). Qed.

Lemma attached_present w this n add cs subs tail w' c :
  attached w this n add cs subs tail w' -> c ∈ cs -> nodes w' !! c <> None.
Proof.
  intros (Hlen & _ & _ & _ & Hc & _) Hin.
  apply list_elem_of_lookup in Hin as (i & Hi).
  destruct (lookup_lt_is_Some_2 subs i) as (sub & Hsub).
  { rewrite <- Hlen. by eapply lookup_lt_Some. }
  by rewrite (Hc i c sub Hi Hsub).
Qed.

(** One more place of the child vector is filled. *)
Lemma attached_step w this n add cs subs old tail wk sub child :
  nodes w !! this <> None ->
  attached w this n add cs subs (old :: tail) wk ->
  nodes wk !! child = None ->
  attached w this n add (cs ++ [child]) (subs ++ [sub]) tail
    ((if add then fun w => AddSceneNode w (Some child) else fun w => w)
       (store (store wk child (attached_child this (attrib_ n) sub)) this
          (set_children (children_ n ++ map Some (cs ++ [child]) ++ tail) n))).
Proof.
  intros Hn Hatt Hfresh.
  assert (child <> this) as Hct.
  { intros ->. destruct Hatt as (_ & _ & _ & Ht & _). congruence. }
  assert (child ∉ cs) as Hccs.
  { intros Hin. by eapply attached_present. }
  destruct Hatt as (Hlen & Hnd & Hf & Ht & Hc & Hfr & Hdr & Hsn).
  assert (forall w0 : World,
            nodes ((if add then fun w => AddSceneNode w (Some child)
                    else fun w => w) w0) = nodes w0) as Hnodes
    by (intros; by destruct add).
  split; [by rewrite !length_app, Hlen|]. split.
  { apply NoDup_app. split; [done|]. split; [|apply NoDup_singleton].
    by intros x Hx ->%list_elem_of_singleton. }
  split.
  { intros c [Hin| ->%list_elem_of_singleton]%elem_of_app; [by apply Hf|].
    rewrite <- Hfr; done. }
  split.
  { rewrite Hnodes. apply lookup_insert_eq. }
  split.
  { intros i c s Hi Hs. rewrite Hnodes. unfold store. cbn [nodes].
    destruct (decide (i < length cs)%nat) as [Hlt|Hge].
    - rewrite lookup_app_l in Hi by done. rewrite lookup_app_l in Hs by lia.
      assert (c ∈ cs) as Hin by (by eapply list_elem_of_lookup_2).
      rewrite !lookup_insert_ne; [by eapply Hc| |].
      + intros ->. done.
      + intros <-. exact (Hn (Hf _ Hin)).
    - rewrite lookup_app_r in Hi by lia. rewrite lookup_app_r in Hs by lia.
      rewrite <- Hlen in Hs. destruct (i - length cs)%nat; [|done].
      injection Hi as <-. injection Hs as <-.
      rewrite lookup_insert_ne by done. apply lookup_insert_eq. }
  split.
  { intros a Ha Hacs. rewrite Hnodes. unfold store. cbn [nodes].
    apply not_elem_of_app in Hacs as [Hacs Hac].
    rewrite !lookup_insert_ne; [by apply Hfr|..].
    - intros <-. apply Hac. by left.
    - done. }
  split.
  { by destruct add. }
  destruct add; cbn [AddSceneNode scene_nodes_ set_scene_nodes store].
  - by rewrite Hsn, map_app, app_assoc.
  - by rewrite Hsn.
Qed.

(** The loop over the sub-drawables of one drawable. *)
Lemma attach_loop fuel w this n add ra d :
  nodes w !! this = Some n -> drawables w !! ra = Some d ->
  forall rest pre cs subs wk base,
    r_Subrenderables d = pre ++ rest ->
    Forall (leaf_drawable w) rest ->
    attached w this n add cs subs (replicate (length rest) None) wk ->
    (base + length pre = length (children_ n) + length cs)%nat ->
    exists wk' new,
      foldM (fun w i =>
        let* d := deref_renderable w ra in
        let* sub := subscript (r_Subrenderables d) i in
        let* n := deref w this in
        let '(child, w) := alloc w (SceneNode_init (attrib_ n)) in
        let* w := AddRenderable w child sub in
        let* w := OnAttachRenderable (S fuel) w child false in
        let* w := Parent_set w child (Some this) in
        let* n := deref w this in
        let* cs := assign (children_ n) (base + i) (Some child) in
        let w := store w this (set_children cs n) in
        if add then AddToSceneManagerLocked (S fuel) w child else Ok w)
        (seq (length pre) (length rest)) wk = Ok wk'
      /\ length new = length rest
      /\ attached w this n add (cs ++ new) (subs ++ rest) [] wk'.
Proof.
  intros Hn Hd. induction rest as [|sub rest IH];
    intros pre cs subs wk base Hsubs Hleaf Hatt Hbase.
  - exists wk, []. split; [done|]. split; [done|]. by rewrite !app_nil_r.
  - apply Forall_cons in Hleaf as [Hsub Hleaf].
    pose proof Hatt as (Hlen & Hnd & Hf & Ht & Hc & Hfr & Hdr & Hsn).
    cbn [length seq foldM].
    (* the drawable and its sub-drawable *)
    unfold deref_renderable at 1. rewrite Hdr, Hd. cbn [bind].
    unfold subscript at 1. rewrite Hsubs, list_lookup_middle by done. cbn [bind].
    unfold deref at 1. rewrite Ht. cbn [bind attrib_ set_children].
    (* the new node *)
    unfold alloc. cbn iota beta zeta.
    set (child := fresh (dom (nodes wk))).
    assert (nodes wk !! child = None) as Hfresh
      by (apply not_elem_of_dom, is_fresh).
    unfold AddRenderable at 1. rewrite deref_store_eq. cbn [bind].
    rewrite store_store.
    set (nc := set_pos_aabb_dirty true _).
    rewrite (OnAttachRenderable_leaf fuel _ child nc sub);
      [|apply lookup_insert_eq|done|].
    2: { destruct sub as [a|]; [|done]. destruct Hsub as (ds & Hds & Hs).
         exists ds. split; [|done]. unfold store. cbn [drawables]. congruence. }
    cbn [bind]. unfold Parent_set, modify. rewrite deref_store_eq. cbn [bind].
    rewrite store_store.
    change (set_parent (Some this) nc) with (attached_child this (attrib_ n) sub).
    assert (child <> this) as Hct by congruence.
    rewrite deref_store_ne by done. unfold deref at 1. rewrite Ht. cbn [bind].
    cbn [children_ set_children replicate]. unfold assign.
    rewrite (app_assoc (children_ n)).
    set (C := children_ n ++ map Some cs).
    assert (base + length pre = length C + 0)%nat as Hidx
      by (subst C; rewrite length_app, length_map; lia).
    rewrite Hidx.
    change (replicate (length (sub :: rest)) (@None addr))
      with (@None addr :: replicate (length rest) None).
    assert ((length C + 0 <? length (C ++ None :: replicate (length rest) None))%nat
            = true) as ->
      by (apply Nat.ltb_lt; rewrite length_app; cbn [length]; lia).
    cbn [bind]. rewrite insert_app_r. cbn [insert list_insert].
    rewrite set_children_twice.
    (* the state after the step *)
    pose proof (attached_step w this n add cs subs None
                  (replicate (length rest) None) wk sub child
                  ltac:(by rewrite Hn) Hatt Hfresh) as Hatt'.
    set (wk1 := store (store wk child _) this _).
    assert (wk1
            = store (store wk child (attached_child this (attrib_ n) sub)) this
                (set_children
                   (children_ n ++ map Some (cs ++ [child])
                    ++ replicate (length rest) None) n)) as Hwk1.
    { subst wk1 C. do 2 f_equal. rewrite map_app. cbn [map].
      by rewrite <- !app_assoc. }
    assert ((if add then AddToSceneManagerLocked (S fuel) wk1 child else Ok wk1)
            = Ok ((if add then fun w => AddSceneNode w (Some child)
                   else fun w => w) wk1)) as ->.
    { destruct add; [|done]. unfold AddToSceneManagerLocked.
      cbn [AddToSceneManager]. subst wk1. rewrite deref_store_ne by done.
      rewrite deref_store_eq. cbn [bind]. done. }
    cbn [bind]. rewrite Hwk1.
    assert (r_Subrenderables d = (pre ++ [sub]) ++ rest) as Hsubs'
      by (by rewrite <- app_assoc).
    assert (base + length (pre ++ [sub])
            = length (children_ n) + length (cs ++ [child]))%nat as Hbase'
      by (rewrite !length_app; cbn [length]; lia).
    destruct (IH _ _ _ _ base Hsubs' Hleaf Hatt' Hbase')
      as (wk' & new & H' & Hnew & Hatt'').
    exists wk', (child :: new). rewrite length_app in H'. cbn [length] in H'.
    rewrite Nat.add_1_r in H'. split; [exact H'|].
    split; [by rewrite <- Hnew|].
    by rewrite <- !app_assoc in Hatt''.
Qed.

Lemma subdrawables_cons w r rs :
  subdrawables w (r :: rs)
  = match r ≫= fun a => drawables w !! a with
    | Some d => r_Subrenderables d
    | None => []
    end ++ subdrawables w rs.
Proof. reflexivity. Qed.

(** The child vector is made longer by [num] null places. *)
Lemma attached_pad w this n add cs subs wk num :
  nodes w !! this = Some n ->
  attached w this n add cs subs [] wk ->
  attached w this n add cs subs (replicate num None)
    (store wk this
       (set_children ((children_ n ++ map Some cs ++ [])
                      ++ replicate num None) n)).
Proof.
  intros Hn Hatt.
  assert (forall c, c ∈ cs -> c <> this) as Hct
    by (intros c; eapply attached_this; [by rewrite Hn|done]).
  destruct Hatt as (Hlen & Hnd & Hf & Ht & Hc & Hfr & Hdr & Hsn).
  split; [done|]. split; [done|]. split; [done|]. split.
  { unfold store. cbn [nodes]. rewrite lookup_insert_eq. do 2 f_equal.
    by rewrite app_nil_r, <- app_assoc. }
  split.
  { intros i c sub Hi Hs. unfold store. cbn [nodes].
    rewrite lookup_insert_ne; [by eapply Hc|].
    intros <-. eapply Hct; [|done]. by eapply list_elem_of_lookup_2. }
  split; [|done].
  intros a Ha Hacs. unfold store. cbn [nodes].
  rewrite lookup_insert_ne by done. by apply Hfr.
Qed.

(** The loop over the drawables of the node. *)
Lemma attach_all fuel w this n add :
  nodes w !! this = Some n ->
  forall rs cs subs wk,
    (forall r, r ∈ rs -> r = None \/ valid_renderable w r) ->
    Forall (leaf_drawable w) (subdrawables w rs) ->
    attached w this n add cs subs [] wk ->
    exists wk' new,
      foldM (fun w (renderable : RenderablePtr) =>
        match renderable with
        | None => Ok w
        | Some ra =>
          let* d := deref_renderable w ra in
          let num := length (r_Subrenderables d) in
          if (0 <? num)%nat then
            let* n := deref w this in
            let base := length (children_ n) in
            let w := store w this (set_children (children_ n ++ replicate num None) n) in
            foldM (fun w i =>
              let* d := deref_renderable w ra in
              let* sub := subscript (r_Subrenderables d) i in
              let* n := deref w this in
              let '(child, w) := alloc w (SceneNode_init (attrib_ n)) in
              let* w := AddRenderable w child sub in
              let* w := OnAttachRenderable (S fuel) w child false in
              let* w := Parent_set w child (Some this) in
              let* n := deref w this in
              let* cs := assign (children_ n) (base + i) (Some child) in
              let w := store w this (set_children cs n) in
              if add then AddToSceneManagerLocked (S fuel) w child else Ok w)
              (seq 0 num) w
          else Ok w
        end) rs wk = Ok wk'
      /\ attached w this n add (cs ++ new) (subs ++ subdrawables w rs) [] wk'.
Proof.
  intros Hn. induction rs as [|r rs IH]; intros cs subs wk Hv Hleaf Hatt.
  - exists wk, []. split; [done|]. by rewrite !app_nil_r.
  - rewrite subdrawables_cons in Hleaf. apply Forall_app in Hleaf as [Hleaf0 Hleaf].
    assert (forall r', r' ∈ rs -> r' = None \/ valid_renderable w r') as Hv'
      by (intros r' Hr'; apply Hv; by right).
    cbn [foldM]. rewrite subdrawables_cons.
    destruct (Hv r) as [->|(ra & d & -> & Hd)]; [by left|..].
    { cbn [bind mbind option_bind app]. by apply IH. }
    cbn [mbind option_bind] in *. rewrite Hd in *.
    pose proof Hatt as (Hlen & Hnd & Hf & Ht & Hc & Hfr & Hdr & Hsn).
    unfold deref_renderable at 1. rewrite Hdr, Hd. cbn [bind]. cbn zeta.
    destruct (r_Subrenderables d) as [|s0 ss] eqn:Hsubs.
    { cbn [length Nat.ltb Nat.leb app]. by apply IH. }
    rewrite <- Hsubs in *.
    assert ((0 <? length (r_Subrenderables d))%nat = true) as ->
      by (apply Nat.ltb_lt; rewrite Hsubs; simpl; lia).
    unfold deref at 1. rewrite Ht. cbn [bind children_ set_children].
    rewrite set_children_twice.
    pose proof (attached_pad w this n add cs subs wk
                  (length (r_Subrenderables d)) Hn Hatt) as Hpad.
    destruct (attach_loop fuel w this n add ra d Hn Hd
                (r_Subrenderables d) [] cs subs _
                (length (children_ n ++ map Some cs ++ []))
                eq_refl Hleaf0 Hpad)
      as (wk1 & new1 & H1 & Hnew1 & Hatt1).
    { cbn [length]. rewrite app_nil_r, length_app, length_map. lia. }
    cbn [length] in H1.
    match goal with
    | |- context [bind ?X _] => replace X with (Ok wk1) by (symmetry; exact H1)
    end.
    cbn [bind].
    destruct (IH (cs ++ new1) (subs ++ r_Subrenderables d) wk1 Hv' Hleaf Hatt1)
      as (wk' & new & H' & Hatt').
    exists wk', (new1 ++ new). split; [exact H'|]. by rewrite !app_assoc.
Qed.

Lemma set_children_id n : set_children (children_ n) n = n.
Proof. by destruct n. Qed.

Lemma attached_start w this n add :
  nodes w !! this = Some n -> attached w this n add [] [] [] w.
Proof.
  intros Hn. split; [done|]. split; [constructor|].
  split; [by intros c ?%elem_of_nil|]. split.
  { cbn [map app]. by rewrite app_nil_r, set_children_id. }
  split; [by intros i c sub ?|]. split; [done|]. split; [done|].
  destruct add; by rewrite app_nil_r.
Qed.

(** [OnAttachRenderable] on a node whose sub-drawables have none of their
    own. *)
Lemma OnAttachRenderable_attached fuel w this n add :
  nodes w !! this = Some n ->
  (forall r, r ∈ renderables_ n -> r = None \/ valid_renderable w r) ->
  Forall (leaf_drawable w) (subdrawables w (renderables_ n)) ->
  exists w' cs,
    OnAttachRenderable (S (S fuel)) w this add = Ok w'
    /\ attached w this n add cs (subdrawables w (renderables_ n)) [] w'.
Proof.
  intros Hn Hv Hleaf. cbn [OnAttachRenderable]. unfold deref at 1. rewrite Hn.
  cbn [bind].
  destruct (attach_all fuel w this n add Hn (renderables_ n) [] [] w Hv Hleaf
              (attached_start w this n add Hn)) as (w' & cs & H' & Hatt).
  exists w', cs. split; [exact H'|exact Hatt].
Qed.

(** X22.  On a node whose drawables are null or in the store, and whose
    sub-drawables have no sub-drawables of their own,
    [OnAttachRenderable(add_to_scene)] returns and appends one new child per
    sub-drawable, in the order of the drawables and of their sub-drawables,
    behind the children that were there.  Each new child is a new object
    that holds its sub-drawable with the readiness flag [false], has the
    attributes of the node and the node as parent; the new children are
    registered with the scene manager, in order, exactly when
    [add_to_scene] is set; nothing else in the store changes. *)
Theorem X22_OnAttachRenderable_appends_a_child_per_sub_drawable
    (fuel : nat) (w : World) (this : addr) (n : SceneNode) (add_to_scene : bool) :
  nodes w !! this = Some n ->
  (forall r, r ∈ renderables_ n -> r = None \/ valid_renderable w r) ->
  Forall (leaf_drawable w) (subdrawables w (renderables_ n)) ->
  exists w' cs,
    OnAttachRenderable (S (S fuel)) w this add_to_scene = Ok w'
    /\ length cs = length (subdrawables w (renderables_ n))
    /\ NoDup cs
    /\ (forall c, c ∈ cs -> nodes w !! c = None)
    /\ nodes w' !! this = Some (set_children (children_ n ++ map Some cs) n)
    /\ (forall i c sub,
          cs !! i = Some c -> subdrawables w (renderables_ n) !! i = Some sub ->
          nodes w' !! c = Some (attached_child this (attrib_ n) sub))
    /\ (forall a, a <> this -> a ∉ cs -> nodes w' !! a = nodes w !! a)
    /\ drawables w' = drawables w
    /\ scene_nodes_ w'
       = scene_nodes_ w ++ (if add_to_scene then map Some cs else []).
Proof.
  intros Hn Hv Hleaf.
  destruct (OnAttachRenderable_attached fuel w this n add_to_scene Hn Hv Hleaf)
    as (w' & cs & H' & Hlen & Hnd & Hf & Ht & Hc & Hfr & Hdr & Hsn).
  exists w', cs. split; [done|]. split; [done|]. split; [done|]. split; [done|].
  split; [|done]. by rewrite Ht, app_nil_r.
Qed.

End Expansion.

(** ** Helper nodes *)

Section Helpers.
Context {ML : MathLib}.

Lemma NotCastShadow_set attrib :
  Z.land (Z.lor attrib SOA_NotCastShadow) SOA_NotCastShadow <> 0.
Proof.
  intros H. pose proof (land_pow2_eqb (Z.lor attrib SOA_NotCastShadow) 4 ltac:(lia)) as Hb.
  change (2 ^ 4) with SOA_NotCastShadow in Hb. rewrite H in Hb.
  rewrite Z.lor_spec in Hb. change SOA_NotCastShadow with (2 ^ 4) in Hb.
  rewrite Z.pow2_bits_true in Hb by lia. rewrite orb_true_r in Hb. done.
Qed.

(** [SceneNode(renderable, attrib)] for a drawable without sub-drawables. *)
Lemma SceneNode_new_renderable_leaf fuel w sub attrib :
  leaf_drawable w sub ->
  SceneNode_new_renderable (S fuel) w sub attrib
  = Ok (fresh (dom (nodes w)),
        store w (fresh (dom (nodes w)))
          (set_pos_aabb_dirty true
             (set_hw_res_ready [false]
                (set_renderables [sub] (SceneNode_init attrib))))).
Proof.
  intros Hleaf. unfold SceneNode_new_renderable, alloc. cbn iota beta zeta.
  unfold AddRenderable. rewrite deref_store_eq. cbn [bind]. rewrite store_store.
  erewrite OnAttachRenderable_leaf; [done|apply lookup_insert_eq|done|].
  destruct sub as [a|]; [|done]. destruct Hleaf as (d & Hd & Hs). by exists d.
Qed.

(** X23.  [SceneObjectSkyBox(attrib)], for a sky-box drawable without
    sub-drawables, creates a new node with a new drawable as its only one,
    no children, and [SOA_NotCastShadow] added to [attrib]; [Pass(type)] on
    it returns and leaves it visible exactly when the pass is not a
    shadow-map pass. *)
Theorem X23_sky_box_is_hidden_in_shadow_passes
    (fuel : nat) (w : World) (skybox : Renderable) (attrib : Z) (type : PassType) :
  r_Subrenderables skybox = [] ->
  exists this r w1 w2,
    SceneObjectSkyBox_new (S fuel) w skybox attrib = Ok (this, w1)
    /\ nodes w !! this = None
    /\ drawables w !! r = None
    /\ drawables w1 !! r = Some skybox
    /\ Attrib w1 this = Ok (Z.lor attrib SOA_NotCastShadow)
    /\ GetRenderable w1 this = Ok (Some r)
    /\ NumRenderables w1 this = Ok 1
    /\ Children w1 this = Ok []
    /\ Pass (S fuel) w1 this type = Ok w2
    /\ Visible w2 this = Ok (not_shadow_map_pass type).
Proof.
  intros Hsubs. unfold SceneObjectSkyBox_new, alloc_renderable. cbn iota beta zeta.
  set (r := fresh (dom (drawables w))).
  set (w0 := store_renderable w r skybox).
  assert (drawables w0 !! r = Some skybox) as Hr by apply lookup_insert_eq.
  rewrite SceneNode_new_renderable_leaf by (by exists skybox).
  change (nodes w0) with (nodes w). set (this := fresh (dom (nodes w))).
  set (n := set_pos_aabb_dirty true _). set (w1 := store w0 this n).
  assert (nodes w1 !! this = Some n) as Hn by apply lookup_insert_eq.
  destruct (Pass_tree w1 (Tree this []) (S fuel) n type) as (w2 & H2 & _ & V2 & _).
  { econstructor; [exact Hn|done|constructor]. }
  { simpl. lia. }
  { exact Hn. }
  { constructor; [|constructor]. by exists r, skybox. }
  exists this, r, w1, w2. split; [done|].
  split; [apply not_elem_of_dom, is_fresh|].
  split; [apply not_elem_of_dom, is_fresh|]. split; [exact Hr|].
  unfold Attrib, GetRenderable, GetRenderable_at, NumRenderables, Children, deref.
  rewrite Hn. cbn [bind]. split; [done|]. split; [done|]. split; [done|].
  split; [done|]. split; [exact H2|]. apply V2.
  - apply NotCastShadow_set.
  - by left.
Qed.

(** *** Proxies of lights and cameras *)

Lemma mesh_leaf w sub : mesh w sub -> leaf_drawable w sub.
Proof. intros (a & ds & -> & Hds & Hs). by exists ds. Qed.

Lemma resize_same {A} (v : list A) (x : A) : resize v (length v) x = v.
Proof.
  unfold resize. rewrite firstn_all, Nat.sub_diag. cbn [replicate].
  apply app_nil_r.
Qed.

(** The loop of the constructor over the meshes of the model. *)
Lemma proxy_loop fuel wb this n m d :
  nodes wb !! this <> None -> drawables wb !! m = Some d -> children_ n = [] ->
  forall rest pre cs subs old wk,
    r_Subrenderables d = pre ++ rest ->
    Forall (mesh wb) rest ->
    length old = length rest ->
    attached wb this n false cs subs old wk ->
    length pre = length cs ->
    exists wk' new,
      foldM (fun w i =>
        let* d := deref_renderable w m in
        let* sub := subscript (r_Subrenderables d) i in
        let* s := nonnull sub in
        let* _ := deref_renderable w s in
        let* n := deref w this in
        let* c := SceneNode_new_renderable (S fuel) w sub (attrib_ n) in
        let '(child, w) := c in
        let* w := Parent_set w child (Some this) in
        let* n := deref w this in
        let* cs := assign (children_ n) i (Some child) in
        Ok (store w this (set_children cs n)))
        (seq (length pre) (length rest)) wk = Ok wk'
      /\ length new = length rest
      /\ attached wb this n false (cs ++ new) (subs ++ rest) [] wk'.
Proof.
  intros Hthis Hd Hkids. induction rest as [|sub rest IH];
    intros pre cs subs old wk Hsubs Hmesh Hold Hatt Hpre.
  - destruct old; [|done]. exists wk, []. split; [done|]. split; [done|].
    by rewrite !app_nil_r.
  - destruct old as [|o old]; [done|]. injection Hold as Hold.
    apply Forall_cons in Hmesh as [Hsub Hmesh].
    pose proof Hatt as (Hlen & Hnd & Hf & Ht & Hc & Hfr & Hdr & Hsn).
    rewrite Hkids in Ht. cbn [app] in Ht.
    cbn [length seq foldM].
    unfold deref_renderable at 1. rewrite Hdr, Hd. cbn [bind].
    unfold subscript at 1. rewrite Hsubs, list_lookup_middle by done. cbn [bind].
    pose proof (mesh_leaf _ _ Hsub) as Hleaf.
    destruct Hsub as (a & ds & -> & Hds & Hs). cbn [nonnull bind].
    unfold deref_renderable at 1. rewrite Hdr, Hds. cbn [bind].
    unfold deref at 1. rewrite Ht. cbn [bind attrib_ set_children].
    rewrite SceneNode_new_renderable_leaf.
    2: { exists ds. split; [congruence|done]. }
    cbn [bind]. set (child := fresh (dom (nodes wk))).
    assert (nodes wk !! child = None) as Hfresh
      by (apply not_elem_of_dom, is_fresh).
    unfold Parent_set, modify. rewrite deref_store_eq. cbn [bind].
    rewrite store_store.
    set (nc := set_pos_aabb_dirty true _).
    change (set_parent (Some this) nc)
      with (attached_child this (attrib_ n) (Some a)).
    assert (child <> this) as Hct by congruence.
    rewrite deref_store_ne by done. unfold deref at 1. rewrite Ht. cbn [bind].
    cbn [children_ set_children]. unfold assign.
    assert (length pre = length (map Some cs) + 0)%nat as Hidx
      by (rewrite length_map; lia).
    rewrite Hidx.
    match goal with
    | |- context [Nat.ltb ?i ?l] =>
      assert (Nat.ltb i l = true) as ->
        by (apply Nat.ltb_lt; rewrite length_app; cbn [length]; lia)
    end.
    cbn [bind]. rewrite insert_app_r. cbn [insert list_insert].
    rewrite set_children_twice.
    pose proof (attached_step wb this n false cs subs o old wk (Some a) child
                  Hthis Hatt Hfresh) as Hatt'.
    cbn beta iota in Hatt'.
    assert (r_Subrenderables d = (pre ++ [Some a]) ++ rest) as Hsubs'
      by (by rewrite <- app_assoc).
    assert (length (pre ++ [Some a]) = length (cs ++ [child])) as Hpre'
      by (rewrite !length_app; cbn [length]; lia).
    destruct (IH _ _ _ _ _ Hsubs' Hmesh Hold Hatt' Hpre')
      as (wk' & new & H' & Hnew & Hatt'').
    exists wk', (child :: new). rewrite length_app in H'. cbn [length] in H'.
    rewrite Nat.add_1_r in H'. split.
    { rewrite <- H'. f_equal; [by rewrite <- Hidx|]. do 2 f_equal.
      rewrite Hkids, map_app. cbn [map app]. by rewrite <- app_assoc. }
    split; [by rewrite <- Hnew|].
    by rewrite <- !app_assoc in Hatt''.
Qed.

(** X24.  The constructors of [SceneObjectLightSourceProxy] and
    [SceneObjectCameraProxy] from a model whose meshes are drawables
    without sub-drawables: the proxy is a new node that holds the model and
    ends with exactly one child per mesh of the model, in order (the
    children that the constructor of the base class attached are
    overwritten); each child is a new node that holds its mesh, has the
    proxy as parent and the attributes cullable, moveable and not casting
    shadows.  From a null model the constructor dereferences null. *)
Theorem X24_proxy_has_one_child_per_mesh
    (fuel : nat) (w : World) (m : addr) (d : Renderable) :
  drawables w !! m = Some d ->
  Forall (mesh w) (r_Subrenderables d) ->
  exists this w' cs,
    SceneObjectLightSourceProxy_new (S (S fuel)) w (Some m) = Ok (this, w')
    /\ SceneObjectCameraProxy_new (S (S fuel)) w (Some m) = Ok (this, w')
    /\ nodes w !! this = None
    /\ length cs = length (r_Subrenderables d)
    /\ NoDup cs
    /\ (forall c, c ∈ cs -> c <> this /\ nodes w !! c = None)
    /\ Children w' this = Ok (map Some cs)
    /\ Attrib w' this
       = Ok (Z.lor (Z.lor SOA_Cullable SOA_Moveable) SOA_NotCastShadow)
    /\ GetRenderable w' this = Ok (Some m)
    /\ (forall i c sub,
          cs !! i = Some c -> r_Subrenderables d !! i = Some sub ->
          nodes w' !! c
          = Some (attached_child this
                    (Z.lor (Z.lor SOA_Cullable SOA_Moveable) SOA_NotCastShadow) sub))
    /\ drawables w' = drawables w
    /\ scene_nodes_ w' = scene_nodes_ w
    /\ SceneObjectLightSourceProxy_new (S (S fuel)) w None = Fault NullDereference.
Proof.
  intros Hd Hmesh.
  set (A := Z.lor (Z.lor SOA_Cullable SOA_Moveable) SOA_NotCastShadow).
  set (this := fresh (dom (nodes w))).
  assert (nodes w !! this = None) as Hfresh by (apply not_elem_of_dom, is_fresh).
  set (na := set_pos_aabb_dirty true
               (set_hw_res_ready [false]
                  (set_renderables [Some m] (SceneNode_init A)))).
  set (wa := store w this na).
  assert (nodes wa !! this = Some na) as Hna by apply lookup_insert_eq.
  (* the constructor of the base class *)
  destruct (OnAttachRenderable_attached fuel wa this na false Hna)
    as (wb & cs0 & Hb & Hatt0).
  { intros r ->%list_elem_of_singleton. right. by exists m, d. }
  { unfold subdrawables. cbn [map concat mbind option_bind renderables_ na
      set_pos_aabb_dirty set_hw_res_ready set_renderables].
    change (drawables wa) with (drawables w). rewrite Hd, app_nil_r.
    eapply Forall_impl; [exact Hmesh|]. intros sub Hs. by apply mesh_leaf. }
  assert (subdrawables wa (renderables_ na) = r_Subrenderables d) as Hsubs0.
  { unfold subdrawables. cbn [map concat mbind option_bind renderables_ na
      set_pos_aabb_dirty set_hw_res_ready set_renderables].
    change (drawables wa) with (drawables w). by rewrite Hd, app_nil_r. }
  rewrite Hsubs0 in Hatt0.
  pose proof Hatt0 as (Hlen0 & Hnd0 & Hf0 & Ht0 & Hc0 & Hfr0 & Hdr0 & Hsn0).
  change (children_ na) with (@nil SceneNodePtr) in Ht0. cbn [app] in Ht0.
  rewrite app_nil_r in Ht0.
  assert (SceneNode_new_renderable (S (S fuel)) w (Some m) A = Ok (this, wb)) as Hbase.
  { unfold SceneNode_new_renderable, alloc. cbn iota beta zeta.
    unfold AddRenderable. rewrite deref_store_eq. cbn [bind]. rewrite store_store.
    fold this. change (store w this _) with wa. by rewrite Hb. }
  assert (drawables wb !! m = Some d) as Hdb by (rewrite Hdr0; exact Hd).
  assert (Forall (mesh wb) (r_Subrenderables d)) as Hmeshb.
  { eapply Forall_impl; [exact Hmesh|]. intros sub (a & ds & -> & Hds & Hs).
    exists a, ds. split; [done|]. split; [|done]. by rewrite Hdr0. }
  (* the loop *)
  destruct (proxy_loop (S fuel) wb this na m d) with
    (rest := r_Subrenderables d) (pre := @nil RenderablePtr) (cs := @nil addr)
    (subs := @nil RenderablePtr) (old := map Some cs0 : list SceneNodePtr) (wk := wb)
    as (w' & cs & Hloop & Hlen & Hatt); try done.
  { by rewrite Ht0. }
  { by rewrite length_map. }
  { split; [done|]. split; [constructor|]. split; [by intros c ?%elem_of_nil|].
    split; [by rewrite Ht0|]. split; [by intros i c sub ?|].
    split; [done|]. split; [done|]. by rewrite app_nil_r. }
  cbn [length app] in Hloop, Hatt.
  destruct Hatt as (_ & Hnd & Hf & Ht & Hc & Hfr & Hdr & Hsn).
  change (children_ na) with (@nil SceneNodePtr) in Ht. cbn [app] in Ht.
  rewrite app_nil_r in Ht, Hsn.
  assert (SceneObjectLightSourceProxy_new (S (S fuel)) w (Some m) = Ok (this, w'))
    as Hnew.
  { unfold SceneObjectLightSourceProxy_new. fold A. rewrite Hbase.
    cbn [bind nonnull]. unfold deref_renderable at 1. rewrite Hdb. cbn [bind].
    unfold deref at 1. rewrite Ht0. cbn [bind children_ set_children].
    assert (length (r_Subrenderables d) = length (map Some cs0 : list SceneNodePtr))
      as Hl by (by rewrite length_map).
    match goal with
    | |- context [foldM ?F ?l ?W] =>
      assert (W = wb) as ->
        by (rewrite Hl, resize_same, set_children_twice; by apply store_id)
    end.
    match goal with
    | |- context [bind ?X _] => replace X with (Ok w') by (symmetry; exact Hloop)
    end.
    done. }
  exists this, w', cs. split; [exact Hnew|]. split; [exact Hnew|].
  split; [done|]. split; [done|]. split; [done|]. split.
  { intros c Hin. assert (c <> this) as Hct.
    { intros ->. specialize (Hf _ Hin). by rewrite Ht0 in Hf. }
    split; [done|].
    destruct (decide (c ∈ cs0)) as [Hc0'|Hc0'].
    - specialize (Hf0 _ Hc0'). subst wa. unfold store in Hf0. cbn [nodes] in Hf0.
      by rewrite lookup_insert_ne in Hf0.
    - specialize (Hf _ Hin). rewrite Hfr0 in Hf by done.
      subst wa. unfold store in Hf. cbn [nodes] in Hf.
      by rewrite lookup_insert_ne in Hf. }
  unfold Children, Attrib, GetRenderable, GetRenderable_at, deref. rewrite Ht.
  cbn [bind]. split; [done|]. split; [done|]. split; [done|].
  split; [exact Hc|]. split; [by rewrite Hdr, Hdr0|]. split; [by rewrite Hsn, Hsn0, app_nil_r|].
  unfold SceneObjectLightSourceProxy_new. by rewrite SceneNode_new_renderable_leaf.
Qed.

End Helpers.

(** ** Expansion at construction and again at readiness *)

Section Again.
Context {ML : MathLib}.
Variable invoke : callback -> addr -> float -> float -> World -> result World.

Lemma mesh_valid w sub : mesh w sub -> valid_renderable w sub.
Proof. intros (a & ds & -> & Hds & _). by exists a, ds. Qed.

Lemma height_star a (cs : list addr) :
  (height (Tree a (map (fun c => Tree c []) cs)) <= 2)%nat.
Proof.
  cbn [height]. apply le_n_S. induction cs as [|c cs IH]; cbn; [lia|].
  cbn in IH. lia.
Qed.

Lemma preorder_star a (cs : list addr) :
  preorder (Tree a (map (fun c => Tree c []) cs)) = a :: cs.
Proof.
  cbn [preorder]. f_equal. induction cs as [|c cs IH]; cbn; [done|].
  by rewrite IH.
Qed.

(** X25.  A drawable with sub-drawables is expanded twice when it is given
    to the constructor and reports its hardware resources ready: the
    constructor attaches one child per sub-drawable, and the first
    [MainThreadUpdate] returns [true] and attaches one more child per
    sub-drawable behind them. *)
Theorem X25_ready_composite_is_expanded_again
    (fuel : nat) (w : World) (m : addr) (d : Renderable) (attrib : Z)
    (app_time elapsed_time : float) :
  drawables w !! m = Some d -> r_HWResourceReady d = true ->
  Forall (mesh w) (r_Subrenderables d) ->
  exists this w1 w2 cs0 cs1,
    SceneNode_new_renderable (S (S fuel)) w (Some m) attrib = Ok (this, w1)
    /\ Children w1 this = Ok (map Some cs0)
    /\ MainThreadUpdate invoke (S (S fuel)) w1 this app_time elapsed_time
       = Ok (true, w2)
    /\ Children w2 this = Ok (map Some (cs0 ++ cs1))
    /\ length cs0 = length (r_Subrenderables d)
    /\ length cs1 = length (r_Subrenderables d)
    /\ NoDup (cs0 ++ cs1).
Proof.
  intros Hd Hready Hmesh.
  set (this := fresh (dom (nodes w))).
  set (na := set_pos_aabb_dirty true
               (set_hw_res_ready [false]
                  (set_renderables [Some m] (SceneNode_init attrib)))).
  set (wa := store w this na).
  assert (nodes wa !! this = Some na) as Hna by apply lookup_insert_eq.
  assert (forall w0 : World, drawables w0 = drawables w ->
            subdrawables w0 [Some m] = r_Subrenderables d) as Hsubs.
  { intros w0 Hw0. unfold subdrawables.
    cbn [map concat mbind option_bind]. by rewrite Hw0, Hd, app_nil_r. }
  assert (forall w0 : World, drawables w0 = drawables w ->
            Forall (leaf_drawable w0) (r_Subrenderables d)) as Hleaf.
  { intros w0 Hw0. eapply Forall_impl; [exact Hmesh|].
    intros sub (a & ds & -> & Hds & Hs). exists ds. by rewrite Hw0. }
  (* the constructor *)
  destruct (OnAttachRenderable_attached fuel wa this na false Hna)
    as (wb & cs0 & Hb & Hatt0).
  { intros r ->%list_elem_of_singleton. right. by exists m, d. }
  { change (renderables_ na) with [Some m]. rewrite Hsubs by done. by apply Hleaf. }
  change (renderables_ na) with [Some m] in Hatt0. rewrite Hsubs in Hatt0 by done.
  pose proof Hatt0 as (Hlen0 & Hnd0 & Hf0 & Ht0 & Hc0 & Hfr0 & Hdr0 & Hsn0).
  change (children_ na) with (@nil SceneNodePtr) in Ht0. cbn [app] in Ht0.
  rewrite app_nil_r in Ht0.
  assert (SceneNode_new_renderable (S (S fuel)) w (Some m) attrib = Ok (this, wb))
    as Hbase.
  { unfold SceneNode_new_renderable, alloc. cbn iota beta zeta.
    unfold AddRenderable. rewrite deref_store_eq. cbn [bind]. rewrite store_store.
    fold this. change (store w this _) with wa. by rewrite Hb. }
  set (nb := set_children (map Some cs0) na) in *.
  (* the readiness loop *)
  set (nc := set_hw_res_ready [true] nb).
  set (wc := store wb this nc).
  assert (nodes wc !! this = Some nc) as Hnc by apply lookup_insert_eq.
  assert (drawables wc = drawables w) as Hdrc by exact Hdr0.
  assert (foldM (mark_hw_res_ready this) (seq 0 (length (renderables_ nb))) (false, wb)
          = Ok (true, wc)) as Hloop.
  { change (renderables_ nb) with [Some m]. cbn [length seq foldM].
    unfold mark_hw_res_ready, deref. rewrite Ht0. cbn [bind].
    change (renderables_ nb) with [Some m].
    change (renderables_hw_res_ready_ nb) with [false].
    cbn [subscript lookup list_lookup bind]. unfold deref_renderable.
    rewrite Hdr0. change (drawables wa) with (drawables w). rewrite Hd.
    cbn [bind]. by rewrite Hready. }
  (* the second expansion *)
  destruct (OnAttachRenderable_attached fuel wc this nc false Hnc)
    as (wd & cs1 & Hd' & Hatt1).
  { intros r ->%list_elem_of_singleton. right. exists m, d. by rewrite Hdrc. }
  { change (renderables_ nc) with [Some m]. rewrite Hsubs by done. by apply Hleaf. }
  change (renderables_ nc) with [Some m] in Hatt1. rewrite Hsubs in Hatt1 by done.
  pose proof Hatt1 as (Hlen1 & Hnd1 & Hf1 & Ht1 & Hc1 & Hfr1 & Hdr1 & Hsn1).
  change (children_ nc) with (map Some cs0 : list SceneNodePtr) in Ht1.
  rewrite app_nil_r in Ht1.
  set (nd := set_children (map Some cs0 ++ map Some cs1) nc) in *.
  assert (drawables wd = drawables w) as Hdrd by congruence.
  assert (forall c, c ∈ cs0 -> c <> this) as Hct0.
  { intros c Hin. eapply attached_this; [|exact Hatt0|exact Hin]. by rewrite Hna. }
  assert (forall c, c ∈ cs1 -> c <> this) as Hct1.
  { intros c Hin. eapply attached_this; [|exact Hatt1|exact Hin]. by rewrite Hnc. }
  assert (forall c, c ∈ cs0 -> c ∉ cs1) as Hdisj.
  { intros c Hin0 Hin1. specialize (Hf1 _ Hin1). subst wc. unfold store in Hf1.
    cbn [nodes] in Hf1. rewrite lookup_insert_ne in Hf1 by (symmetry; auto).
    by eapply attached_present in Hin0. }
  assert (forall c, c ∈ cs0 ++ cs1 ->
            exists sub, mesh w sub
                        /\ nodes wd !! c = Some (attached_child this attrib sub))
    as Hkid.
  { intros c [Hin|Hin]%elem_of_app.
    - apply list_elem_of_lookup in Hin as Hi. destruct Hi as (i & Hi).
      destruct (lookup_lt_is_Some_2 (r_Subrenderables d) i) as (sub & Hs).
      { rewrite <- Hlen0. by eapply lookup_lt_Some. }
      exists sub. split.
      { rewrite Forall_forall in Hmesh. apply Hmesh. by eapply list_elem_of_lookup_2. }
      rewrite Hfr1 by auto. subst wc. unfold store. cbn [nodes].
      rewrite lookup_insert_ne by (symmetry; auto). by eapply Hc0.
    - apply list_elem_of_lookup in Hin as Hi. destruct Hi as (i & Hi).
      destruct (lookup_lt_is_Some_2 (r_Subrenderables d) i) as (sub & Hs).
      { rewrite <- Hlen1. by eapply lookup_lt_Some. }
      exists sub. split.
      { rewrite Forall_forall in Hmesh. apply Hmesh. by eapply list_elem_of_lookup_2. }
      by eapply Hc1. }
  (* propagation *)
  set (t := Tree this (map (fun c => Tree c []) (cs0 ++ cs1))).
  destruct (UpdateAbsModelMatrix_tree wd t (S (S fuel)) nd)
    as (we & ne & M & He & Hne & _).
  { econstructor; [exact Ht1| |].
    - subst nd. cbn [children_ set_children]. rewrite map_map. cbn [root].
      by rewrite map_app.
    - apply Forall_forall. intros k Hk.
      apply list_elem_of_fmap in Hk as (c & -> & Hc).
      destruct (Hkid c Hc) as (sub & _ & Hsub).
      econstructor; [exact Hsub|done|constructor]. }
  { pose proof (height_star this (cs0 ++ cs1)). subst t. lia. }
  { intros a Ha. subst t. rewrite preorder_star in Ha.
    apply elem_of_cons in Ha as [->|Ha].
    - intros n Hn _ _.
      assert (Some n = Some nd) as [= ->] by (rewrite <- Hn; exact Ht1).
      change (renderables_ nd) with [Some m]. split; [done|].
      constructor; [|constructor]. exists m, d. by rewrite Hdrd.
    - destruct (Hkid a Ha) as (sub & Hsub & Hnode).
      intros n Hn _ _.
      assert (Some n = Some (attached_child this attrib sub)) as [= ->]
        by (rewrite <- Hn; exact Hnode).
      change (renderables_ (attached_child this attrib sub)) with [sub].
      split; [done|]. constructor; [|constructor].
      destruct Hsub as (x & ds & -> & Hds & _). exists x, ds. by rewrite Hdrd. }
  { exact Ht1. }
  { done. }
  { constructor; [|constructor]. exists m, d. by rewrite Hdrd. }
  { by intros p Hp. }
  { done. }
  cbn [root t] in He, Hne.
  pose proof (UpdateAbsModelMatrix_evolves _ _ _ _ He) as (N & _).
  destruct (N _ _ Ht1) as (ne' & Hne' & mm & o & ws & dd & -> & _).
  assert (Some ne
          = Some (set_abs_model mm
                    (set_pos_aabb_ws ws (set_pos_aabb_dirty dd (set_pos_aabb_os o nd)))))
    as [= ->] by (rewrite <- Hne; exact Hne').
  exists this, wb, we, cs0, cs1. split; [exact Hbase|]. split.
  { unfold Children, deref. by rewrite Ht0. }
  split.
  { unfold MainThreadUpdate, deref at 1. rewrite Ht0. cbn [bind]. rewrite Hloop.
    cbn [bind fst snd]. rewrite Hd'. cbn [bind]. rewrite He. cbn [bind].
    unfold deref. by rewrite Hne. }
  split.
  { unfold Children, deref. rewrite Hne. cbn [bind]. by rewrite map_app. }
  split; [done|]. split; [done|].
  apply NoDup_app. split; [done|]. split; [exact Hdisj|done].
Qed.

End Again.

(** ** The whole of [MainThreadUpdate] *)

Section Refresh.
Context {ML : MathLib}.

Lemma bound_computable_agree w w' a :
  nodes w' !! a = nodes w !! a -> drawables w' = drawables w ->
  bound_computable w a -> bound_computable w' a.
Proof.
  intros Hn Hd Hc m Hm Hdm Hom. rewrite Hn in Hm.
  destruct (Hc m Hm Hdm Hom) as [Hne Hv]. split; [done|].
  eapply Forall_impl; [exact Hv|]. intros r. by apply valid_renderable_ext.
Qed.

Lemma max_list_app l1 l2 :
  max_list (l1 ++ l2) = (max_list l1 `max` max_list l2)%nat.
Proof. induction l1 as [|x l1 IH]; simpl; [done|]. rewrite IH. lia. Qed.

Lemma height_attach a kids (cs : list addr) :
  (height (Tree a (kids ++ map (fun c => Tree c []) cs))
   <= height (Tree a kids) `max` 2)%nat.
Proof.
  cbn [height]. rewrite map_app, max_list_app.
  assert (max_list (map height (map (fun c => Tree c []) cs)) <= 1)%nat.
  { induction cs as [|c cs IH]; simpl; [lia|]. simpl in IH. lia. }
  lia.
Qed.

Lemma preorder_attach a kids (cs : list addr) :
  preorder (Tree a (kids ++ map (fun c => Tree c []) cs))
  = a :: concat (map preorder kids) ++ cs.
Proof.
  cbn [preorder]. f_equal. rewrite map_app, concat_app. f_equal.
  induction cs as [|c cs IH]; cbn; [done|]. by rewrite IH.
Qed.

Section Calls.
Variable invoke : callback -> addr -> float -> float -> World -> result World.
Hypothesis Hkeep : callbacks_keep_readiness invoke.
Hypothesis Hret : callbacks_return invoke.

(** The update function of the node, when one is bound. *)
Lemma main_thread_update_func_returns w this n app_time elapsed_time :
  exists w1,
    match main_thread_update_func_ n with
    | Some f => invoke f this app_time elapsed_time w
    | None => Ok w
    end = Ok w1
    /\ (main_thread_update_func_ n = None -> w1 = w).
Proof.
  destruct (main_thread_update_func_ n) as [f|].
  - destruct (Hret f this app_time elapsed_time w) as (w1 & H1). by exists w1.
  - by exists w.
Qed.

(** The rest of the call after a refresh: the drawables are expanded
    into new children and the matrices and bounds are propagated. *)
Lemma MainThreadUpdate_after_refresh
    (fuel : nat) (w : World) (t : tree) (n : SceneNode)
    (app_time elapsed_time : float) :
  shape w t -> (height t <= S (S fuel))%nat ->
  (forall a, a ∈ preorder t -> bound_computable w a) ->
  nodes w !! root t = Some n ->
  renderables_ n <> [] -> Forall (valid_renderable w) (renderables_ n) ->
  Forall (mesh w) (subdrawables w (renderables_ n)) ->
  (forall p, parent_ n = Some p -> nodes w !! p <> None) ->
  present (pos_aabb_ws_ n) = present (pos_aabb_os_ n) ->
  exists w1 cs,
    MainThreadUpdate_after_loop invoke (S (S fuel)) true w (root t)
      app_time elapsed_time = Ok (true, w1)
    /\ length cs = length (subdrawables w (renderables_ n))
    /\ (main_thread_update_func_ n = None ->
        Children w1 (root t) = Ok (children_ n ++ map Some cs)).
Proof.
  intros Hs Hh Hcomp Hn Hne Hv Hmesh Hpar Hb.
  destruct t as [this kids]. cbn [root] in *.
  pose proof (shape_acyclic w this kids Hs) as Hacyc.
  apply shape_inv in Hs as Hinv. destruct Hinv as (n0 & Hn0 & Hc & Hkids).
  assert (n0 = n) as -> by congruence. clear Hn0.
  (* the expansion *)
  destruct (OnAttachRenderable_attached fuel w this n false Hn)
    as (wb & cs & Hb' & Hatt).
  { intros r Hr. right. rewrite Forall_forall in Hv. by apply Hv. }
  { eapply Forall_impl; [exact Hmesh|]. apply mesh_leaf. }
  pose proof Hatt as (Hlen & Hnd & Hfresh & Ht & Hchild & Hframe & Hdr & _).
  rewrite app_nil_r in Ht.
  set (nb := set_children (children_ n ++ map Some cs) n) in *.
  assert (forall a, a ∈ concat (map preorder kids) -> nodes wb !! a = nodes w !! a)
    as Hold.
  { intros a Ha. apply Hframe.
    - intros ->. by apply Hacyc.
    - intros Hin. specialize (Hfresh _ Hin).
      eapply (shape_nodes_present w (Tree this kids)); [exact Hs| |exact Hfresh].
      simpl. by right. }
  assert (forall c, c ∈ cs ->
            exists sub, mesh w sub
                        /\ nodes wb !! c = Some (attached_child this (attrib_ n) sub))
    as Hnew.
  { intros c Hin. apply list_elem_of_lookup in Hin as (i & Hi).
    destruct (lookup_lt_is_Some_2 (subdrawables w (renderables_ n)) i) as (sub & Hsub).
    { rewrite <- Hlen. by eapply lookup_lt_Some. }
    exists sub. split; [|by eapply Hchild].
    rewrite Forall_forall in Hmesh. apply Hmesh. by eapply list_elem_of_lookup_2. }
  (* the tree after the expansion *)
  set (t' := Tree this (kids ++ map (fun c => Tree c []) cs)).
  assert (shape wb t') as Hs'.
  { econstructor; [exact Ht| |].
    - subst nb. cbn [children_ set_children]. rewrite Hc, map_app, map_map. done.
    - apply Forall_app. split.
      + rewrite Forall_forall in Hkids. apply Forall_forall. intros k Hk.
        apply (shape_agree w); [|by apply Hkids].
        intros a Ha. apply Hold. apply list_elem_of_In, in_concat.
        exists (preorder k). split; [|by apply list_elem_of_In].
        apply in_map. by apply list_elem_of_In.
      + apply Forall_forall. intros k Hk.
        apply list_elem_of_fmap in Hk as (c & -> & Hcin).
        destruct (Hnew c Hcin) as (sub & _ & Hsub).
        econstructor; [exact Hsub|done|constructor]. }
  destruct (UpdateAbsModelMatrix_tree wb t' (S (S fuel)) nb)
    as (wc & nc & M & Hc' & Hnc & _).
  { exact Hs'. }
  { pose proof (height_attach this kids cs). subst t'. lia. }
  { intros a Ha. subst t'. rewrite preorder_attach in Ha.
    apply elem_of_cons in Ha as [->|Ha]; [|apply elem_of_app in Ha as [Ha|Ha]].
    - intros m Hm _ _.
      assert (Some m = Some nb) as [= ->] by (rewrite <- Hm; exact Ht).
      split; [done|]. eapply Forall_impl; [exact Hv|]. intros r.
      by apply valid_renderable_ext.
    - apply (bound_computable_agree w); [by apply Hold|done|].
      apply Hcomp. simpl. by right.
    - destruct (Hnew a Ha) as (sub & Hsub & Hnode). intros m Hm _ _.
      assert (Some m = Some (attached_child this (attrib_ n) sub)) as [= ->]
        by (rewrite <- Hm; exact Hnode).
      split; [done|]. constructor; [|constructor].
      apply (valid_renderable_ext w); [done|]. by apply mesh_valid. }
  { exact Ht. }
  { done. }
  { eapply Forall_impl; [exact Hv|]. intros r. by apply valid_renderable_ext. }
  { intros p Hp. change (parent_ nb) with (parent_ n) in Hp.
    specialize (Hpar p Hp). destruct (decide (p = this)) as [->|Hne'].
    - by rewrite Ht.
    - rewrite Hframe; [done|done|]. intros Hin. by apply Hpar, Hfresh. }
  { done. }
  cbn [root t'] in Hc', Hnc.
  pose proof (UpdateAbsModelMatrix_evolves _ _ _ _ Hc') as (N & _).
  destruct (N _ _ Ht) as (nc' & Hnc' & mm & o & ws & dd & -> & _).
  assert (Some nc
          = Some (set_abs_model mm
                    (set_pos_aabb_ws ws (set_pos_aabb_dirty dd (set_pos_aabb_os o nb)))))
    as [= ->] by (rewrite <- Hnc; exact Hnc').
  destruct (main_thread_update_func_returns wc this
              (set_abs_model mm
                 (set_pos_aabb_ws ws (set_pos_aabb_dirty dd (set_pos_aabb_os o nb))))
              app_time elapsed_time) as (w1 & H1 & Hnone).
  exists w1, cs. split; [|split; [done|]].
  - unfold MainThreadUpdate_after_loop. rewrite Hb'. cbn [bind]. rewrite Hc'.
    cbn [bind]. unfold deref. rewrite Hnc. cbn [bind]. by rewrite H1.
  - intros Hf. rewrite (Hnone Hf). unfold Children, deref. by rewrite Hnc.
Qed.


End Calls.

End Refresh.

(** ** The theorems on the example scenes *)

(** Proves a property of every node of a closed store. *)
Ltac solve_all_nodes :=
  let a := fresh "a" in
  let n := fresh "n" in
  let Hn := fresh "Hn" in
  intros a n Hn; pattern n;
  match goal with
  | Hn' : ?m !! _ = _ |- ?P n =>
    apply (map_Forall_lookup_1 (M := gmap addr) (fun _ => P) m a n); [|exact Hn']
  end;
  apply map_Forall_to_list; vm_compute; repeat constructor.

#[local] Existing Instance ZMath.math.

(** Proves [Forall (valid_renderable w) rs] and the like on a closed scene. *)
Ltac solve_drawables :=
  repeat first
    [ apply Forall_nil_2
    | apply Forall_cons_2
    | eexists _, _; repeat split; reflexivity
    | eexists; split; reflexivity ].

Lemma no_callbacks_use_interface : callbacks_use_interface Examples.no_callbacks.
Proof. intros f this app_time elapsed_time w w' [= <-]. ev_refl. Qed.

Lemma no_callbacks_keep_readiness : callbacks_keep_readiness Examples.no_callbacks.
Proof. intros f this app_time elapsed_time w w' [= <-]. ev_refl. Qed.

(** On the composite scene the first [MainThreadUpdate] returns [true] and
    expands the drawable into one child; the second returns [false] and
    the node still has one child. *)
Lemma MainThreadUpdate_twice_result :
  Examples.MainThreadUpdate_twice = Ok (true, 1%nat, false, 1%nat).
Proof. vm_compute. reflexivity. Qed.

Lemma C5_child_loses_its_drawable :
  exists w1,
    DelRenderable (ML := ZMath.math) Examples.world_parent_child 2%positive
      (Some 2%positive) = Ok w1
    /\ bound_dirty w1 2%positive = Some true
    /\ NumRenderables w1 2%positive = Ok 0
    /\ UpdatePosBound 1 w1 2%positive = Fault SubscriptOutOfRange.
Proof.
  destruct (proj1 C5_recomputation_faults_after_last_drawable_removed ZMath.math
              Examples.world_parent_child 2%positive
              (Examples.node_parent_child 2%positive) (Some 2%positive))
    as (w1 & H & Hd & Hnum & Hf & _).
  - vm_compute; reflexivity.
  - vm_compute; reflexivity.
  - vm_compute; reflexivity.
  - vm_compute; reflexivity.
  - intros p Hp. vm_compute in Hp. injection Hp as <-. vm_compute. discriminate.
  - exists w1. split; [exact H|]. split; [exact Hd|]. split; [exact Hnum|].
    exact (Hf 0%nat).
Defined.

Lemma no_callbacks_return : callbacks_return Examples.no_callbacks.
Proof. intros f this app_time elapsed_time w. by exists w. Qed.


Lemma C8_lock_step_parent_child :
  exists w',
    DelRenderable Examples.world_parent_child 1%positive (Some 1%positive) = Ok w'
    /\ forall a n', nodes w' !! a = Some n' -> lock_step n'.
Proof.
  eexists. split; [vm_compute; reflexivity|].
  eapply (C8_readiness_flags_in_lock_step (ML := ZMath.math) Examples.no_callbacks 0
            (Op_DelRenderable 1%positive (Some 1%positive))
            Examples.world_parent_child).
  - exact no_callbacks_use_interface.
  - solve_all_nodes.
  - vm_compute. reflexivity.
Defined.

Lemma C9_bound_presence_parent_child :
  exists w',
    Visible_set 2 Examples.world_parent_child 1%positive false = Ok w'
    /\ forall a n', nodes w' !! a = Some n' -> bound_presence n'.
Proof.
  eexists. split; [vm_compute; reflexivity|].
  eapply (C9_bound_presence_fixed (ML := ZMath.math) Examples.no_callbacks 2
            (Op_Visible 1%positive false) Examples.world_parent_child).
  - exact no_callbacks_use_interface.
  - solve_all_nodes.
  - vm_compute. reflexivity.
Defined.

Lemma C10_Visible_ABA :
  exists w',
    Visible_set 3 Examples.world_ABA 1%positive false = Ok w'
    /\ (forall a, a ∈ [1%positive; 2%positive; 3%positive] -> Visible w' a = Ok false).
Proof.
  destruct (C10_Visible_sets_the_subtree Examples.world_ABA Examples.tree_ABA 3 false)
    as (w' & H & V & _).
  - unfold Examples.tree_ABA. solve_shape.
  - vm_compute. lia.
  - exists w'. split; [exact H|exact V].
Defined.

(** ** The remaining member functions on the example scenes *)

Lemma X1_IsNodeInSubTree_ABA :
  IsNodeInSubTree 3 Examples.world_ABA 1%positive (Some 3%positive) = Ok true
  /\ IsNodeInSubTree 3 Examples.world_ABA 1%positive (Some 4%positive) = Ok false
  /\ IsNodeInSubTree 3 Examples.world_ABA 1%positive None = Ok false.
Proof.
  assert (shape Examples.world_ABA Examples.tree_ABA) as Hs
    by (unfold Examples.tree_ABA; solve_shape).
  assert (height Examples.tree_ABA <= 3)%nat as Hh by (vm_compute; lia).
  pose proof (fun node => X1_IsNodeInSubTree_is_membership (ML := ZMath.math)
                           Examples.world_ABA Examples.tree_ABA 3 node Hs Hh) as H.
  exact (conj (H (Some 3%positive)) (conj (H (Some 4%positive)) (H None))).
Defined.

Lemma X2_found_nodes_ABA :
  IsNodeInSubTree 3 Examples.world_ABA 1%positive (Some 2%positive) = Ok true
  /\ Name Examples.world_ABA 2%positive = Ok Examples.name_B.
Proof.
  apply (proj1 (X2_found_nodes_are_in_the_subtree (ML := ZMath.math) 3
                  Examples.world_ABA 1%positive Examples.name_B)).
  vm_compute. reflexivity.
Defined.
Lemma X3_AddChild_then_GetChildNode_ABA :
  exists w' cs,
    AddChild Examples.world_ABA 1%positive Examples.node_3 = Ok w'
    /\ Children Examples.world_ABA 1%positive = Ok cs
    /\ Children w' 1%positive = Ok (cs ++ [Examples.node_3])
    /\ GetChildNode w' 1%positive (Z.of_nat (length cs)) = Ok Examples.node_3.
Proof.
  assert (exists w', AddChild Examples.world_ABA 1%positive Examples.node_3 = Ok w')
    as (w' & H) by (eexists; vm_compute; reflexivity).
  destruct (X3_AddChild_then_GetChildNode (ML := ZMath.math) Examples.world_ABA
              1%positive Examples.node_3 w' H) as (cs & Hcs & Hall & Hlast & _).
  exists w', cs. exact (conj H (conj Hcs (conj Hall Hlast))).
Defined.

Lemma X4_child_list_edits_ABA :
  exists w',
    AddChild Examples.world_ABA 1%positive Examples.node_3 = Ok w'
    /\ Parent w' 3%positive = Parent Examples.world_ABA 3%positive.
Proof.
  assert (exists w', AddChild Examples.world_ABA 1%positive Examples.node_3 = Ok w')
    as (w' & H) by (eexists; vm_compute; reflexivity).
  destruct (X4_child_list_edits_leave_parent_pointers (ML := ZMath.math)
              Examples.world_ABA 1%positive Examples.node_3 w' (or_introl H))
    as (HP & _).
  exists w'. exact (conj H (HP 3%positive)).
Defined.

Lemma X5_RemoveChild_ABA :
  exists l1 l2 w',
    children_ (default (SceneNode_init 0) (nodes Examples.world_ABA !! 1%positive))
    = l1 ++ Some 2%positive :: l2
    /\ (Some 2%positive ∉ l1)
    /\ RemoveChild Examples.world_ABA 1%positive (Some 2%positive) = Ok w'
    /\ Children w' 1%positive = Ok (l1 ++ l2).
Proof.
  eapply (X5_RemoveChild_erases_first_occurrence (ML := ZMath.math)).
  - vm_compute. reflexivity.
  - apply (bool_decide_unpack _). vm_compute. exact I.
Defined.

Lemma X6_AddChild_RemoveChild_ABA :
  exists w1,
    AddChild Examples.world_ABA 1%positive Examples.node_3 = Ok w1
    /\ RemoveChild w1 1%positive Examples.node_3
       = Ok (store Examples.world_ABA 1%positive
               (set_pos_aabb_dirty true
                  (default (SceneNode_init 0)
                     (nodes Examples.world_ABA !! 1%positive)))).
Proof.
  eapply (X6_AddChild_RemoveChild_round_trip (ML := ZMath.math)).
  - vm_compute. reflexivity.
  - apply (bool_decide_unpack _). vm_compute. exact I.
Defined.

Lemma X7_AddRenderable_parent_child :
  exists w',
    AddRenderable Examples.world_parent_child 1%positive (Some 2%positive) = Ok w'
    /\ NumRenderables Examples.world_parent_child 1%positive = Ok 1
    /\ NumRenderables w' 1%positive = Ok 2
    /\ GetRenderable_at Examples.world_parent_child 1%positive 1
       = Fault SubscriptOutOfRange
    /\ GetRenderable_at w' 1%positive 1 = Ok (Some 2%positive).
Proof.
  destruct (X7_AddRenderable_then_GetRenderable (ML := ZMath.math)
              Examples.world_parent_child 1%positive
              (Examples.node_parent_child 1%positive) (Some 2%positive))
    as (w' & H1 & H2 & H3 & H4 & H5 & _).
  - vm_compute. reflexivity.
  - vm_compute. reflexivity.
  - exists w'. by repeat split.
Defined.

Lemma X8_DelRenderable_parent_child :
  DelRenderable Examples.world_parent_child 1%positive (Some 2%positive)
  = Ok Examples.world_parent_child
  /\ exists w1,
       AddRenderable Examples.world_parent_child 1%positive (Some 2%positive) = Ok w1
       /\ DelRenderable w1 1%positive (Some 2%positive)
          = Ok (store Examples.world_parent_child 1%positive
                  (set_pos_aabb_dirty true (Examples.node_parent_child 1%positive))).
Proof.
  destruct (X8_DelRenderable_absent_and_round_trip (ML := ZMath.math)
              Examples.world_parent_child 1%positive
              (Examples.node_parent_child 1%positive) (Some 2%positive))
    as [Habsent Hround].
  - vm_compute. reflexivity.
  - apply (bool_decide_unpack _). vm_compute. exact I.
  - split; [exact Habsent|]. apply Hround. reflexivity.
Defined.

(** The bare node gets [skin], which has subsurface scattering: [SSS]
    turns from a fault into [true].  It then gets [terrain], which has
    displacement mapping and no subsurface scattering: [SSS] stays [true]
    and [VDM] stays [false]. *)
Lemma X9_flag_queries_skin_terrain :
  exists w1 w2,
    SSS Examples.world_bare 1%positive = Fault SubscriptOutOfRange
    /\ AddRenderable Examples.world_bare 1%positive (Some 1%positive) = Ok w1
    /\ SSS w1 1%positive = Ok true
    /\ VDM w1 1%positive = Ok false
    /\ AddRenderable Examples.world_skinned 1%positive (Some 2%positive) = Ok w2
    /\ SSS w2 1%positive = Ok true
    /\ VDM w2 1%positive = Ok false.
Proof.
  destruct (X9_flag_queries_follow_the_first_drawable (ML := ZMath.math)
              Examples.world_bare 1%positive Examples.node_bare
              (Some 1%positive)) as (w1 & H1 & Hq1); [vm_compute; reflexivity|].
  destruct (X9_flag_queries_follow_the_first_drawable (ML := ZMath.math)
              Examples.world_skinned 1%positive Examples.node_skinned
              (Some 2%positive)) as (w2 & H2 & Hq2); [vm_compute; reflexivity|].
  assert ((SSS, r_SSS) ∈ flag_queries) as Hsss
    by (unfold flag_queries; repeat constructor).
  assert ((VDM, r_VDM) ∈ flag_queries) as Hvdm
    by (unfold flag_queries; repeat constructor).
  assert (renderables_ Examples.node_bare = []) as Hbare
    by (vm_compute; reflexivity).
  assert (renderables_ Examples.node_skinned <> []) as Hskinned
    by (vm_compute; discriminate).
  destruct (proj2 (Hq1 _ _ Hsss) Hbare) as (Hf & _ & Hs1).
  destruct (proj2 (Hq1 _ _ Hvdm) Hbare) as (_ & _ & Hv1).
  pose proof (proj1 (Hq2 _ _ Hsss) Hskinned) as Hs2.
  pose proof (proj1 (Hq2 _ _ Hvdm) Hskinned) as Hv2.
  exists w1, w2. split; [exact Hf|]. split; [exact H1|].
  split; [apply (Hs1 1%positive Examples.skin); vm_compute; reflexivity|].
  split; [apply (Hv1 1%positive Examples.skin); vm_compute; reflexivity|].
  split; [exact H2|]. split.
  - rewrite Hs2. vm_compute; reflexivity.
  - rewrite Hv2. vm_compute; reflexivity.
Defined.

Lemma X10_PosBoundWS_parent_child :
  exists b, PosBoundWS Examples.world_parent_child 1%positive = Ok b
            /\ pos_aabb_ws_ (Examples.node_parent_child 1%positive) = Some b.
Proof.
  eapply (proj1 (X10_PosBoundWS_needs_a_tracked_bound (ML := ZMath.math)
                   Examples.world_parent_child 1%positive
                   (Examples.node_parent_child 1%positive) _ _)).
  split; [reflexivity|]. left. discriminate.
  Unshelve.
  - vm_compute. reflexivity.
  - split; reflexivity.
Defined.

Lemma X11_SelectMode_parent_child :
  exists w',
    SelectMode_set Examples.world_parent_child 1%positive true = Ok w'
    /\ SelectMode w' 1%positive = Ok true.
Proof.
  destruct (X11_SelectMode_and_ObjectID_reach_every_drawable (ML := ZMath.math)
              Examples.world_parent_child 1%positive
              (Examples.node_parent_child 1%positive) true 7)
    as ((w' & H1 & H2 & _) & _).
  - vm_compute. reflexivity.
  - discriminate.
  - solve_drawables.
  - by exists w'.
Defined.

Lemma X12_null_drawable_parent_child :
  exists w1,
    AddRenderable Examples.world_parent_child 1%positive None = Ok w1
    /\ SelectMode_set w1 1%positive true = Fault NullDereference
    /\ ObjectID w1 1%positive 7 = Fault NullDereference
    /\ Pass 2 w1 1%positive true = Fault NullDereference
    /\ UpdateAbsModelMatrix 3 w1 1%positive = Fault NullDereference.
Proof.
  eapply (X12_null_drawable_faults_the_setters (ML := ZMath.math) 2
            Examples.world_parent_child 1%positive
            (Examples.node_parent_child 1%positive)).
  - vm_compute. reflexivity.
  - solve_drawables.
  - intros p Hp. discriminate Hp.
  - reflexivity.
Defined.

Lemma X13_null_child_ABA :
  exists w1,
    AddChild Examples.world_ABA 1%positive None = Ok w1
    /\ (forall fuel vis w', Visible_set fuel w1 1%positive vis <> Ok w').
Proof.
  assert (exists w1, AddChild Examples.world_ABA 1%positive None = Ok w1)
    as (w1 & H) by (eexists; vm_compute; reflexivity).
  destruct (X13_null_child_stops_the_traversals (ML := ZMath.math)
              Examples.world_ABA 1%positive w1 H) as (_ & HV & _).
  exists w1. exact (conj H HV).
Defined.

Lemma X14_own_child_ABA :
  exists w1,
    AddChild Examples.world_ABA 1%positive (Some 1%positive) = Ok w1
    /\ (forall fuel name l, FindAllNode fuel w1 1%positive name <> Ok l).
Proof.
  assert (exists w1, AddChild Examples.world_ABA 1%positive (Some 1%positive) = Ok w1)
    as (w1 & H) by (eexists; vm_compute; reflexivity).
  destruct (X14_own_child_traversals_never_return (ML := ZMath.math)
              Examples.world_ABA 1%positive w1 H) as (HF & _).
  exists w1. exact (conj H HF).
Defined.

Lemma X15_hide_then_show_ABA :
  exists w1,
    Visible_set 3 Examples.world_ABA 1%positive false = Ok w1
    /\ (forall a, a ∈ [1%positive; 2%positive; 3%positive] -> Visible w1 a = Ok false)
    /\ Visible_set 3 w1 1%positive true = Ok Examples.world_ABA.
Proof.
  eapply (X15_hide_then_show_restores_the_store (ML := ZMath.math)
            Examples.world_ABA Examples.tree_ABA 3).
  - unfold Examples.tree_ABA. solve_shape.
  - vm_compute. lia.
  - intros a n Ha Hn.
    repeat (apply elem_of_cons in Ha as [->|Ha];
            [vm_compute in Hn; injection Hn as <-;
             split; [split; [discriminate|reflexivity]|reflexivity]|]).
    by apply elem_of_nil in Ha.
Defined.

(** The root casts no shadow and both nodes are visible.  A shadow-map
    pass reaches the drawable of the root and hides the root and its
    child; a pass of another kind after it shows both again. *)
Lemma X16_Pass_shadowless :
  exists w1 w2,
    Visible Examples.world_shadowless 1%positive = Ok true
    /\ Visible Examples.world_shadowless 2%positive = Ok true
    /\ Pass 2 Examples.world_shadowless 1%positive true = Ok w1
    /\ r_Pass <$> drawables w1 !! 1%positive = Some (Some true)
    /\ Visible w1 1%positive = Ok false
    /\ Visible w1 2%positive = Ok false
    /\ Pass 2 w1 1%positive false = Ok w2
    /\ Visible w2 1%positive = Ok true
    /\ Visible w2 2%positive = Ok true.
Proof.
  destruct (X16_Pass_shows_or_hides_a_NotCastShadow_node (ML := ZMath.math)
              Examples.world_shadowless Examples.tree_parent_child 2
              (Examples.node_shadowless 1%positive) true)
    as (w1 & H1 & Hp1 & Hhide & _).
  { unfold Examples.tree_parent_child. solve_shape. }
  { vm_compute. lia. }
  { vm_compute; reflexivity. }
  { solve_drawables. }
  assert (Ok w1 = Ok Examples.world_shadow_pass) as [= ->].
  { rewrite <- H1. vm_compute; reflexivity. }
  destruct (X16_Pass_shows_or_hides_a_NotCastShadow_node (ML := ZMath.math)
              Examples.world_shadow_pass Examples.tree_parent_child 2
              (Examples.node_shadow_pass 1%positive) false)
    as (w2 & H2 & _ & Hshow & _).
  { unfold Examples.tree_parent_child. solve_shape. }
  { vm_compute. lia. }
  { vm_compute; reflexivity. }
  { solve_drawables. }
  assert (Z.land (attrib_ (Examples.node_shadowless 1%positive)) SOA_NotCastShadow
          <> 0) as Hn1 by (vm_compute; discriminate).
  assert (Z.land (attrib_ (Examples.node_shadow_pass 1%positive)) SOA_NotCastShadow
          <> 0) as Hn2 by (vm_compute; discriminate).
  assert (1%positive ∈ preorder Examples.tree_parent_child) as Hin1
    by (apply (bool_decide_unpack _); vm_compute; exact I).
  assert (2%positive ∈ preorder Examples.tree_parent_child) as Hin2
    by (apply (bool_decide_unpack _); vm_compute; exact I).
  exists Examples.world_shadow_pass, w2.
  split; [vm_compute; reflexivity|]. split; [vm_compute; reflexivity|].
  split; [exact H1|]. split.
  { apply Hp1. apply (bool_decide_unpack _). vm_compute. exact I. }
  split; [exact (Hhide Hn1 _ Hin1)|]. split; [exact (Hhide Hn1 _ Hin2)|].
  split; [exact H2|]. split; [exact (Hshow Hn2 _ Hin1)|exact (Hshow Hn2 _ Hin2)].
Defined.

Lemma X17_UpdateAbsModelMatrix_parent_child :
  exists w' n',
    UpdateAbsModelMatrix 2 Examples.world_parent_child 1%positive = Ok w'
    /\ nodes w' !! 1%positive = Some n'
    /\ abs_model_ n' = ZMath.Identity
    /\ pos_aabb_dirty_ n' = false.
Proof.
  destruct (X17_UpdateAbsModelMatrix_refreshes_box_and_drawables (ML := ZMath.math)
              Examples.world_parent_child Examples.tree_parent_child 2
              (Examples.node_parent_child 1%positive))
    as (w' & n' & M & H & Hn' & HM & Hroot & _ & _ & Hbox).
  - unfold Examples.tree_parent_child. solve_shape.
  - vm_compute. lia.
  - unfold Examples.tree_parent_child. solve_bound_computable.
  - vm_compute. reflexivity.
  - discriminate.
  - solve_drawables.
  - intros p Hp. discriminate Hp.
  - reflexivity.
  - exists w', n'. split; [exact H|]. split; [exact Hn'|]. split.
    + rewrite HM. by rewrite Hroot.
    + by destruct Hbox.
Defined.

Lemma X18_stale_bound_propagated :
  exists w1,
    AddRenderable Examples.world_propagated 2%positive (Some 1%positive) = Ok w1
    /\ bound_dirty w1 2%positive = Some true
    /\ nodes w1 !! 1%positive = Some (Examples.node_propagated 1%positive)
    /\ UpdatePosBound 1 w1 1%positive = Ok w1.
Proof.
  eapply (X18_change_below_a_clean_node_leaves_its_bound (ML := ZMath.math)
            Examples.world_propagated 1%positive 2%positive
            (Examples.node_propagated 1%positive)
            (Examples.node_propagated 2%positive)).
  - vm_compute. reflexivity.
  - apply (bool_decide_unpack _). vm_compute. exact I.
  - discriminate.
  - vm_compute. reflexivity.
  - reflexivity.
Defined.

Lemma X19_tracked_child_parent_child :
  exists w2,
    AddChild (SceneNode_new Examples.world_parent_child SOA_Cullable).2 2%positive
      (Some (SceneNode_new Examples.world_parent_child SOA_Cullable).1) = Ok w2
    /\ UpdateAbsModelMatrix 2 w2 2%positive = Fault SubscriptOutOfRange.
Proof.
  eapply (X19_tracked_child_without_drawables_faults_the_bound (ML := ZMath.math)
            Examples.world_parent_child 2%positive
            (Examples.node_parent_child 2%positive) SOA_Cullable 0).
  - vm_compute. reflexivity.
  - reflexivity.
  - discriminate.
  - solve_drawables.
  - reflexivity.
  - reflexivity.
  - intros q Hq. vm_compute in Hq. injection Hq as <-. discriminate.
  - reflexivity.
Defined.

Lemma X20_AddToSceneManager_ABA :
  exists w',
    AddToSceneManager 3 Examples.world_ABA 1%positive = Ok w'
    /\ scene_nodes_ w' = [Some 1%positive; Some 2%positive; Some 3%positive].
Proof.
  destruct (X20_AddToSceneManager_registers_in_preorder (ML := ZMath.math)
              Examples.world_ABA Examples.tree_ABA 3) as (w' & H & Hreg & _).
  - unfold Examples.tree_ABA. solve_shape.
  - vm_compute. lia.
  - exists w'. split; [exact H|]. rewrite Hreg. reflexivity.
Defined.

Lemma X21_registry_round_trip_ABA :
  exists w1,
    AddToSceneManager 3 Examples.world_ABA 1%positive = Ok w1
    /\ scene_nodes_ w1
       = scene_nodes_ Examples.world_ABA
         ++ map Some (preorder Examples.tree_ABA)
    /\ DelFromSceneManager 3 w1 1%positive = Ok Examples.world_ABA.
Proof.
  eapply (X21_AddToSceneManager_DelFromSceneManager_round_trip (ML := ZMath.math)
            Examples.world_ABA Examples.tree_ABA 3).
  - unfold Examples.tree_ABA. solve_shape.
  - vm_compute. lia.
  - apply (bool_decide_unpack _). vm_compute. exact I.
  - intros a _. apply not_elem_of_nil.
Defined.

Lemma X22_OnAttachRenderable_composite :
  exists w' cs,
    OnAttachRenderable 2 Examples.world_composite 1%positive true = Ok w'
    /\ length cs = 1%nat
    /\ Children w' 1%positive = Ok (map Some cs)
    /\ scene_nodes_ w' = map Some cs.
Proof.
  destruct (X22_OnAttachRenderable_appends_a_child_per_sub_drawable (ML := ZMath.math)
              0 Examples.world_composite 1%positive Examples.node_composite true)
    as (w' & cs & H & Hlen & _ & _ & Hthis & _ & _ & _ & Hreg).
  - vm_compute. reflexivity.
  - intros r Hr. right. vm_compute in Hr.
    apply list_elem_of_singleton in Hr as ->. eexists _, _. split; reflexivity.
  - vm_compute. solve_drawables.
  - exists w', cs. split; [exact H|]. split; [exact Hlen|]. split; [|exact Hreg].
    unfold Children, deref. by rewrite Hthis.
Defined.

Lemma X23_sky_box_empty_world :
  exists this w1 w2,
    SceneObjectSkyBox_new 1 Examples.empty_world
      (Examples.drawable (ZMath.cube (-1) 1) true []) SOA_Cullable = Ok (this, w1)
    /\ Pass 1 w1 this true = Ok w2
    /\ Visible w2 this = Ok false.
Proof.
  destruct (X23_sky_box_is_hidden_in_shadow_passes (ML := ZMath.math) 0
              Examples.empty_world (Examples.drawable (ZMath.cube (-1) 1) true [])
              SOA_Cullable true)
    as (this & r & w1 & w2 & H & _ & _ & _ & _ & _ & _ & _ & HP & HV).
  - reflexivity.
  - by exists this, w1, w2.
Defined.

Lemma X24_proxy_composite :
  exists this w' cs,
    SceneObjectLightSourceProxy_new 2 Examples.world_composite (Some 1%positive)
    = Ok (this, w')
    /\ length cs = 1%nat
    /\ Children w' this = Ok (map Some cs).
Proof.
  destruct (X24_proxy_has_one_child_per_mesh (ML := ZMath.math) 0
              Examples.world_composite 1%positive
              (Examples.drawable (ZMath.cube 0 1) true [Some 2%positive]))
    as (this & w' & cs & H & _ & _ & Hlen & _ & _ & Hkids & _).
  - vm_compute. reflexivity.
  - constructor; [|constructor]. eexists _, _. repeat split; reflexivity.
  - by exists this, w', cs.
Defined.

Lemma X25_ready_composite_expanded_again :
  exists this w1 w2 cs0 cs1,
    SceneNode_new_renderable 2 Examples.world_composite (Some 1%positive) SOA_Cullable
    = Ok (this, w1)
    /\ Children w1 this = Ok (map Some cs0)
    /\ MainThreadUpdate Examples.no_callbacks 2 w1 this 0 0 = Ok (true, w2)
    /\ Children w2 this = Ok (map Some (cs0 ++ cs1))
    /\ length cs0 = 1%nat /\ length cs1 = 1%nat.
Proof.
  destruct (X25_ready_composite_is_expanded_again (ML := ZMath.math)
              Examples.no_callbacks 0 Examples.world_composite 1%positive
              (Examples.drawable (ZMath.cube 0 1) true [Some 2%positive])
              SOA_Cullable 0 0)
    as (this & w1 & w2 & cs0 & cs1 & H1 & H2 & H3 & H4 & H5 & H6 & _).
  - vm_compute. reflexivity.
  - reflexivity.
  - constructor; [|constructor]. eexists _, _. repeat split; reflexivity.
  - by exists this, w1, w2, cs0, cs1.
Defined.

End KlayGE.
